(** * An address-ordered explicit free list allocator (mm.c)

    Shallow embedding of [src/mm.c]: the heap is a flat byte memory together
    with the bounds kept by the backing allocator; every function of the
    source is a computation in a state-and-fault monad over that heap.  The
    size of a pointer (and of [size_t]) is a parameter of the model, as the
    source is written against [sizeof]. *)

From Stdlib Require Import ZArith Lia List Bool.
Import ListNotations.
Open Scope Z_scope.

(** ** Data model *)

(** The two data models the source can be compiled for: [sizeof(void * )] and
    [sizeof(size_t)] are 4 under ILP32 and 8 under LP64. *)
Inductive abi : Type := ILP32 | LP64.

(** What the C abstract machine leaves undefined is a parameter of the
    embedding.  Under [Strict] an access outside [[lo, brk)], the use of an
    indeterminate value and an overlapping [memcpy] are faults.  Under
    [Flat junk] the memory is the flat arena of the backing allocator, and an
    indeterminate object holds [junk]. *)
Inductive mode : Type := Strict | Flat (junk : Z).

Inductive fault : Type :=
| OutOfHeap (addr : Z)
| Indeterminate
| Overlap
| OutOfFuel.

(** Byte-addressed memory. *)
Definition memory : Type := Z -> Z.

(** The heap: the bounds the backing allocator keeps, and the bytes. *)
Record heap : Type := mkHeap {
  lo : Z;        (* first byte of the heap region *)
  brk : Z;       (* one past the last byte of the heap region *)
  limit : Z;     (* the backing allocator refuses to grow past this address *)
  bytes : memory
}.

Inductive outcome (T : Type) : Type :=
| Ok (v : T) (st : heap)
| Fault (f : fault).
Arguments Ok {T} v st.
Arguments Fault {T} f.

Definition M (T : Type) : Type := heap -> outcome T.

Definition ret {T} (v : T) : M T := fun st => Ok v st.

Definition bind {T U} (m : M T) (k : T -> M U) : M U :=
  fun st => match m st with
            | Ok v st' => k v st'
            | Fault f => Fault f
            end.

Definition raise {T} (f : fault) : M T := fun _ => Fault f.

Declare Scope alloc_scope.
Delimit Scope alloc_scope with alloc.
Notation "x <- m ;; k" := (bind m (fun x => k))
  (at level 61, m at next level, right associativity) : alloc_scope.
Notation "m ;;; k" := (bind m (fun _ => k))
  (at level 61, right associativity) : alloc_scope.
Open Scope alloc_scope.

(** Little-endian integers of [n] bytes. *)
Fixpoint load_bytes (m : memory) (a : Z) (n : nat) : Z :=
  match n with
  | O => 0
  | S k => (m a) mod 256 + 256 * load_bytes m (a + 1) k
  end.

Fixpoint store_bytes (m : memory) (a : Z) (n : nat) (v : Z) : memory :=
  match n with
  | O => m
  | S k => store_bytes (fun x => if x =? a then v mod 256 else m x) (a + 1) k (v / 256)
  end.

(** [(int)x]: the low 32 bits, read as a signed integer. *)
Definition to_int (x : Z) : Z := (x + 2 ^ 31) mod 2 ^ 32 - 2 ^ 31.

Definition BLOCK_HEADER : Z := 0.
Definition BLOCK_END : Z := 2.
Definition BLOCK_PAYLOAD : Z := 3.
Definition BLOCK_FORWARD : Z := 3.
Definition BLOCK_BACKWARD : Z := 4.

Definition ALIGNMENT : Z := 8.

Section Model.

Variable A : abi.

Definition sizeof_ptr : Z := match A with ILP32 => 4 | LP64 => 8 end.

Definition word_bytes : nat := Z.to_nat sizeof_ptr.

(** Arithmetic on [size_t] and on pointers wraps around at [word_mod]. *)
Definition word_mod : Z := 2 ^ (8 * sizeof_ptr).

Definition wrap (x : Z) : Z := x mod word_mod.

(** [NULL] and [(void * )-1]. *)
Definition NULL : Z := 0.
Definition FAILED : Z := wrap (-1).

(** [#define ALIGN(size) (((size) + (ALIGNMENT-1)) & ~0x7)] *)
Definition ALIGN (size : Z) : Z :=
  Z.land (wrap (size + (ALIGNMENT - 1))) (wrap (Z.lnot 7)).

(** [#define SIZE_T_SIZE (ALIGN(sizeof(size_t)))] *)
Definition SIZE_T_SIZE : Z := ALIGN sizeof_ptr.

(** [moved_pointer]: from a position in a block to another one. *)
Definition moved_pointer (point_in blocklen position_point position_wanted : Z) : Z :=
  let point :=
    if position_point =? BLOCK_END then wrap (point_in - blocklen)
    else if position_point =? BLOCK_FORWARD then wrap (point_in - SIZE_T_SIZE)
    else if position_point =? BLOCK_BACKWARD then wrap (point_in - sizeof_ptr - SIZE_T_SIZE)
    else point_in in
  if position_wanted =? BLOCK_HEADER then point
  else if position_wanted =? BLOCK_END then wrap (point + blocklen)
  else if position_wanted =? BLOCK_FORWARD then wrap (point + SIZE_T_SIZE)
  else wrap (point + SIZE_T_SIZE + sizeof_ptr).

Definition load_word (m : memory) (a : Z) : Z := load_bytes m a word_bytes.

Definition store_word (m : memory) (a v : Z) : memory := store_bytes m a word_bytes v.

Definition set_bytes (st : heap) (m : memory) : heap :=
  mkHeap (lo st) (brk st) (limit st) m.

Definition set_brk (st : heap) (b : Z) : heap :=
  mkHeap (lo st) b (limit st) (bytes st).

(** ** The backing allocator *)

(** Modelled from the spec: memlib ([mem_heap_lo], [mem_heap_hi], [mem_heapsize],
    [mem_sbrk]) is not part of the sources.  [heap_low] is the first byte of
    the region, [heap_high] its last byte, [heap_size] the byte count, and
    [sbrk(delta)] extends the high end by [delta] bytes and returns the first
    new byte, or the failure sentinel [(void * )-1] when the backing store
    refuses; here it refuses exactly when the region would pass [limit]. *)
Definition mem_heap_lo : M Z := fun st => Ok (lo st) st.

Definition mem_heap_hi : M Z := fun st => Ok (wrap (brk st - 1)) st.

Definition mem_heapsize : M Z := fun st => Ok (brk st - lo st) st.

Definition mem_sbrk (incr : Z) : M Z :=
  fun st => if brk st + incr <=? limit st
            then Ok (brk st) (set_brk st (brk st + incr))
            else Ok FAILED st.

Section Machine.

Variable md : mode.

(** ** Memory accesses *)

Definition in_heap (st : heap) (a n : Z) : bool :=
  (lo st <=? a) && (a + n <=? brk st).

Definition access_ok (st : heap) (a n : Z) : bool :=
  match md with
  | Strict => in_heap st a n
  | Flat _ => true
  end.

(** [*(size_t * )a] and [*(void ** )a] as an rvalue. *)
Definition load (a : Z) : M Z :=
  fun st => if access_ok st a sizeof_ptr
            then Ok (load_word (bytes st) a) st
            else Fault (OutOfHeap a).

(** [*(size_t * )a = v] and [*(void ** )a = v]. *)
Definition store (a v : Z) : M unit :=
  fun st => if access_ok st a sizeof_ptr
            then Ok tt (set_bytes st (store_word (bytes st) a v))
            else Fault (OutOfHeap a).

(** The value of an object that may never have been assigned. *)
Definition read_local (x : option Z) : M Z :=
  match x with
  | Some v => ret v
  | None => match md with
            | Strict => raise Indeterminate
            | Flat junk => ret junk
            end
  end.

Definition ranges_overlap (a b n : Z) : bool :=
  (0 <? n) && (a <? b + n) && (b <? a + n).

(** [memcpy(dst, src, n)]: every byte of the destination receives the byte the
    source held before the call. *)
Definition memcpy (dst src n : Z) : M unit :=
  fun st =>
    if negb (access_ok st src n) then Fault (OutOfHeap src)
    else if negb (access_ok st dst n) then Fault (OutOfHeap dst)
    else if (match md with Strict => ranges_overlap dst src n | Flat _ => false end)
    then Fault Overlap
    else Ok tt (set_bytes st (fun x => if (dst <=? x) && (x <? dst + n)
                                       then bytes st (src + (x - dst))
                                       else bytes st x)).

(** ** Debug functions *)

(** The loop of [free_list_debug]. *)
Fixpoint free_list_debug_loop (fuel : nat) (pos prevpos prevsize : Z) : M Z :=
  match fuel with
  | O => raise OutOfFuel
  | S k =>
    if pos =? NULL then ret 1
    else
      size <- load (moved_pointer pos 0 BLOCK_FORWARD BLOCK_HEADER) ;;
      bad_back <- (if negb (prevpos =? NULL)
                   then b <- load (moved_pointer pos 0 BLOCK_FORWARD BLOCK_BACKWARD) ;;
                        ret (negb (b =? moved_pointer prevpos 0 BLOCK_FORWARD BLOCK_BACKWARD))
                   else ret false) ;;
      if bad_back then ret 0
      else if size mod 2 =? 1 then ret 0
      else if pos <=? prevpos then ret 0
      else if negb (prevpos =? NULL)
              && (moved_pointer prevpos prevsize BLOCK_FORWARD BLOCK_END
                  =? moved_pointer pos 0 BLOCK_FORWARD BLOCK_HEADER)
      then ret 0
      else
        nxt <- load pos ;;
        free_list_debug_loop k nxt pos size
  end.

(** [free_list_debug(0)].  The early [return;] leaves the value of the call
    indeterminate. *)
Definition free_list_debug (fuel : nat) : M Z :=
  l <- mem_heap_lo ;;
  pos <- load l ;;
  stop <- (if pos =? NULL then ret true
           else first <- load pos ;; ret (first =? NULL)) ;;
  if stop then read_local None
  else free_list_debug_loop fuel pos NULL 0.

(** The loop of [print_heap_blocks]. *)
Fixpoint print_heap_blocks_loop (fuel : nat) (pos next_free_block end_of_heap : Z) : M Z :=
  match fuel with
  | O => raise OutOfFuel
  | S k =>
    if pos =? end_of_heap then ret 1
    else
      current_size_header <- load pos ;;
      let allocated := Z.land current_size_header 1 in
      let jump := moved_pointer pos (Z.land current_size_header (wrap (Z.lnot 1)))
                                BLOCK_HEADER BLOCK_END in
      if negb (allocated =? 0) then
        print_heap_blocks_loop k jump next_free_block end_of_heap
      else if negb (next_free_block =? moved_pointer pos 0 BLOCK_HEADER BLOCK_FORWARD)
      then ret 0
      else
        nfb <- load (moved_pointer pos 0 BLOCK_HEADER BLOCK_FORWARD) ;;
        print_heap_blocks_loop k jump nfb end_of_heap
  end.

(** [print_heap_blocks(0)]. *)
Definition print_heap_blocks (fuel : nat) : M Z :=
  l <- mem_heap_lo ;;
  let pos := ALIGN (wrap (l + 1)) in
  current_size_header <- load pos ;;
  if current_size_header =? 0 then ret 2
  else
    l' <- mem_heap_lo ;;
    next_free_block <- load l' ;;
    h <- mem_heap_hi ;;
    let end_of_heap := wrap (h + 1) in
    print_heap_blocks_loop fuel pos next_free_block end_of_heap.

(** [mm_check]. *)
Definition mm_check (fuel : nat) : M Z :=
  a <- print_heap_blocks fuel ;;
  b <- free_list_debug fuel ;;
  ret (Z.land a b).

(** ** [mm_malloc] *)

(** The best-fit scan of [mm_malloc] (the [while (1)] loop).  It returns the
    final [current_pos], the last [size_act] read, [best_p] and [best_s]. *)
Fixpoint malloc_scan (fuel : nat) (newsize current_pos best_p best_s : Z)
  : M (Z * Z * Z * Z) :=
  match fuel with
  | O => raise OutOfFuel
  | S k =>
    size_act <- load (moved_pointer current_pos 0 BLOCK_FORWARD BLOCK_HEADER) ;;
    let better := (size_act >? newsize) && (size_act <? best_s) in
    let exact := negb better && (size_act =? newsize) in
    let best_p' := if better || exact then current_pos else best_p in
    let best_s' := if better || exact then size_act else best_s in
    if exact then ret (current_pos, size_act, best_p', best_s')
    else
      nxt <- load current_pos ;;
      if nxt =? NULL then ret (current_pos, size_act, best_p', best_s')
      else
        nxt' <- load current_pos ;;
        malloc_scan k newsize nxt' best_p' best_s'
  end.

(** [pow(16, SIZE_T_SIZE) - 1], converted to [size_t]. *)
Definition best_s_init : Z := wrap (16 ^ SIZE_T_SIZE - 1).

(** The floor of the request and the size of the block, header included. *)
Definition floor_request (size : Z) : Z :=
  if wrap (to_int size) <? 2 * sizeof_ptr then wrap (2 * sizeof_ptr) else size.

Definition block_size (size : Z) : Z :=
  ALIGN (wrap (floor_request size + SIZE_T_SIZE)).

(** The first call: the heap is empty. *)
Definition malloc_first (newsize : Z) : M Z :=
  r <- mem_sbrk (wrap (newsize + sizeof_ptr)) ;;
  let p := wrap (r + sizeof_ptr) in
  p <- (if negb (ALIGN p =? p)
        then mem_sbrk (wrap (ALIGN p - p)) ;;; ret (ALIGN p)
        else ret p) ;;
  l <- mem_heap_lo ;;
  store l NULL ;;;
  if p =? FAILED then ret NULL
  else
    store p (wrap (newsize + 1)) ;;;
    ret (moved_pointer p newsize BLOCK_HEADER BLOCK_PAYLOAD).

(** No fit ([best_p == NULL]): the heap is extended.  [size_act] is [None]
    when the scan never assigned it. *)
Definition malloc_extend (newsize current_pos : Z) (size_act : option Z) : M Z :=
  sa <- read_local size_act ;;
  h <- mem_heap_hi ;;
  p <- (if moved_pointer current_pos sa BLOCK_FORWARD BLOCK_END =? wrap (h + 1) then
          sa' <- read_local size_act ;;
          mem_sbrk (wrap (newsize - sa')) ;;;
          before <- load (moved_pointer current_pos 0 BLOCK_FORWARD BLOCK_BACKWARD) ;;
          (if negb (before =? NULL) then
             b <- load (moved_pointer current_pos 0 BLOCK_FORWARD BLOCK_BACKWARD) ;;
             store (moved_pointer b 0 BLOCK_BACKWARD BLOCK_FORWARD) NULL
           else
             l' <- mem_heap_lo ;;
             store l' NULL) ;;;
          ret (moved_pointer current_pos 0 BLOCK_FORWARD BLOCK_HEADER)
        else mem_sbrk newsize) ;;
  if p =? FAILED then ret NULL
  else
    store p (wrap (newsize + 1)) ;;;
    ret (moved_pointer p newsize BLOCK_HEADER BLOCK_PAYLOAD).

(** A fit was found: split the free block, or take it whole. *)
Definition malloc_place (newsize best_p best_s : Z) : M Z :=
  if wrap (best_s - newsize) >=? SIZE_T_SIZE + 2 * sizeof_ptr then
    store (moved_pointer best_p newsize BLOCK_FORWARD BLOCK_HEADER) (wrap (best_s - newsize)) ;;;
    let best_p := wrap (best_p + best_s - newsize) in
    store (moved_pointer best_p newsize BLOCK_FORWARD BLOCK_HEADER) (wrap (newsize + 1)) ;;;
    ret best_p
  else
    let newsize := best_s in
    bw <- load (moved_pointer best_p newsize BLOCK_FORWARD BLOCK_BACKWARD) ;;
    (if negb (bw =? NULL) then
       bw' <- load (moved_pointer best_p newsize BLOCK_FORWARD BLOCK_BACKWARD) ;;
       f <- load best_p ;;
       store (moved_pointer bw' 0 BLOCK_BACKWARD BLOCK_FORWARD) f
     else
       f <- load best_p ;;
       l' <- mem_heap_lo ;;
       store l' f) ;;;
    f <- load best_p ;;
    (if negb (f =? NULL) then
       f' <- load best_p ;;
       bw' <- load (moved_pointer best_p newsize BLOCK_FORWARD BLOCK_BACKWARD) ;;
       store (moved_pointer f' 0 BLOCK_FORWARD BLOCK_BACKWARD) bw'
     else ret tt) ;;;
    store (moved_pointer best_p newsize BLOCK_FORWARD BLOCK_HEADER) (wrap (newsize + 1)) ;;;
    ret best_p.

Definition mm_malloc (fuel : nat) (size : Z) : M Z :=
  let newsize := block_size size in
  hs <- mem_heapsize ;;
  if hs =? 0 then malloc_first newsize
  else
    l <- mem_heap_lo ;;
    first <- load l ;;
    scan <- (if negb (first =? NULL) then
               cp <- load l ;;
               r <- malloc_scan fuel newsize cp NULL best_s_init ;;
               let '(cp', sa, bp, bs) := r in
               ret (cp', Some sa, bp, bs)
             else ret (l, None, NULL, best_s_init)) ;;
    let '(current_pos, size_act, best_p, best_s) := scan in
    if best_p =? NULL then malloc_extend newsize current_pos size_act
    else malloc_place newsize best_p best_s.

(** ** [mm_free] *)

(** Coalescing with the block after [ptr] (the same statements at both
    insertion sites of [mm_free]). *)
Definition free_coalesce_after (ptr after_block : Z) : M unit :=
  sz <- load (moved_pointer ptr 0 BLOCK_FORWARD BLOCK_HEADER) ;;
  if moved_pointer after_block 0 BLOCK_FORWARD BLOCK_HEADER
     =? moved_pointer ptr sz BLOCK_FORWARD BLOCK_END then
    s1 <- load (moved_pointer ptr 0 BLOCK_FORWARD BLOCK_HEADER) ;;
    s2 <- load (moved_pointer after_block 0 BLOCK_FORWARD BLOCK_HEADER) ;;
    store (moved_pointer ptr 0 BLOCK_FORWARD BLOCK_HEADER) (wrap (s1 + s2)) ;;;
    af <- load after_block ;;
    store ptr af ;;;
    pf <- load ptr ;;
    if negb (pf =? NULL) then
      pf' <- load ptr ;;
      store (moved_pointer pf' 0 BLOCK_FORWARD BLOCK_BACKWARD)
            (moved_pointer ptr 0 BLOCK_FORWARD BLOCK_BACKWARD)
    else ret tt
  else ret tt.

(** Insertion of [ptr] at the head of the list, before [*lo]. *)
Definition free_insert_head (ptr before_block : Z) : M unit :=
  after_block <- load before_block ;;
  store before_block ptr ;;;
  store (moved_pointer after_block 0 BLOCK_FORWARD BLOCK_BACKWARD)
        (moved_pointer ptr 0 BLOCK_FORWARD BLOCK_BACKWARD) ;;;
  store ptr after_block ;;;
  store (moved_pointer ptr 0 BLOCK_FORWARD BLOCK_BACKWARD) NULL ;;;
  free_coalesce_after ptr after_block.

(** Insertion of [ptr] between [before_block] and [*before_block]. *)
Definition free_insert_between (ptr before_block : Z) : M unit :=
  after_block <- load before_block ;;
  store before_block ptr ;;;
  store (moved_pointer after_block 0 BLOCK_FORWARD BLOCK_BACKWARD)
        (moved_pointer ptr 0 BLOCK_FORWARD BLOCK_BACKWARD) ;;;
  store ptr after_block ;;;
  store (moved_pointer ptr 0 BLOCK_FORWARD BLOCK_BACKWARD)
        (moved_pointer before_block 0 BLOCK_FORWARD BLOCK_BACKWARD) ;;;
  bs <- load (moved_pointer before_block 0 BLOCK_FORWARD BLOCK_HEADER) ;;
  ptr' <- (if moved_pointer ptr 0 BLOCK_FORWARD BLOCK_HEADER
              =? moved_pointer before_block bs BLOCK_FORWARD BLOCK_END then
             s1 <- load (moved_pointer before_block 0 BLOCK_FORWARD BLOCK_HEADER) ;;
             s2 <- load (moved_pointer ptr 0 BLOCK_FORWARD BLOCK_HEADER) ;;
             store (moved_pointer before_block 0 BLOCK_FORWARD BLOCK_HEADER) (wrap (s1 + s2)) ;;;
             store before_block after_block ;;;
             store (moved_pointer after_block 0 BLOCK_FORWARD BLOCK_BACKWARD)
                   (moved_pointer before_block 0 BLOCK_FORWARD BLOCK_BACKWARD) ;;;
             ret before_block
           else ret ptr) ;;
  free_coalesce_after ptr' after_block.

(** The [while ( *before_block != NULL)] loop of [mm_free]: [None] when the
    body returned, [Some before_block] when the loop ran to the end. *)
Fixpoint free_loop (fuel : nat) (ptr before_block : Z) : M (option Z) :=
  match fuel with
  | O => raise OutOfFuel
  | S k =>
    nxt <- load before_block ;;
    if nxt =? NULL then ret (Some before_block)
    else
      nxt2 <- load before_block ;;
      if nxt2 >? ptr then free_insert_between ptr before_block ;;; ret None
      else
        nxt3 <- load before_block ;;
        free_loop k ptr nxt3
  end.

(** The statements after the loop: [ptr] goes to the end of the list. *)
Definition free_append (ptr before_block : Z) (list_empty : bool) : M unit :=
  ptr' <- (if list_empty then
             store before_block ptr ;;;
             store (moved_pointer ptr 0 BLOCK_FORWARD BLOCK_BACKWARD) NULL ;;;
             ret ptr
           else
             bs <- load (moved_pointer before_block 0 BLOCK_FORWARD BLOCK_HEADER) ;;
             if moved_pointer ptr 0 BLOCK_FORWARD BLOCK_HEADER
                =? moved_pointer before_block bs BLOCK_FORWARD BLOCK_END then
               s1 <- load (moved_pointer before_block 0 BLOCK_FORWARD BLOCK_HEADER) ;;
               s2 <- load (moved_pointer ptr 0 BLOCK_FORWARD BLOCK_HEADER) ;;
               store (moved_pointer before_block 0 BLOCK_FORWARD BLOCK_HEADER) (wrap (s1 + s2)) ;;;
               store before_block NULL ;;;
               ret before_block
             else
               store before_block ptr ;;;
               store (moved_pointer ptr 0 BLOCK_FORWARD BLOCK_BACKWARD)
                     (moved_pointer before_block 0 BLOCK_FORWARD BLOCK_BACKWARD) ;;;
               ret ptr) ;;
  store ptr' NULL.

Definition mm_free (fuel : nat) (ptr : Z) : M unit :=
  h <- load (moved_pointer ptr 0 BLOCK_FORWARD BLOCK_HEADER) ;;
  let free_size := Z.land h (wrap (Z.lnot 1)) in
  store (moved_pointer ptr free_size BLOCK_FORWARD BLOCK_HEADER) free_size ;;;
  l <- mem_heap_lo ;;
  first <- load l ;;
  start <- (if negb (first =? NULL) then
              first' <- load l ;;
              if first' >? ptr then free_insert_head ptr l ;;; ret None
              else
                b <- load l ;;
                ret (Some (b, false))
            else ret (Some (l, true))) ;;
  match start with
  | None => ret tt
  | Some (before_block, list_empty) =>
    r <- free_loop fuel ptr before_block ;;
    match r with
    | None => ret tt
    | Some before_block' => free_append ptr before_block' list_empty
    end
  end.

(** ** [mm_realloc] *)

(** In-place growth, case 1: the remainder of the free successor is a free
    block of its own. *)
Definition realloc_split (ptr asked_block_size current_size next_block_header next_block_size : Z)
  : M unit :=
  next_forward <- load (moved_pointer next_block_header next_block_size BLOCK_HEADER BLOCK_FORWARD) ;;
  next_backward <- load (moved_pointer next_block_header next_block_size BLOCK_HEADER BLOCK_BACKWARD) ;;
  store (moved_pointer ptr 0 BLOCK_PAYLOAD BLOCK_HEADER) (wrap (asked_block_size + 1)) ;;;
  let new_free_block_head := moved_pointer ptr asked_block_size BLOCK_PAYLOAD BLOCK_END in
  let new_free_block := moved_pointer new_free_block_head 0 BLOCK_HEADER BLOCK_FORWARD in
  let new_free_block_backward := moved_pointer new_free_block_head 0 BLOCK_HEADER BLOCK_BACKWARD in
  let new_free_size := wrap (next_block_size - wrap (asked_block_size - current_size)) in
  store new_free_block_head new_free_size ;;;
  store (moved_pointer new_free_block_head new_free_size BLOCK_HEADER BLOCK_FORWARD) next_forward ;;;
  store (moved_pointer new_free_block_head new_free_size BLOCK_HEADER BLOCK_BACKWARD) next_backward ;;;
  (if negb (next_forward =? NULL) then
     next_forward_size <- load (moved_pointer next_forward 0 BLOCK_FORWARD BLOCK_HEADER) ;;
     store (moved_pointer next_forward next_forward_size BLOCK_FORWARD BLOCK_BACKWARD)
           new_free_block_backward
   else ret tt) ;;;
  if negb (next_backward =? NULL) then
    store (moved_pointer next_backward 0 BLOCK_BACKWARD BLOCK_FORWARD) new_free_block
  else
    l <- mem_heap_lo ;;
    store l new_free_block.

(** In-place growth, case 2: the whole free successor joins the block. *)
Definition realloc_absorb (ptr current_size next_block_header next_block_size : Z) : M unit :=
  next_forward <- load (moved_pointer next_block_header next_block_size BLOCK_HEADER BLOCK_FORWARD) ;;
  next_backward <- load (moved_pointer next_block_header next_block_size BLOCK_HEADER BLOCK_BACKWARD) ;;
  store (moved_pointer ptr 0 BLOCK_PAYLOAD BLOCK_HEADER) (wrap (current_size + next_block_size + 1)) ;;;
  (if negb (next_forward =? NULL) then
     store (moved_pointer next_forward 0 BLOCK_FORWARD BLOCK_BACKWARD) next_backward
   else ret tt) ;;;
  if negb (next_backward =? NULL) then
    store (moved_pointer next_backward 0 BLOCK_BACKWARD BLOCK_FORWARD) next_forward
  else
    l <- mem_heap_lo ;;
    store l NULL.

Definition mm_realloc (fuel : nat) (ptr asked_size : Z) : M Z :=
  if ptr =? NULL then mm_malloc fuel asked_size
  else if asked_size =? 0 then mm_free fuel ptr ;;; ret ptr
  else
    let asked_block_size := ALIGN (wrap (asked_size + SIZE_T_SIZE)) in
    h <- load (moved_pointer ptr 0 BLOCK_PAYLOAD BLOCK_HEADER) ;;
    let current_size := wrap (h - 1) in
    if asked_block_size <=? current_size then ret ptr
    else
      let next_block_header := moved_pointer ptr current_size BLOCK_PAYLOAD BLOCK_END in
      next_block_size <- load next_block_header ;;
      hi <- mem_heap_hi ;;
      grown <- (if (current_size <? asked_block_size)
                   && negb (next_block_header =? wrap (hi + 1))
                   && (Z.land next_block_size 1 =? 0)
                then
                  if wrap (asked_block_size - current_size) <=? next_block_size then
                    (if wrap (to_int (wrap (next_block_size - wrap (asked_block_size - current_size))))
                        >=? SIZE_T_SIZE + 2 * sizeof_ptr
                     then realloc_split ptr asked_block_size current_size
                                        next_block_header next_block_size
                     else realloc_absorb ptr current_size next_block_header next_block_size) ;;;
                    ret true
                  else ret false
                else ret false) ;;
      if (grown : bool) then ret ptr
      else
        hi' <- mem_heap_hi ;;
        if next_block_header =? wrap (hi' + 1) then
          mem_sbrk (wrap (asked_block_size - current_size)) ;;;
          store (moved_pointer ptr 0 BLOCK_PAYLOAD BLOCK_HEADER) (wrap (asked_block_size + 1)) ;;;
          ret ptr
        else
          newptr <- mm_malloc fuel asked_size ;;
          if newptr =? NULL then ret NULL
          else
            copySize <- load ptr ;;
            memcpy newptr ptr asked_size ;;;
            mm_free fuel ptr ;;;
            ret newptr.

End Machine.
End Model.

(** ** The free list as it lies in memory *)

Section Layout.

Variable A : abi.

(** The size a block header holds, read through a payload pointer. *)
Definition size_at (m : memory) (x : Z) : Z := load_word A m (x - 8).

(** The smallest block that can host the two links:
    [SIZE_T_SIZE + 2*sizeof(void * )]. *)
Definition min_block : Z := 8 + 2 * sizeof_ptr A.

(** [free_chain m low prev p top l]: following the forward links from [p]
    visits exactly the payload pointers [l], in increasing address order;
    every block lies in [[low, top)] and is flagged free, two blocks never
    overlap, every block can host its links, and every backward link holds the address of the
    backward slot of the block before ([NULL] for the first block, whose
    predecessor [prev] is [NULL]). *)
Fixpoint free_chain (m : memory) (low prev p top : Z) (l : list Z) : Prop :=
  match l with
  | [] => p = 0
  | x :: l' =>
    p = x /\ low + 8 <= x /\
    size_at m x mod 2 = 0 /\
    min_block <= size_at m x /\
    x - 8 + size_at m x <= top /\
    load_word A m (x + sizeof_ptr A) = (if prev =? 0 then 0 else prev + sizeof_ptr A) /\
    free_chain m (x - 8 + size_at m x) x (load_word A m x) top l'
  end.

(** The arena lies in the address space, and the heap region holds the
    list-head slot. *)
Record heap_ok (st : heap) : Prop := {
  lo_pos : 0 < lo st;
  lo_brk : lo st + sizeof_ptr A <= brk st;
  brk_limit : brk st <= limit st;
  limit_mod : limit st < word_mod A
}.

(** The free list of a heap. *)
Definition free_list (st : heap) (l : list Z) : Prop :=
  free_chain (bytes st) (lo st + sizeof_ptr A) 0
             (load_word A (bytes st) (lo st)) (brk st) l.

(** Forward links only: from [p], through [l], to [q]. *)
Fixpoint reaches (m : memory) (p : Z) (l : list Z) (q : Z) : Prop :=
  match l with
  | [] => p = q
  | x :: l' => p = x /\ x <> 0 /\ reaches m (load_word A m x) l' q
  end.

(** The blocks of a list of payload pointers: address and size. *)
Definition blocks (m : memory) (l : list Z) : list (Z * Z) :=
  map (fun x => (x, size_at m x)) l.

(** The best-fit scan over the blocks of the list, block [(x, s)] first. *)
Fixpoint scan_list (newsize x s : Z) (rest : list (Z * Z)) (bp bs : Z) : Z * Z * Z * Z :=
  let better := (s >? newsize) && (s <? bs) in
  let exact := negb better && (s =? newsize) in
  let bp' := if better || exact then x else bp in
  let bs' := if better || exact then s else bs in
  if exact then (x, s, bp', bs')
  else match rest with
       | [] => (x, s, bp', bs')
       | (y, t) :: rest' => scan_list newsize y t rest' bp' bs'
       end.

(** Best fit, in the words of the spec: a fitting block of minimal size
    among all fitting blocks, the first one when several share that size. *)
Definition best_fit (newsize : Z) (l : list (Z * Z)) (b : Z * Z) : Prop :=
  exists l1 l2,
    l = l1 ++ b :: l2 /\ newsize <= snd b /\
    (forall b', In b' l1 -> newsize <= snd b' -> snd b < snd b') /\
    (forall b', In b' l2 -> newsize <= snd b' -> snd b <= snd b').

(** The first block of exactly this size. *)
Definition first_exact (newsize : Z) (l : list (Z * Z)) (b : Z * Z) : Prop :=
  exists l1 l2,
    l = l1 ++ b :: l2 /\ snd b = newsize /\
    (forall b', In b' l1 -> snd b' <> newsize).

(** The invariant of the scan: [P] has been visited, and [(bp, bs)] is the
    candidate kept so far. *)
Definition scan_inv (init newsize : Z) (P : list (Z * Z)) (bp bs : Z) : Prop :=
  (forall b, In b P -> snd b <> newsize) /\
  ((bp = 0 /\ bs = init /\ forall b, In b P -> snd b < newsize)
   \/ (bp <> 0 /\ best_fit newsize P (bp, bs))).

(** The memory after [bp] has left the list [l1 ++ bp :: l2]. *)
Definition unlinked (m : memory) (head : Z) (l1 : list Z) (bp : Z) (l2 : list Z) : memory :=
  let target := match l1 with [] => head | _ => last l1 0 end in
  let back := match l1 with [] => 0 | _ => last l1 0 + sizeof_ptr A end in
  let m1 := store_word A m target (hd 0 l2) in
  match l2 with
  | [] => m1
  | y :: _ => store_word A m1 (y + sizeof_ptr A) back
  end.

(** ** Allocated blocks and the effect of [mm_free] *)

(** [ptr] is the payload pointer of an allocated block of the heap, apart
    from every block of the free list [l]. *)
Record allocated_at (st : heap) (l : list Z) (ptr : Z) : Prop := {
  alloc_flag : size_at (bytes st) ptr mod 2 = 1;
  alloc_size : min_block <= size_at (bytes st) ptr - 1;
  alloc_low : lo st + sizeof_ptr A <= ptr - 8;
  alloc_top : ptr - 8 + (size_at (bytes st) ptr - 1) <= brk st;
  alloc_apart : forall x, In x l ->
      x - 8 + size_at (bytes st) x <= ptr - 8
      \/ ptr - 8 + (size_at (bytes st) ptr - 1) <= x - 8
}.

(** The memory after the free block [p] (of size [sp]) has been coalesced
    with the block [a] (of size [sa], forward link [af]) when [a] starts
    where [p] ends. *)
Definition coalesced (m : memory) (p sp a sa af : Z) : memory :=
  if a - 8 =? p - 8 + sp then
    let m1 := store_word A (store_word A m (p - 8) (sp + sa)) p af in
    if af =? 0 then m1 else store_word A m1 (af + sizeof_ptr A) (p + sizeof_ptr A)
  else m.

(** The memory after [mm_free ptr], on a heap whose free list is
    [l1 ++ l2], the blocks of [l1] below [ptr] and those of [l2] above. *)
Definition freed (m : memory) (head ptr : Z) (l1 l2 : list Z) : memory :=
  let w := sizeof_ptr A in
  let cs := size_at m ptr - 1 in
  let m0 := store_word A m (ptr - 8) cs in
  match l1, l2 with
  | [], [] =>
    store_word A (store_word A (store_word A m0 head ptr) (ptr + w) 0) ptr 0
  | [], a :: _ =>
    coalesced
      (store_word A (store_word A (store_word A (store_word A m0 head ptr)
                                               (a + w) (ptr + w)) ptr a) (ptr + w) 0)
      ptr cs a (size_at m a) (load_word A m a)
  | _ :: _, [] =>
    let b := last l1 0 in
    if ptr - 8 =? b - 8 + size_at m b then
      store_word A (store_word A (store_word A m0 (b - 8) (size_at m b + cs)) b 0) b 0
    else
      store_word A (store_word A (store_word A m0 b ptr) (ptr + w) (b + w)) ptr 0
  | _ :: _, a :: _ =>
    let b := last l1 0 in
    let m1 := store_word A (store_word A (store_word A (store_word A m0 b ptr)
                                                     (a + w) (ptr + w)) ptr a)
                         (ptr + w) (b + w) in
    if ptr - 8 =? b - 8 + size_at m b then
      coalesced
        (store_word A (store_word A (store_word A m1 (b - 8) (size_at m b + cs)) b a)
                      (a + w) (b + w))
        b (size_at m b + cs) a (size_at m a) (load_word A m a)
    else
      coalesced m1 ptr cs a (size_at m a) (load_word A m a)
  end.

(** The addresses [mm_free ptr] may write: the list-head slot, the header
    and the two link slots of the block of [ptr], and those of the blocks
    of the free list. *)
Definition touched (head ptr : Z) (l : list Z) (a : Z) : Prop :=
  head <= a < head + sizeof_ptr A
  \/ ptr - 8 <= a < ptr + 2 * sizeof_ptr A
  \/ exists x, In x l /\ x - 8 <= a < x + 2 * sizeof_ptr A.

(** [m'] differs from [m] only at addresses of [S]. *)
Definition only_writes (S : Z -> Prop) (m m' : memory) : Prop :=
  forall a, ~ S a -> m' a = m a.

(** After [mm_free ptr] the block of [ptr] is (part of) a free block that
    the forward links reach from the list head; that block starts at the
    free block that ended where [ptr] started, when there was one, and
    covers the free block that started where [ptr] ended, when there was
    one. *)
Definition freed_block (m m' : memory) (head ptr : Z) (l : list Z) : Prop :=
  exists pre x,
    reaches m' (load_word A m' head) pre x /\ x <> 0 /\
    size_at m' x mod 2 = 0 /\
    x - 8 <= ptr - 8 /\
    ptr - 8 + (size_at m ptr - 1) <= x - 8 + size_at m' x /\
    (forall y, In y l -> y - 8 + size_at m y = ptr - 8 -> x = y) /\
    (forall y, In y l -> y - 8 = ptr - 8 + (size_at m ptr - 1) ->
               y - 8 + size_at m y <= x - 8 + size_at m' x).

(** ** The effect of [mm_malloc] *)

(** [z] lies in a block of the free list [l]. *)
Definition in_free_block (m : memory) (l : list Z) (z : Z) : Prop :=
  exists x, In x l /\ x - 8 <= z < x - 8 + size_at m x.

(** What [mm_malloc] may write: the list head, the free blocks, and the
    addresses from the old end of the heap on. *)
Definition malloc_footprint (st : heap) (l : list Z) (z : Z) : Prop :=
  lo st <= z < lo st + sizeof_ptr A \/ in_free_block (bytes st) l z \/ brk st <= z.

(** From [st] with free list [l] to [st'] with free list [l'], the block of
    [bsz] bytes with payload pointer [q] has been allocated: it is made of
    free bytes or of bytes beyond the old end of the heap, the blocks still
    on the list have not grown and lie apart from it, and nothing outside
    the footprint has been written. *)
Record allocated_block (st st' : heap) (l l' : list Z) (q bsz : Z) : Prop := {
  ab_lo : lo st' = lo st;
  ab_limit : limit st' = limit st;
  ab_brk : brk st <= brk st' <= limit st;
  ab_list : free_list st' l';
  ab_length : (length l' <= length l)%nat;
  ab_low : lo st + sizeof_ptr A <= q - 8;
  ab_fresh : forall z, q - 8 <= z < q - 8 + bsz ->
                       in_free_block (bytes st) l z \/ brk st <= z;
  ab_apart : forall y, In y l' ->
                       In y l /\ size_at (bytes st') y <= size_at (bytes st) y /\
                       (y - 8 + size_at (bytes st') y <= q - 8 \/ q - 8 + bsz <= y - 8);
  ab_frame : only_writes (malloc_footprint st l) (bytes st) (bytes st')
}.


End Layout.

(** ** Observing a heap *)

Definition value_of {T} (r : outcome T) : option T :=
  match r with
  | Ok v _ => Some v
  | Fault _ => None
  end.

(** The heap a run ends in. *)
Definition heap_after {T} (r : outcome T) : heap :=
  match r with
  | Ok _ st => st
  | Fault _ => mkHeap 0 0 0 (fun _ => 0)
  end.

(** A pure observation of the heap, inside a run. *)
Definition inspect {T} (f : heap -> T) : M T := fun st => Ok (f st) st.

Section Observers.

Variable A : abi.

(** The blocks met by walking the heap from its first block, as
    [print_heap_blocks] does: header address, size, allocation flag. *)
Fixpoint physical_walk (fuel : nat) (m : memory) (pos stop : Z) : list (Z * Z * bool) :=
  match fuel with
  | O => []
  | S k =>
    if pos =? stop then []
    else
      let h := load_word A m pos in
      let size := Z.land h (wrap A (Z.lnot 1)) in
      (pos, size, negb (Z.land h 1 =? 0)) :: physical_walk k m (pos + size) stop
  end.

Definition physical_blocks (fuel : nat) (st : heap) : list (Z * Z * bool) :=
  physical_walk fuel (bytes st) (ALIGN A (wrap A (lo st + 1))) (brk st).

(** The payload pointers met by following the forward links from the list
    head. *)
Fixpoint forward_walk (fuel : nat) (m : memory) (p : Z) : list Z :=
  match fuel with
  | O => []
  | S k => if p =? 0 then [] else p :: forward_walk k m (load_word A m p)
  end.

Definition forward_links (fuel : nat) (st : heap) : list Z :=
  forward_walk fuel (bytes st) (load_word A (bytes st) (lo st)).

(** The free blocks of a walk, and whether two of them touch. *)
Definition free_blocks (bs : list (Z * Z * bool)) : list (Z * Z) :=
  map (fun b => (fst (fst b), snd (fst b))) (filter (fun b => negb (snd b)) bs).

Definition touching (a b : Z * Z) : bool := fst a + snd a =? fst b.

Definition some_adjacent (fs : list (Z * Z)) : bool :=
  existsb (fun a => existsb (fun b => touching a b) fs) fs.

(** An empty heap whose arena starts at [base] and holds [room] bytes, all
    zero. *)
Definition fresh_heap (base room : Z) : heap := mkHeap base base (base + room) (fun _ => 0).

End Observers.

(** What C2 looks at: the list head, the header of the block at [p], and the
    end of the heap. *)
Definition head_header_brk (A : abi) (p : Z) (st : heap) : Z * Z * Z :=
  (load_word A (bytes st) (lo st), size_at A (bytes st) p, brk st).

(** ** Scenarios *)

Section Scenarios.

Variable A : abi.
Variable md : mode.
Variable fuel : nat.


(** Five blocks; the second and the fourth are freed; the first grows over
    the second. *)
Definition absorb_first_free : M (Z * Z * Z * Z * Z) :=
  a <- mm_malloc A md fuel 16 ;;
  b <- mm_malloc A md fuel 16 ;;
  c <- mm_malloc A md fuel 16 ;;
  d <- mm_malloc A md fuel 16 ;;
  e <- mm_malloc A md fuel 16 ;;
  mm_free A md fuel b ;;;
  mm_free A md fuel d ;;;
  a' <- mm_realloc A md fuel a 40 ;;
  ret (a', b, c, d, e).

(** Three blocks of 32 bytes; the first and the last are freed. *)
Definition free_first_and_last : M (Z * Z * Z) :=
  a <- mm_malloc A md fuel 24 ;;
  b <- mm_malloc A md fuel 24 ;;
  c <- mm_malloc A md fuel 24 ;;
  mm_free A md fuel a ;;;
  mm_free A md fuel c ;;;
  ret (a, b, c).

(** Free blocks of 112, 48 and 72 bytes, kept apart by allocated blocks. *)
Definition three_free_sizes : M (Z * Z * Z) :=
  a <- mm_malloc A md fuel 100 ;;
  mm_malloc A md fuel 16 ;;;
  b <- mm_malloc A md fuel 40 ;;
  mm_malloc A md fuel 16 ;;;
  c <- mm_malloc A md fuel 60 ;;
  mm_malloc A md fuel 16 ;;;
  mm_free A md fuel a ;;;
  mm_free A md fuel b ;;;
  mm_free A md fuel c ;;;
  ret (a, b, c).

(** The heap after a first allocation of 24 bytes. *)
Definition one_block : M Z := mm_malloc A md fuel 24.

(** A heap that is one free block of 32 bytes, in an arena that is full. *)
Definition single_free_tail : M Z :=
  a <- mm_malloc A md fuel 24 ;;
  mm_free A md fuel a ;;;
  ret a.

End Scenarios.

(** ** Example heaps *)

Definition heap_one_block : heap :=
  heap_after (one_block LP64 Strict 1 (fresh_heap 65536 1048576)).

Definition heap_two_free : heap :=
  heap_after (free_first_and_last LP64 (Flat 0) 8 (fresh_heap 65536 1048576)).

Definition heap_three_free : heap :=
  heap_after (three_free_sizes LP64 (Flat 0) 8 (fresh_heap 65536 1048576)).


(** ** The four ways [mm_malloc] hands out a block *)

Section MallocPaths.

Variable A : abi.

(** [malloc_path st l newsize q st' l' bsz]: from [st] with free list [l],
    a block of [bsz] bytes with payload pointer [q] is handed out for the
    block size [newsize], in the state [st'] with free list [l']: the high
    part of a free block, a whole free block, the last free block grown at
    the end of the heap, or a new block at the end of the heap. *)
Inductive malloc_path (st : heap) (l : list Z) (newsize : Z)
  : Z -> heap -> list Z -> Z -> Prop :=
| path_split bp :
    In bp l ->
    min_block A <= size_at A (bytes st) bp - newsize ->
    malloc_path st l newsize
      (bp + (size_at A (bytes st) bp - newsize))
      (set_bytes st
         (store_word A
            (store_word A (bytes st) (bp - 8) (size_at A (bytes st) bp - newsize))
            (bp + (size_at A (bytes st) bp - newsize) - 8) (newsize + 1)))
      l newsize
| path_whole k1 bp k2 :
    l = k1 ++ bp :: k2 ->
    newsize <= size_at A (bytes st) bp ->
    size_at A (bytes st) bp - newsize < min_block A ->
    malloc_path st l newsize bp
      (set_bytes st
         (store_word A (unlinked A (bytes st) (lo st) k1 bp k2)
                     (bp - 8) (size_at A (bytes st) bp + 1)))
      (k1 ++ k2) (size_at A (bytes st) bp)
| path_tail l0 t :
    l = l0 ++ [t] ->
    t - 8 + size_at A (bytes st) t = brk st ->
    (forall x, In x l -> size_at A (bytes st) x < newsize) ->
    malloc_path st l newsize t
      (mkHeap (lo st)
              (if brk st + (newsize - size_at A (bytes st) t) <=? limit st
               then brk st + (newsize - size_at A (bytes st) t) else brk st)
              (limit st)
              (store_word A (unlinked A (bytes st) (lo st) l0 t [])
                          (t - 8) (newsize + 1)))
      l0 newsize
| path_extend :
    (forall x, In x l -> size_at A (bytes st) x < newsize) ->
    brk st + newsize <= limit st ->
    malloc_path st l newsize (brk st + 8)
      (mkHeap (lo st) (brk st + newsize) (limit st)
              (store_word A (bytes st) (brk st) (newsize + 1)))
      l newsize.


(** The free list after [mm_free ptr], on a heap whose free list is
    [l1 ++ l2], the blocks of [l1] below [ptr] and those of [l2] above:
    [ptr] joins the list between them, unless it is merged into the last
    block of [l1], which ends where it starts; the first block of [l2]
    leaves the list when it starts where [ptr] ends. *)
Definition freed_list (m : memory) (ptr : Z) (l1 l2 : list Z) : list Z :=
  let cs := size_at A m ptr - 1 in
  let merge_before :=
    match l1 with
    | [] => false
    | _ => ptr - 8 =? last l1 0 - 8 + size_at A m (last l1 0)
    end in
  let merge_after :=
    match l2 with
    | [] => false
    | a :: _ => a - 8 =? ptr - 8 + cs
    end in
  l1 ++ (if merge_before then [] else [ptr]) ++ (if merge_after then tl l2 else l2).


(** The memory after [mm_realloc] has grown the block of [ptr] over the
    whole free block [a] that follows it. *)
Definition grown_absorb (m : memory) (head ptr cs a : Z) : memory :=
  let w := sizeof_ptr A in
  let nf := load_word A m a in
  let nb := load_word A m (a + w) in
  let m1 := store_word A m (ptr - 8) (cs + size_at A m a + 1) in
  let m2 := if nf =? 0 then m1 else store_word A m1 (nf + w) nb in
  if nb =? 0 then store_word A m2 head 0 else store_word A m2 (nb - w) nf.

(** ** What the checkers look at *)

(** The block of [x] ends where a block of [l] after it in the list
    starts, or two neighbours in [l] do: free blocks that escaped
    coalescing. *)
Fixpoint touch_after (m : memory) (x : Z) (l : list Z) : bool :=
  match l with
  | [] => false
  | y :: t => (x - 8 + size_at A m x =? y - 8) || touch_after m y t
  end.

Definition escaped_coalescing (m : memory) (l : list Z) : bool :=
  match l with
  | [] => false
  | x :: t => touch_after m x t
  end.

(** The heap from [pos] to [top] is a row of blocks, each header holding
    the size of its block and, in its low bit, the allocation flag. *)
Fixpoint tiled (m : memory) (pos top : Z) (bl : list (Z * bool)) : Prop :=
  match bl with
  | [] => pos = top
  | (s, allocated) :: t =>
    load_word A m pos = (if allocated then s + 1 else s) /\
    s mod 2 = 0 /\ 8 + 2 * sizeof_ptr A <= s /\ pos + s <= top /\
    tiled m (pos + s) top t
  end.

(** The payload pointers of the free blocks of such a row, in address
    order. *)
Fixpoint free_payloads (pos : Z) (bl : list (Z * bool)) : list Z :=
  match bl with
  | [] => []
  | (s, allocated) :: t =>
    (if allocated then [] else [pos + 8]) ++ free_payloads (pos + s) t
  end.

End MallocPaths.

(** ** More example heaps *)

(** The heap of [heap_three_free], in an arena that is full. *)
Definition heap_three_free_full : heap :=
  mkHeap (lo heap_three_free) (brk heap_three_free) (brk heap_three_free)
         (bytes heap_three_free).

(** The heap after [absorb_first_free]: the fourth block is free and on
    no list. *)
Definition heap_off_list : heap :=
  heap_after (absorb_first_free LP64 (Flat 0) 8 (fresh_heap 65536 1048576)).

(** * Proofs *)

(** ** Bytes and words *)

Lemma store_bytes_other m a n v x :
  x < a \/ a + Z.of_nat n <= x -> store_bytes m a n v x = m x.
Proof.
  revert m a v. induction n as [|n IH]; intros m a v H; simpl; [reflexivity|].
  rewrite IH by lia.
  destruct (Z.eqb_spec x a); [lia|reflexivity].
Qed.

Lemma load_bytes_ext m m' a n :
  (forall x, a <= x < a + Z.of_nat n -> m' x = m x) ->
  load_bytes m' a n = load_bytes m a n.
Proof.
  revert a. induction n as [|n IH]; intros a H; simpl; [reflexivity|].
  rewrite H by lia. rewrite IH; [reflexivity|]. intros; apply H; lia.
Qed.

Lemma load_bytes_range m a n : 0 <= load_bytes m a n < 256 ^ Z.of_nat n.
Proof.
  revert a. induction n as [|n IH]; intros a.
  - simpl. lia.
  - cbn [load_bytes]. rewrite Nat2Z.inj_succ, Z.pow_succ_r by lia.
    specialize (IH (a + 1)). pose proof (Z.mod_pos_bound (m a) 256). lia.
Qed.

Lemma load_store_bytes_same m a n v :
  load_bytes (store_bytes m a n v) a n = v mod 256 ^ Z.of_nat n.
Proof.
  revert m a v. induction n as [|n IH]; intros m a v.
  - simpl. now rewrite Z.mod_1_r.
  - cbn [load_bytes store_bytes].
    rewrite store_bytes_other by lia. rewrite Z.eqb_refl.
    rewrite IH. rewrite Nat2Z.inj_succ, Z.pow_succ_r by lia.
    rewrite Z.mod_mod by lia.
    rewrite (Z.rem_mul_r v 256 (256 ^ Z.of_nat n)); lia.
Qed.

Section WordFacts.

Variable A : abi.

Local Abbreviation W := (sizeof_ptr A).
Local Abbreviation MOD := (word_mod A).

Lemma sizeof_ptr_cases : W = 4 \/ W = 8.
Proof. destruct A; [left|right]; reflexivity. Qed.

Lemma word_bytes_eq : Z.of_nat (word_bytes A) = W.
Proof. destruct A; reflexivity. Qed.

Lemma word_mod_eq : MOD = 256 ^ W.
Proof. destruct A; reflexivity. Qed.

Lemma word_mod_cases : MOD = 2 ^ 32 \/ MOD = 2 ^ 64.
Proof. destruct A; [left|right]; reflexivity. Qed.

Lemma word_mod_big : 2 ^ 32 <= MOD.
Proof. destruct A; unfold word_mod; simpl; lia. Qed.

Lemma wrap_small x : 0 <= x < MOD -> wrap A x = x.
Proof. intros. unfold wrap. now apply Z.mod_small. Qed.

Lemma wrap_range x : 0 <= wrap A x < MOD.
Proof. unfold wrap. apply Z.mod_pos_bound. pose proof word_mod_big. lia. Qed.

Lemma SIZE_T_SIZE_eq : SIZE_T_SIZE A = 8.
Proof. destruct A; reflexivity. Qed.

Lemma best_s_init_eq : best_s_init A = 4294967295.
Proof. destruct A; reflexivity. Qed.

Lemma FAILED_eq : FAILED A = MOD - 1.
Proof. destruct A; reflexivity. Qed.

Lemma lnot1_eq : wrap A (Z.lnot 1) = MOD - 2.
Proof. destruct A; reflexivity. Qed.

Lemma lnot7_eq : wrap A (Z.lnot 7) = MOD - 8.
Proof. destruct A; reflexivity. Qed.

(** Masking with [~0x7] rounds down to a multiple of 8. *)
Lemma land_clear_low y k :
  0 <= y < MOD -> 0 <= k ->
  Z.land y (Z.land (Z.ones (8 * W)) (Z.lnot (Z.ones k))) = 2 ^ k * (y / 2 ^ k).
Proof.
  intros Hy Hk.
  rewrite Z.land_assoc, Z.land_ones by (destruct A; simpl; lia).
  fold MOD. rewrite Z.mod_small by assumption.
  rewrite <- Z.ldiff_land, Z.ldiff_ones_r by lia.
  rewrite Z.shiftl_mul_pow2, Z.shiftr_div_pow2 by lia. lia.
Qed.

Lemma land_clear3 y : 0 <= y < MOD -> Z.land y (MOD - 8) = 8 * (y / 8).
Proof.
  intros Hy.
  replace (MOD - 8) with (Z.land (Z.ones (8 * W)) (Z.lnot (Z.ones 3)))
    by (destruct A; reflexivity).
  now rewrite land_clear_low.
Qed.

Lemma ALIGN_eq x : 0 <= x -> x + 7 < MOD -> ALIGN A x = 8 * ((x + 7) / 8).
Proof.
  intros H0 H1. unfold ALIGN, ALIGNMENT.
  rewrite lnot7_eq. replace (x + (8 - 1)) with (x + 7) by lia.
  rewrite wrap_small by lia. apply land_clear3. lia.
Qed.

Lemma ALIGN_bounds x : 0 <= x -> x + 7 < MOD -> x <= ALIGN A x < x + 8 /\ ALIGN A x mod 8 = 0.
Proof.
  intros H0 H1. rewrite ALIGN_eq by assumption.
  pose proof (Z.div_mod (x + 7) 8 ltac:(lia)).
  pose proof (Z.mod_pos_bound (x + 7) 8 ltac:(lia)).
  split; [lia|]. rewrite Z.mul_comm. apply Z.mod_mul. lia.
Qed.

Lemma ALIGN_aligned x : 0 <= x -> x + 7 < MOD -> x mod 8 = 0 -> ALIGN A x = x.
Proof.
  intros H0 H1 H8. rewrite ALIGN_eq by assumption.
  pose proof (Z.div_mod x 8 ltac:(lia)).
  replace (x + 7) with (7 + (x / 8) * 8) by lia.
  rewrite Z.div_add by lia. change (7 / 8) with 0. lia.
Qed.

(** Clearing the allocation flag. *)
Lemma land_clear1 y : 0 <= y < MOD -> Z.land y (MOD - 2) = 2 * (y / 2).
Proof.
  intros Hy.
  replace (MOD - 2) with (Z.land (Z.ones (8 * W)) (Z.lnot (Z.ones 1)))
    by (destruct A; reflexivity).
  now rewrite land_clear_low.
Qed.

Lemma land_1 y : Z.land y 1 = y mod 2.
Proof. change 1 with (Z.ones 1). rewrite Z.land_ones by lia. reflexivity. Qed.

(** ** Words in memory *)

Lemma load_word_range m a : 0 <= load_word A m a < MOD.
Proof.
  unfold load_word. rewrite word_mod_eq, <- word_bytes_eq. apply load_bytes_range.
Qed.

Lemma load_store_same m a v : 0 <= v < MOD -> load_word A (store_word A m a v) a = v.
Proof.
  intros Hv. unfold load_word, store_word.
  rewrite load_store_bytes_same, word_bytes_eq, <- word_mod_eq.
  now apply Z.mod_small.
Qed.

Lemma store_word_other m a v x : x < a \/ a + W <= x -> store_word A m a v x = m x.
Proof.
  intros H. unfold store_word. apply store_bytes_other. rewrite word_bytes_eq. lia.
Qed.

Lemma load_store_other m a v a' :
  a' + W <= a \/ a + W <= a' -> load_word A (store_word A m a v) a' = load_word A m a'.
Proof.
  intros H. unfold load_word. apply load_bytes_ext. intros x Hx.
  rewrite word_bytes_eq in Hx. apply store_word_other. lia.
Qed.

Lemma load_word_ext m m' a :
  (forall x, a <= x < a + W -> m' x = m x) -> load_word A m' a = load_word A m a.
Proof.
  intros H. unfold load_word. apply load_bytes_ext. intros x Hx.
  rewrite word_bytes_eq in Hx. now apply H.
Qed.

End WordFacts.

(** ** Running the monad *)

Section Exec.

Variable A : abi.
Variable md : mode.

Local Abbreviation W := (sizeof_ptr A).
Local Abbreviation MOD := (word_mod A).

Lemma access_ok_in st a n :
  lo st <= a -> a + n <= brk st -> access_ok md st a n = true.
Proof.
  intros H1 H2. unfold access_ok, in_heap. destruct md; [|reflexivity].
  apply andb_true_intro. split; apply Z.leb_le; assumption.
Qed.

Lemma bind_ret {T U} (v : T) (k : T -> M U) st : bind (ret v) k st = k v st.
Proof. reflexivity. Qed.

Lemma bind_assoc {T U V} (m : M T) (f : T -> M U) (g : U -> M V) st :
  bind (bind m f) g st = bind m (fun x => bind (f x) g) st.
Proof. unfold bind. destruct (m st); reflexivity. Qed.

Lemma bind_load {U} st a (k : Z -> M U) :
  lo st <= a -> a + W <= brk st ->
  bind (load A md a) k st = k (load_word A (bytes st) a) st.
Proof.
  intros H1 H2. unfold bind, load. now rewrite access_ok_in.
Qed.

Lemma bind_store {U} st a v (k : unit -> M U) :
  lo st <= a -> a + W <= brk st ->
  bind (store A md a v) k st = k tt (set_bytes st (store_word A (bytes st) a v)).
Proof.
  intros H1 H2. unfold bind, store. now rewrite access_ok_in.
Qed.

Lemma run_load st a :
  lo st <= a -> a + W <= brk st ->
  load A md a st = Ok (load_word A (bytes st) a) st.
Proof. intros H1 H2. unfold load. now rewrite access_ok_in. Qed.

Lemma run_store st a v :
  lo st <= a -> a + W <= brk st ->
  store A md a v st = Ok tt (set_bytes st (store_word A (bytes st) a v)).
Proof. intros H1 H2. unfold store. now rewrite access_ok_in. Qed.

(** ** Block geometry *)

Lemma mp_fwd_hdr x n : 8 <= x < MOD -> moved_pointer A x n BLOCK_FORWARD BLOCK_HEADER = x - 8.
Proof.
  intros H. unfold moved_pointer. cbn [BLOCK_FORWARD BLOCK_END BLOCK_HEADER Z.eqb Pos.eqb].
  rewrite SIZE_T_SIZE_eq. apply wrap_small. lia.
Qed.

Lemma mp_fwd_bwd x n :
  8 <= x -> x + W < MOD -> moved_pointer A x n BLOCK_FORWARD BLOCK_BACKWARD = x + W.
Proof.
  intros H1 H2. pose proof (sizeof_ptr_cases A).
  unfold moved_pointer.
  cbn [BLOCK_FORWARD BLOCK_END BLOCK_HEADER BLOCK_BACKWARD Z.eqb Pos.eqb].
  rewrite SIZE_T_SIZE_eq. rewrite (wrap_small A (x - 8)) by lia.
  rewrite wrap_small by lia. lia.
Qed.

Lemma mp_fwd_end x n :
  8 <= x < MOD -> 0 <= x - 8 + n < MOD ->
  moved_pointer A x n BLOCK_FORWARD BLOCK_END = x - 8 + n.
Proof.
  intros H1 H2. unfold moved_pointer.
  cbn [BLOCK_FORWARD BLOCK_END BLOCK_HEADER BLOCK_BACKWARD Z.eqb Pos.eqb].
  rewrite SIZE_T_SIZE_eq. rewrite (wrap_small A (x - 8)) by lia.
  apply wrap_small. lia.
Qed.

Lemma mp_bwd_fwd b n :
  8 + W <= b < MOD -> moved_pointer A b n BLOCK_BACKWARD BLOCK_FORWARD = b - W.
Proof.
  intros H. pose proof (sizeof_ptr_cases A). unfold moved_pointer.
  cbn [BLOCK_FORWARD BLOCK_END BLOCK_HEADER BLOCK_BACKWARD Z.eqb Pos.eqb].
  rewrite SIZE_T_SIZE_eq. rewrite (wrap_small A (b - W - 8)) by lia.
  rewrite wrap_small by lia. lia.
Qed.

Lemma mp_hdr_fwd p n :
  0 <= p -> p + 8 < MOD -> moved_pointer A p n BLOCK_HEADER BLOCK_FORWARD = p + 8.
Proof.
  intros H1 H2. unfold moved_pointer.
  cbn [BLOCK_FORWARD BLOCK_END BLOCK_HEADER BLOCK_BACKWARD Z.eqb Pos.eqb].
  rewrite SIZE_T_SIZE_eq. apply wrap_small. lia.
Qed.

Lemma mp_hdr_bwd p n :
  0 <= p -> p + 8 + W < MOD -> moved_pointer A p n BLOCK_HEADER BLOCK_BACKWARD = p + 8 + W.
Proof.
  intros H1 H2. pose proof (sizeof_ptr_cases A). unfold moved_pointer.
  cbn [BLOCK_FORWARD BLOCK_END BLOCK_HEADER BLOCK_BACKWARD Z.eqb Pos.eqb].
  rewrite SIZE_T_SIZE_eq. apply wrap_small. lia.
Qed.

Lemma mp_hdr_end p n :
  0 <= p + n < MOD -> moved_pointer A p n BLOCK_HEADER BLOCK_END = p + n.
Proof.
  intros H. unfold moved_pointer.
  cbn [BLOCK_FORWARD BLOCK_END BLOCK_HEADER BLOCK_BACKWARD Z.eqb Pos.eqb].
  apply wrap_small. lia.
Qed.

(** ** The free list *)

Lemma free_chain_bounds m low prev p top l :
  free_chain A m low prev p top l -> l <> [] -> low + 8 <= p /\ p + 2 * W <= top.
Proof.
  destruct l as [|x l]; [congruence|]. cbn [free_chain]. unfold min_block.
  intros (-> & H1 & _ & H2 & H3 & _) _. lia.
Qed.

(** Weakening the lower bound. *)
Lemma free_chain_low m low low' prev p top l :
  free_chain A m low prev p top l -> low' <= low -> free_chain A m low' prev p top l.
Proof.
  destruct l as [|x l]; cbn [free_chain]; [tauto|].
  intros (-> & H1 & Hev & H2 & H3 & H4 & H5) Hl. repeat split; try assumption; lia.
Qed.

Lemma free_chain_top m low prev p top top' l :
  free_chain A m low prev p top l -> top <= top' -> free_chain A m low prev p top' l.
Proof.
  revert low prev p. induction l as [|x l IH]; cbn [free_chain]; [tauto|].
  intros low prev p (-> & H1 & Hev & H2 & H3 & H4 & H5) Hl.
  repeat split; try assumption; [lia|]. now apply IH.
Qed.

(** Every block of the list lies between [low] and [top]. *)
Lemma free_chain_in m low prev p top l x :
  free_chain A m low prev p top l -> In x l ->
  low + 8 <= x /\ min_block A <= size_at A m x /\ x - 8 + size_at A m x <= top.
Proof.
  revert low prev p. induction l as [|y l IH]; cbn [free_chain In]; [tauto|].
  intros low prev p (-> & H1 & Hev & H2 & H3 & H4 & H5) [->|Hin]; [lia|].
  destruct (IH _ _ _ H5 Hin) as (? & ? & ?). unfold min_block in *.
  pose proof (sizeof_ptr_cases A). lia.
Qed.

(** The list depends only on the headers and links of its blocks. *)
Lemma free_chain_ext m m' low prev p top l :
  free_chain A m low prev p top l ->
  (forall x a, In x l -> x - 8 <= a < x + 2 * W -> m' a = m a) ->
  free_chain A m' low prev p top l.
Proof.
  pose proof (sizeof_ptr_cases A) as HW.
  revert low prev p. induction l as [|x l IH]; cbn [free_chain]; [tauto|].
  intros low prev p (-> & H1 & Hev & H2 & H3 & H4 & H5) Hm.
  assert (Es : size_at A m' x = size_at A m x).
  { unfold size_at. apply load_word_ext. intros a Ha. apply (Hm x); [now left|lia]. }
  assert (Ef : load_word A m' x = load_word A m x).
  { apply load_word_ext. intros a Ha. apply (Hm x); [now left|lia]. }
  assert (Eb : load_word A m' (x + W) = load_word A m (x + W)).
  { apply load_word_ext. intros a Ha. apply (Hm x); [now left|lia]. }
  rewrite Es, Ef, Eb. repeat split; try assumption.
  apply IH; [assumption|]. intros y a Hy Ha. apply (Hm y); [now right|assumption].
Qed.

Lemma free_chain_reaches m low prev p top l :
  free_chain A m low prev p top l -> 0 <= low -> reaches A m p l 0.
Proof.
  revert low prev p. induction l as [|x l IH]; cbn [free_chain reaches]; [tauto|].
  intros low prev p (-> & H1 & Hev & H2 & H3 & H4 & H5) Hl.
  repeat split; [lia|]. eapply IH; [eassumption|].
  unfold min_block in H2. pose proof (sizeof_ptr_cases A). lia.
Qed.

(** ** The best-fit scan *)

Lemma malloc_scan_ok newsize st top :
  0 <= lo st -> top <= brk st -> brk st < MOD ->
  forall l x low prev fuel bp bs,
    free_chain A (bytes st) low prev x top (x :: l) ->
    lo st <= low ->
    (length l < fuel)%nat ->
    malloc_scan A md fuel newsize x bp bs st
    = Ok (scan_list newsize x (size_at A (bytes st) x) (blocks A (bytes st) l) bp bs) st.
Proof.
  intros Hlo Htop Hmod. pose proof (sizeof_ptr_cases A) as HW.
  induction l as [|y l IH]; intros x low prev fuel bp bs Hc Hlow Hfuel;
    (destruct fuel as [|fuel]; [simpl in Hfuel; lia|]);
    cbn [free_chain] in Hc; destruct Hc as (_ & H1 & Hev & H2 & H3 & H4 & H5);
    unfold min_block in H2; cbn [malloc_scan].
  - rewrite mp_fwd_hdr by lia. rewrite bind_load by lia. fold (size_at A (bytes st) x).
    cbn [blocks map scan_list].
    destruct (negb _ && _); [reflexivity|].
    rewrite bind_load by lia. cbn [free_chain] in H5. rewrite H5.
    reflexivity.
  - rewrite mp_fwd_hdr by lia. rewrite bind_load by lia. fold (size_at A (bytes st) x).
    cbn [blocks map scan_list]. fold (blocks A (bytes st) l).
    destruct (negb _ && _); [reflexivity|].
    rewrite bind_load by lia.
    pose proof H5 as H5'. cbn [free_chain] in H5'. destruct H5' as (E & G1 & _ & G2 & G3 & _).
    rewrite E. replace (y =? NULL) with false by (symmetry; apply Z.eqb_neq; unfold NULL; lia).
    rewrite bind_load by lia. rewrite E.
    rewrite E in H5.
    apply (IH y _ _ fuel _ _ H5); [lia|simpl in Hfuel; lia].
Qed.

End Exec.

(** ** What the scan computes *)

Lemma best_fit_min newsize P b b' :
  best_fit newsize P b -> In b' P -> newsize <= snd b' -> snd b <= snd b'.
Proof.
  intros (l1 & l2 & -> & Hb & H1 & H2) Hin Hfit.
  apply in_app_or in Hin. destruct Hin as [Hin|[<-|Hin]].
  - specialize (H1 _ Hin Hfit). lia.
  - lia.
  - now apply H2.
Qed.

Lemma best_fit_snoc newsize P b c :
  best_fit newsize P b -> (newsize <= snd c -> snd b <= snd c) ->
  best_fit newsize (P ++ [c]) b.
Proof.
  intros (l1 & l2 & -> & Hb & H1 & H2) Hc.
  exists l1, (l2 ++ [c]). split; [now rewrite <- app_assoc|].
  split; [assumption|]. split; [assumption|].
  intros b' Hin Hfit. apply in_app_or in Hin. destruct Hin as [Hin|[<-|[]]].
  - now apply H2.
  - now apply Hc.
Qed.

Lemma best_fit_app newsize P Q b :
  best_fit newsize P b -> (forall c, In c Q -> newsize <= snd c -> snd b <= snd c) ->
  best_fit newsize (P ++ Q) b.
Proof.
  intros (l1 & l2 & -> & Hb & H1 & H2) Hc.
  exists l1, (l2 ++ Q). split; [now rewrite <- app_assoc|].
  split; [assumption|]. split; [assumption|].
  intros b' Hin Hfit. apply in_app_or in Hin. destruct Hin as [Hin|Hin].
  - now apply H2.
  - now apply Hc.
Qed.

Lemma scan_list_spec init newsize :
  forall rest x s P bp bs,
    scan_inv init newsize P bp bs ->
    x <> 0 -> (newsize < s -> s < init) ->
    (forall b, In b rest -> fst b <> 0 /\ (newsize < snd b -> snd b < init)) ->
    let R := P ++ (x, s) :: rest in
    let '(cur, sa, bp', bs') := scan_list newsize x s rest bp bs in
    ((bp' = 0 /\ (forall b, In b R -> snd b < newsize) /\ (cur, sa) = last R (0, 0))
     \/ (bp' <> 0 /\ best_fit newsize R (bp', bs')))
    /\ (forall b, first_exact newsize ((x, s) :: rest) b -> cur = fst b /\ (bp', bs') = b).
Proof.
  induction rest as [|[y t] rest IH]; intros x s P bp bs (Hne & Hinv) Hx Hs Hrest R;
    cbn [scan_list].
  - (* last block *)
    destruct ((s >? newsize) && (s <? bs)) eqn:Ebetter; cbn [negb andb orb].
    + apply andb_prop in Ebetter. destruct Ebetter as [E1 E2].
      apply Z.gtb_lt in E1. apply Z.ltb_lt in E2.
      split.
      * right. split; [assumption|]. exists P, []. split; [reflexivity|].
        split; [simpl; lia|]. split; [|intros ? []].
        intros b' Hin Hfit. destruct Hinv as [(_ & _ & Hsmall)|(_ & Hbest)].
        -- specialize (Hsmall _ Hin). lia.
        -- pose proof (best_fit_min _ _ _ _ Hbest Hin Hfit) as Hm. simpl in *. lia.
      * intros b (l1 & l2 & El & Eb & Hl1).
        destruct l1 as [|c l1]; [|destruct l1; discriminate].
        injection El as <-. simpl in Eb. lia.
    + destruct (Z.eqb_spec s newsize) as [Es|Es].
      * split.
        -- right. split; [assumption|]. exists P, []. split; [reflexivity|].
           split; [simpl; lia|]. split; [|intros ? []].
           intros b' Hin Hfit. specialize (Hne _ Hin). simpl. lia.
        -- intros b (l1 & l2 & El & Eb & Hl1).
           destruct l1 as [|c l1]; [|destruct l1; discriminate].
           injection El as <-. split; reflexivity.
      * assert (Hcase : s < newsize \/ (newsize < s /\ bs <= s)).
        { apply andb_false_iff in Ebetter. destruct Ebetter as [E|E].
          - left. destruct (Z.gtb_spec s newsize); [discriminate|lia].
          - destruct (Z.ltb_spec s bs); [discriminate|].
            destruct (Z.lt_total s newsize) as [?|[?|?]]; [now left|contradiction|right; lia]. }
        split.
        -- destruct Hinv as [(-> & -> & Hsmall)|(Hbp & Hbest)].
           ++ left. split; [reflexivity|]. split.
              ** intros b Hin. apply in_app_or in Hin. destruct Hin as [Hin|[<-|[]]].
                 --- now apply Hsmall.
                 --- simpl. lia.
              ** unfold R. now rewrite last_last.
           ++ right. split; [assumption|]. apply best_fit_snoc; [assumption|].
              simpl. lia.
        -- intros b (l1 & l2 & El & Eb & Hl1).
           destruct l1 as [|c l1]; [|destruct l1; discriminate].
           injection El as <-. simpl in Eb. contradiction.
  - (* a block followed by others *)
    assert (HR : R = (P ++ [(x, s)]) ++ (y, t) :: rest)
      by (unfold R; now rewrite <- app_assoc).
    destruct (Hrest (y, t) ltac:(now left)) as [Hy Ht]. simpl in Hy, Ht.
    assert (Hrest' : forall b, In b rest -> fst b <> 0 /\ (newsize < snd b -> snd b < init))
      by (intros b Hb; apply Hrest; now right).
    destruct ((s >? newsize) && (s <? bs)) eqn:Ebetter; cbn [negb andb orb].
    + apply andb_prop in Ebetter. destruct Ebetter as [E1 E2].
      apply Z.gtb_lt in E1. apply Z.ltb_lt in E2.
      assert (Hinv' : scan_inv init newsize (P ++ [(x, s)]) x s).
      { split.
        - intros b Hin. apply in_app_or in Hin. destruct Hin as [Hin|[<-|[]]].
          + now apply Hne.
          + simpl. lia.
        - right. split; [assumption|]. exists P, []. split; [reflexivity|].
          split; [simpl; lia|]. split; [|intros ? []].
          intros b' Hin Hfit. destruct Hinv as [(_ & _ & Hsmall)|(_ & Hbest)].
          + specialize (Hsmall _ Hin). lia.
          + pose proof (best_fit_min _ _ _ _ Hbest Hin Hfit) as Hm. simpl in *. lia. }
      specialize (IH y t (P ++ [(x, s)]) x s Hinv' Hy Ht Hrest').
      cbv zeta in IH. rewrite <- HR in IH.
      destruct (scan_list newsize y t rest x s) as [[[cur sa] bp'] bs'].
      destruct IH as [IH1 IH2]. split; [assumption|].
      intros b (l1 & l2 & El & Eb & Hl1).
      destruct l1 as [|c l1].
      * injection El as <- _. simpl in Eb. lia.
      * injection El as <- El. apply IH2. exists l1, l2.
        split; [assumption|]. split; [assumption|].
        intros b' Hb'. apply Hl1. now right.
    + destruct (Z.eqb_spec s newsize) as [Es|Es].
      * split.
        -- right. split; [assumption|]. exists P, ((y, t) :: rest). split; [reflexivity|].
           split; [simpl; lia|]. split.
           ++ intros b' Hin Hfit. specialize (Hne _ Hin). simpl. lia.
           ++ intros b' Hin Hfit. simpl. lia.
        -- intros b (l1 & l2 & El & Eb & Hl1).
           destruct l1 as [|c l1].
           ++ injection El as <- _. split; reflexivity.
           ++ injection El as <- _. exfalso. apply (Hl1 (x, s)); [now left|assumption].
      * assert (Hcase : s < newsize \/ (newsize < s /\ bs <= s)).
        { apply andb_false_iff in Ebetter. destruct Ebetter as [E|E].
          - left. destruct (Z.gtb_spec s newsize); [discriminate|lia].
          - destruct (Z.ltb_spec s bs); [discriminate|].
            destruct (Z.lt_total s newsize) as [?|[?|?]]; [now left|contradiction|right; lia]. }
        assert (Hinv' : scan_inv init newsize (P ++ [(x, s)]) bp bs).
        { split.
          - intros b Hin. apply in_app_or in Hin. destruct Hin as [Hin|[<-|[]]].
            + now apply Hne.
            + assumption.
          - destruct Hinv as [(-> & -> & Hsmall)|(Hbp & Hbest)].
            + left. split; [reflexivity|]. split; [reflexivity|].
              intros b Hin. apply in_app_or in Hin. destruct Hin as [Hin|[<-|[]]].
              * now apply Hsmall.
              * simpl. lia.
            + right. split; [assumption|]. apply best_fit_snoc; [assumption|].
              simpl. lia. }
        specialize (IH y t (P ++ [(x, s)]) bp bs Hinv' Hy Ht Hrest').
        cbv zeta in IH. rewrite <- HR in IH.
        destruct (scan_list newsize y t rest bp bs) as [[[cur sa] bp'] bs'].
        destruct IH as [IH1 IH2]. split; [assumption|].
        intros b (l1 & l2 & El & Eb & Hl1).
        destruct l1 as [|c l1].
        -- injection El as <- _. simpl in Eb. contradiction.
        -- injection El as <- El. apply IH2. exists l1, l2.
           split; [assumption|]. split; [assumption|].
           intros b' Hb'. apply Hl1. now right.
Qed.

Section Chains.

Variable A : abi.

Local Abbreviation W := (sizeof_ptr A).
Local Abbreviation MOD := (word_mod A).

Lemma last_cons {T} (a d : T) l : last (a :: l) d = last l a.
Proof.
  revert a d. induction l as [|b l IH]; intros a d; [reflexivity|].
  change (last (a :: b :: l) d) with (last (b :: l) d).
  change (last (b :: l) a) with (last (b :: l) a).
  rewrite (IH b d), (IH b a). reflexivity.
Qed.

Lemma reaches_app m p l1 l2 q :
  reaches A m p (l1 ++ l2) q <-> exists r, reaches A m p l1 r /\ reaches A m r l2 q.
Proof.
  revert p. induction l1 as [|x l1 IH]; intros p; cbn [app reaches].
  - split; [intros H; now exists p|intros (r & -> & H); exact H].
  - rewrite IH. split.
    + intros (-> & Hx & r & H1 & H2). exists r. repeat split; assumption.
    + intros (r & (-> & Hx & H1) & H2). repeat split; [assumption|]. now exists r.
Qed.

Lemma reaches_ext m m' p l q :
  reaches A m p l q ->
  (forall x a, In x l -> x <= a < x + W -> m' a = m a) ->
  reaches A m' p l q.
Proof.
  revert p. induction l as [|x l IH]; intros p; cbn [reaches]; [tauto|].
  intros (-> & Hx & H) Hm. repeat split; [assumption|].
  rewrite (load_word_ext A m m' x) by (intros a Ha; apply (Hm x); [now left|assumption]).
  apply IH; [assumption|]. intros y a Hy Ha. apply (Hm y); [now right|assumption].
Qed.

Lemma free_chain_split m top l2 x :
  forall l1 low prev p,
    0 <= low ->
    free_chain A m low prev p top (l1 ++ x :: l2) ->
    exists low',
      low <= low' /\
      reaches A m p l1 x /\
      (forall y, In y l1 ->
                 low + 8 <= y /\ min_block A <= size_at A m y /\ y - 8 + size_at A m y <= low') /\
      free_chain A m low' (last l1 prev) x top (x :: l2).
Proof.
  pose proof (sizeof_ptr_cases A) as HW.
  induction l1 as [|y l1 IH]; intros low prev p Hlow Hc.
  - exists low. split; [lia|]. cbn [app] in Hc. split.
    + cbn [reaches]. cbn [free_chain] in Hc. tauto.
    + split; [intros ? []|]. cbn [last]. pose proof Hc as Hc'.
      cbn [free_chain] in Hc'. destruct Hc' as (-> & _). exact Hc.
  - cbn [app free_chain] in Hc. destruct Hc as (-> & H1 & Hev & H2 & H3 & H4 & H5).
    unfold min_block in H2.
    assert (H0 : 0 <= y - 8 + size_at A m y) by lia.
    destruct (IH _ _ _ H0 H5) as (low' & G1 & G2 & G3 & G4).
    exists low'. split; [lia|]. split.
    + cbn [reaches]. repeat split; [lia|assumption].
    + split.
      * intros z [<-|Hz].
        -- unfold min_block. lia.
        -- destruct (G3 _ Hz) as (? & ? & ?). lia.
      * rewrite last_cons. exact G4.
Qed.

End Chains.

Section MallocExtend.

Variable A : abi.
Variable md : mode.

Local Abbreviation W := (sizeof_ptr A).
Local Abbreviation MOD := (word_mod A).

(** The scan phase of [mm_malloc] on a heap whose free list is not empty. *)
Lemma mm_malloc_scanned fuel n st x l :
  heap_ok A st -> free_list A st (x :: l) -> (length l < fuel)%nat ->
  mm_malloc A md fuel n st
  = (let '(cur, sa, bp, bs) :=
       scan_list (block_size A n) x (size_at A (bytes st) x) (blocks A (bytes st) l)
                 0 (best_s_init A) in
     if bp =? 0 then malloc_extend A md (block_size A n) cur (Some sa)
     else malloc_place A md (block_size A n) bp bs) st.
Proof.
  intros [Hlo Hbrk Hlim Hmod] Hfl Hfuel. pose proof (sizeof_ptr_cases A) as HW.
  unfold mm_malloc. cbv zeta.
  unfold bind at 1. unfold mem_heapsize at 1.
  replace (brk st - lo st =? 0) with false by (symmetry; apply Z.eqb_neq; lia).
  unfold bind at 1. unfold mem_heap_lo at 1.
  rewrite bind_load by lia.
  unfold free_list in Hfl. pose proof Hfl as Hfl'.
  cbn [free_chain] in Hfl'. destruct Hfl' as (E & H1 & _).
  rewrite E.
  replace (x =? NULL) with false by (symmetry; apply Z.eqb_neq; unfold NULL; lia).
  cbn [negb]. rewrite bind_assoc. rewrite bind_load by lia. rewrite E.
  rewrite bind_assoc. unfold bind at 1.
  rewrite E in Hfl.
  rewrite (malloc_scan_ok A md (block_size A n) st (brk st) ltac:(lia) ltac:(lia) ltac:(lia)
             l x _ _ fuel _ _ Hfl ltac:(lia) Hfuel).
  unfold NULL.
  destruct (scan_list _ _ _ _ _ _) as [[[cur sa] bp] bs].
  reflexivity.
Qed.

End MallocExtend.

Lemma bind_heap_lo {U} (k : Z -> M U) st : bind mem_heap_lo k st = k (lo st) st.
Proof. reflexivity. Qed.

Lemma bind_heap_hi A {U} (k : Z -> M U) st :
  bind (mem_heap_hi A) k st = k (wrap A (brk st - 1)) st.
Proof. reflexivity. Qed.

Lemma bind_sbrk_ok A {U} (k : Z -> M U) st n :
  brk st + n <= limit st ->
  bind (mem_sbrk A n) k st = k (brk st) (set_brk st (brk st + n)).
Proof.
  intros H. unfold bind, mem_sbrk.
  replace (brk st + n <=? limit st) with true by (symmetry; now apply Z.leb_le).
  reflexivity.
Qed.

Lemma bind_sbrk_fail A {U} (k : Z -> M U) st n :
  limit st < brk st + n ->
  bind (mem_sbrk A n) k st = k (FAILED A) st.
Proof.
  intros H. unfold bind, mem_sbrk.
  replace (brk st + n <=? limit st) with false by (symmetry; apply Z.leb_gt; lia).
  reflexivity.
Qed.

Lemma bind_sbrk_ignored A {U} (k : M U) st n :
  bind (mem_sbrk A n) (fun _ => k) st
  = k (set_brk st (if brk st + n <=? limit st then brk st + n else brk st)).
Proof.
  destruct st as [l b t m]. unfold bind, mem_sbrk, set_brk. cbn [lo brk limit bytes].
  destruct (b + n <=? t); reflexivity.
Qed.

Ltac heap_simpl := cbn [lo brk limit bytes set_bytes set_brk] in *.

Ltac bounds := heap_simpl; lia.

Ltac eqb_false := first [apply Z.eqb_neq | symmetry; apply Z.eqb_neq]; bounds.

Section MallocTail.

Variable A : abi.
Variable md : mode.

Local Abbreviation W := (sizeof_ptr A).
Local Abbreviation MOD := (word_mod A).

Lemma last_in {T} (l : list T) d : l <> [] -> In (last l d) l.
Proof.
  induction l as [|a l IH]; [congruence|]. intros _.
  destruct l as [|b l]; [now left|]. right. apply IH. discriminate.
Qed.

(** The tail of the heap is free and too small: the heap grows by the
    shortfall and the tail leaves the list. *)
(** The last block of the list ends at the end of the heap: the heap is
    extended by what the block lacks, whether or not [mem_sbrk] grants it. *)
Lemma malloc_extend_tail_any newsize st l0 t :
  heap_ok A st -> free_list A st (l0 ++ [t]) ->
  t - 8 + size_at A (bytes st) t = brk st ->
  size_at A (bytes st) t < newsize -> newsize < MOD - 1 ->
  malloc_extend A md newsize t (Some (size_at A (bytes st) t)) st
  = Ok t (mkHeap (lo st)
            (if brk st + (newsize - size_at A (bytes st) t) <=? limit st
             then brk st + (newsize - size_at A (bytes st) t) else brk st)
            (limit st)
            (store_word A
               (store_word A (bytes st) (match l0 with [] => lo st | _ => last l0 0 end) 0)
               (t - 8) (newsize + 1))).
Proof.
  intros [Hlo Hbrk Hlim Hmod] Hfl Hend Hsmall Hroom.
  assert (Hb' : brk st <= (if brk st + (newsize - size_at A (bytes st) t) <=? limit st
                           then brk st + (newsize - size_at A (bytes st) t) else brk st))
    by (destruct (Z.leb_spec (brk st + (newsize - size_at A (bytes st) t)) (limit st)); lia).
  set (b' := if brk st + (newsize - size_at A (bytes st) t) <=? limit st
             then brk st + (newsize - size_at A (bytes st) t) else brk st) in *.
  pose proof (sizeof_ptr_cases A) as HW.
  unfold free_list in Hfl.
  assert (H0 : 0 <= lo st + W) by lia.
  destruct (free_chain_split A _ _ _ _ _ _ _ _ H0 Hfl) as (low' & G1 & G2 & G3 & G4).
  cbn [free_chain] in G4. destruct G4 as (_ & K1 & Kev & K2 & K3 & K4 & K5).
  unfold min_block in K2.
  set (s := size_at A (bytes st) t) in *.
  unfold malloc_extend. cbn [read_local]. rewrite bind_ret.
  rewrite bind_heap_hi.
  rewrite (wrap_small A (brk st - 1)) by lia.
  replace (brk st - 1 + 1) with (brk st) by lia.
  rewrite (wrap_small A (brk st)) by lia.
  rewrite mp_fwd_end by lia. rewrite Hend, Z.eqb_refl.
  rewrite bind_assoc, bind_ret. rewrite wrap_small by lia.
  rewrite bind_assoc. fold s. rewrite bind_sbrk_ignored. fold s. fold b'.
  rewrite bind_assoc. rewrite mp_fwd_bwd by lia.
  rewrite bind_load by bounds. heap_simpl. rewrite K4.
  rewrite mp_fwd_hdr by lia.
  assert (Hne : (t - 8 =? FAILED A) = false) by (rewrite FAILED_eq; eqb_false).
  destruct l0 as [|y l0].
  - cbn [last Z.eqb negb]. unfold NULL. cbn [Z.eqb negb].
    rewrite !bind_assoc, bind_heap_lo. rewrite bind_store by bounds.
    rewrite bind_ret. rewrite Hne. rewrite bind_store by bounds.
    unfold ret. rewrite mp_hdr_fwd by lia. rewrite wrap_small by lia.
    replace (t - 8 + 8) with t by lia. reflexivity.
  - set (prev := last (y :: l0) 0) in *.
    assert (Hin : In prev (y :: l0)) by (apply last_in; discriminate).
    destruct (G3 _ Hin) as (P1 & P2 & P3). unfold min_block in P2.
    replace (prev =? 0) with false by eqb_false.
    unfold NULL.
    replace (prev + W =? 0) with false by eqb_false. cbn [negb].
    rewrite !bind_assoc. rewrite bind_load by bounds. heap_simpl. rewrite K4.
    replace (prev =? 0) with false by eqb_false.
    rewrite mp_bwd_fwd by lia. replace (prev + W - W) with prev by lia.
    rewrite bind_store by bounds.
    rewrite bind_ret. rewrite Hne. rewrite bind_store by bounds.
    unfold ret. rewrite mp_hdr_fwd by lia. rewrite wrap_small by lia.
    replace (t - 8 + 8) with t by lia. reflexivity.
Qed.


End MallocTail.

Section TailExtension.

Variable A : abi.
Variable md : mode.

Local Abbreviation W := (sizeof_ptr A).
Local Abbreviation MOD := (word_mod A).

Lemma blocks_app m l1 l2 : blocks A m (l1 ++ l2) = blocks A m l1 ++ blocks A m l2.
Proof. unfold blocks. apply map_app. Qed.

Lemma in_blocks m l b : In b (blocks A m l) -> In (fst b) l /\ snd b = size_at A m (fst b).
Proof.
  unfold blocks. rewrite in_map_iff. intros (x & <- & Hx). split; [exact Hx|reflexivity].
Qed.

(** The scan of a list in which nothing fits ends on the last block, with
    no candidate. *)
Lemma scan_list_no_fit newsize m x l init :
  (forall y, In y (x :: l) -> y <> 0 /\ size_at A m y < newsize) ->
  scan_list newsize x (size_at A m x) (blocks A m l) 0 init
  = (last (x :: l) 0, size_at A m (last (x :: l) 0), 0, init).
Proof.
  revert x. induction l as [|y l IH]; intros x H.
  - cbn [blocks map scan_list last].
    destruct (H x ltac:(now left)) as [_ Hs].
    replace (size_at A m x >? newsize) with false by (symmetry; rewrite Z.gtb_ltb; apply Z.ltb_ge; lia).
    replace (size_at A m x =? newsize) with false by (symmetry; apply Z.eqb_neq; lia).
    reflexivity.
  - cbn [blocks map scan_list]. fold (blocks A m l).
    destruct (H x ltac:(now left)) as [_ Hs].
    replace (size_at A m x >? newsize) with false by (symmetry; rewrite Z.gtb_ltb; apply Z.ltb_ge; lia).
    replace (size_at A m x =? newsize) with false by (symmetry; apply Z.eqb_neq; lia).
    cbn [andb negb orb].
    rewrite IH by (intros z Hz; apply H; now right).
    rewrite (last_cons x 0 (y :: l)), (last_cons y 0 l), (last_cons y x l). reflexivity.
Qed.



End TailExtension.

Ltac mstep :=
  rewrite ?bind_assoc;
  first [ rewrite bind_ret
        | rewrite bind_heap_lo
        | rewrite bind_heap_hi
        | rewrite bind_load by bounds
        | rewrite bind_store by bounds ];
  heap_simpl.

Section MallocPlace.

Variable A : abi.
Variable md : mode.

Local Abbreviation W := (sizeof_ptr A).
Local Abbreviation MOD := (word_mod A).

(** The block size computed from a request that does not wrap around. *)
Lemma block_size_bounds n :
  0 <= n < MOD - 15 ->
  8 <= block_size A n < MOD - 7 /\ block_size A n mod 8 = 0 /\
  (block_size A n = min_block A \/ n + 8 <= block_size A n < n + 16).
Proof.
  intros Hn. pose proof (sizeof_ptr_cases A) as HW. pose proof (word_mod_big A) as HM.
  unfold block_size, floor_request, min_block. rewrite SIZE_T_SIZE_eq.
  destruct (wrap A (to_int n) <? 2 * W).
  - rewrite (wrap_small A (2 * W)) by lia.
    rewrite (wrap_small A (2 * W + 8)) by lia.
    assert (E8 : (2 * W + 8) mod 8 = 0) by (destruct HW as [-> | ->]; reflexivity).
    rewrite ALIGN_aligned by lia.
    split; [lia|]. split; [exact E8|]. left. lia.
  - rewrite (wrap_small A (n + 8)) by lia.
    pose proof (ALIGN_bounds A (n + 8) ltac:(lia) ltac:(lia)) as [H1 H2].
    pose proof (Z.div_mod (ALIGN A (n + 8)) 8 ltac:(lia)) as H3.
    split; [|split; [exact H2|right; lia]].
    destruct (word_mod_cases A) as [E|E]; rewrite E in *; lia.
Qed.

(** Splitting: the free block keeps its low part, the allocated block is
    its high part. *)
Lemma malloc_place_split newsize st l bp :
  heap_ok A st -> free_list A st l -> In bp l ->
  8 <= newsize ->
  min_block A <= size_at A (bytes st) bp - newsize ->
  malloc_place A md newsize bp (size_at A (bytes st) bp) st
  = Ok (bp + (size_at A (bytes st) bp - newsize))
       (set_bytes st
          (store_word A
             (store_word A (bytes st) (bp - 8) (size_at A (bytes st) bp - newsize))
             (bp + (size_at A (bytes st) bp - newsize) - 8) (newsize + 1))).
Proof.
  intros [Hlo Hbrk Hlim Hmod] Hfl Hin HWn Hsplit.
  pose proof (sizeof_ptr_cases A) as HW.
  destruct (free_chain_in A _ _ _ _ _ _ _ Hfl Hin) as (B1 & B2 & B3).
  unfold min_block in *.
  set (s := size_at A (bytes st) bp) in *.
  unfold malloc_place. rewrite SIZE_T_SIZE_eq.
  rewrite (wrap_small A (s - newsize)) by lia.
  replace (s - newsize >=? 8 + 2 * W) with true
    by (symmetry; rewrite Z.geb_leb; apply Z.leb_le; lia).
  rewrite mp_fwd_hdr by lia. mstep.
  rewrite (wrap_small A (bp + s - newsize)) by lia.
  rewrite mp_fwd_hdr by lia. mstep.
  rewrite (wrap_small A (newsize + 1)) by lia.
  unfold ret. replace (bp + s - newsize) with (bp + (s - newsize)) by lia.
  reflexivity.
Qed.

(** Taking the whole block: it leaves the list. *)
Lemma malloc_place_whole newsize st l1 bp l2 :
  heap_ok A st -> free_list A st (l1 ++ bp :: l2) ->
  size_at A (bytes st) bp - newsize < min_block A -> newsize <= size_at A (bytes st) bp ->
  malloc_place A md newsize bp (size_at A (bytes st) bp) st
  = Ok bp (set_bytes st
             (store_word A (unlinked A (bytes st) (lo st) l1 bp l2)
                         (bp - 8) (size_at A (bytes st) bp + 1))).
Proof.
  intros [Hlo Hbrk Hlim Hmod] Hfl Hnosplit Hfit.
  pose proof (sizeof_ptr_cases A) as HW.
  unfold free_list in Hfl.
  assert (H0 : 0 <= lo st + W) by lia.
  destruct (free_chain_split A _ _ _ _ _ _ _ _ H0 Hfl) as (low' & G1 & G2 & G3 & G4).
  cbn [free_chain] in G4. destruct G4 as (_ & K1 & Kev & K2 & K3 & K4 & K5).
  unfold min_block in *.
  set (s := size_at A (bytes st) bp) in *.
  unfold malloc_place. rewrite SIZE_T_SIZE_eq.
  rewrite (wrap_small A (s - newsize)) by lia.
  replace (s - newsize >=? 8 + 2 * W) with false
    by (symmetry; rewrite Z.geb_leb; apply Z.leb_gt; lia).
  cbv zeta. rewrite !mp_fwd_bwd by lia. rewrite mp_fwd_hdr by lia.
  rewrite (wrap_small A (s + 1)) by lia.
  mstep. rewrite K4.
  assert (Hnext : match l2 with
                  | [] => load_word A (bytes st) bp = 0
                  | y :: _ => load_word A (bytes st) bp = y /\ bp - 8 + s + 8 <= y /\
                              y + 2 * W <= brk st
                  end).
  { destruct l2 as [|y l2]; cbn [free_chain] in K5; [exact K5|].
    destruct K5 as (E & Y1 & _ & Y2 & Y3 & _). unfold min_block in Y2. rewrite E. lia. }
  destruct l1 as [|x1 l1].
  - (* [bp] is the first block of the list *)
    cbn [last Z.eqb]. unfold NULL. cbn [Z.eqb negb].
    mstep. mstep. mstep. mstep.
    rewrite load_store_other by lia.
    destruct l2 as [|y l2].
    + rewrite Hnext. cbn [Z.eqb negb]. mstep. mstep. unfold ret, unlinked. cbn [hd].
      reflexivity.
    + destruct Hnext as (E & Y1 & Y2). rewrite E.
      replace (y =? 0) with false by eqb_false. cbn [negb].
      mstep. rewrite load_store_other by lia. rewrite E.
      mstep. rewrite load_store_other by lia. rewrite K4. cbn [last Z.eqb].
      rewrite mp_fwd_bwd by lia. mstep. mstep. unfold ret, unlinked. cbn [hd].
      reflexivity.
  - (* [bp] has a predecessor *)
    set (prev := last (x1 :: l1) 0) in *.
    assert (Hin : In prev (x1 :: l1)) by (apply last_in; discriminate).
    destruct (G3 _ Hin) as (P1 & P2 & P3).
    replace (prev =? 0) with false by eqb_false.
    unfold NULL.
    replace (prev + W =? 0) with false by eqb_false. cbn [negb].
    mstep. rewrite K4.
    replace (prev =? 0) with false by eqb_false.
    mstep. rewrite mp_bwd_fwd by lia. replace (prev + W - W) with prev by lia.
    mstep. mstep. rewrite load_store_other by lia.
    destruct l2 as [|y l2].
    + rewrite Hnext. cbn [Z.eqb negb]. mstep. mstep. unfold ret, unlinked. cbn [hd].
      fold prev. reflexivity.
    + destruct Hnext as (E & Y1 & Y2). rewrite E.
      replace (y =? 0) with false by eqb_false. cbn [negb].
      mstep. rewrite load_store_other by lia. rewrite E.
      mstep. rewrite load_store_other by lia. rewrite K4.
      replace (prev =? 0) with false by eqb_false.
      rewrite mp_fwd_bwd by lia. mstep. mstep. unfold ret, unlinked. cbn [hd].
      fold prev. reflexivity.
Qed.

End MallocPlace.

Section BestFit.

Variable A : abi.
Variable md : mode.

Local Abbreviation W := (sizeof_ptr A).
Local Abbreviation MOD := (word_mod A).


End BestFit.

Section Undefined.

Variable A : abi.

Local Abbreviation W := (sizeof_ptr A).
Local Abbreviation MOD := (word_mod A).

(** C9 — [mm_realloc] on the last block of the heap, asked to grow: the word
    at the end of the block, which is the end of the heap, is loaded before
    any test of that address; where an access outside the heap is a fault,
    the call faults on that load. *)
Theorem realloc_tail_reads_past_end fuel st ptr n :
  heap_ok A st ->
  lo st + W <= ptr - 8 ->
  n <> 0 ->
  8 <= wrap A (load_word A (bytes st) (ptr - 8) - 1) ->
  wrap A (load_word A (bytes st) (ptr - 8) - 1) < ALIGN A (wrap A (n + SIZE_T_SIZE A)) ->
  ptr - 8 + wrap A (load_word A (bytes st) (ptr - 8) - 1) = brk st ->
  mm_realloc A Strict fuel ptr n st = Fault (OutOfHeap (brk st)).
Proof.
  intros [Hlo Hbrk Hlim Hmod] Hptr Hn Hmin Hgrow Htail.
  pose proof (sizeof_ptr_cases A) as HW.
  set (current := wrap A (load_word A (bytes st) (ptr - 8) - 1)) in *.
  unfold mm_realloc.
  replace (ptr =? NULL) with false by (symmetry; apply Z.eqb_neq; unfold NULL; lia).
  replace (n =? 0) with false by (symmetry; now apply Z.eqb_neq).
  change BLOCK_PAYLOAD with BLOCK_FORWARD.
  rewrite mp_fwd_hdr by lia. rewrite bind_load by lia. fold current.
  replace (ALIGN A (wrap A (n + SIZE_T_SIZE A)) <=? current) with false
    by (symmetry; apply Z.leb_gt; lia).
  rewrite mp_fwd_end by lia. rewrite Htail.
  unfold bind, load, access_ok, in_heap.
  replace (brk st + W <=? brk st) with false by (symmetry; apply Z.leb_gt; lia).
  now rewrite andb_false_r.
Qed.

(** C10 — [mm_malloc] on a heap that is not empty and whose free list is
    empty: the no-fit branch runs with the cursor on the list-head slot and
    with [size_act] never assigned.  Where the use of an indeterminate value
    is a fault, the call faults; where it holds some value [j], that value
    alone decides between the tail extension (which then takes the list-head
    slot for a free block and returns it) and the plain extension. *)
Theorem malloc_reads_unassigned_size_act fuel n st :
  heap_ok A st ->
  load_word A (bytes st) (lo st) = 0 ->
  mm_malloc A Strict fuel n st = Fault Indeterminate /\
  (forall j, mm_malloc A (Flat j) fuel n st
             = malloc_extend A (Flat j) (block_size A n) (lo st) None st) /\
  (forall j,
      moved_pointer A (lo st) j BLOCK_FORWARD BLOCK_END <> brk st ->
      0 <= n < MOD - 15 ->
      brk st + block_size A n <= limit st ->
      exists st', mm_malloc A (Flat j) fuel n st = Ok (wrap A (brk st + 8)) st' /\
                  brk st' = brk st + block_size A n) /\
  (forall j,
      moved_pointer A (lo st) j BLOCK_FORWARD BLOCK_END = brk st ->
      brk st + wrap A (block_size A n - j) <= limit st ->
      8 <= lo st ->
      exists st', mm_malloc A (Flat j) fuel n st = Ok (lo st) st' /\
                  brk st' = brk st + wrap A (block_size A n - j)).
Proof.
  intros [Hlo Hbrk Hlim Hmod] Hhead.
  pose proof (sizeof_ptr_cases A) as HW.
  assert (Hrun : forall md, mm_malloc A md fuel n st
                            = malloc_extend A md (block_size A n) (lo st) None st).
  { intros md. unfold mm_malloc. cbv zeta.
    unfold bind at 1. unfold mem_heapsize at 1.
    replace (brk st - lo st =? 0) with false by (symmetry; apply Z.eqb_neq; lia).
    rewrite bind_heap_lo. rewrite bind_load by lia. rewrite Hhead.
    unfold NULL. cbn [Z.eqb negb]. rewrite bind_ret. reflexivity. }
  split; [rewrite Hrun; reflexivity|].
  split; [intros j; apply Hrun|].
  assert (Hend : wrap A (wrap A (brk st - 1) + 1) = brk st).
  { rewrite (wrap_small A (brk st - 1)) by lia.
    replace (brk st - 1 + 1) with (brk st) by lia. apply wrap_small. lia. }
  split.
  - intros j Hj Hn Hroom. destruct (block_size_bounds A n Hn) as (N1 & _).
    rewrite Hrun. unfold malloc_extend.
    cbn [read_local]. rewrite bind_ret. rewrite bind_heap_hi. rewrite Hend.
    replace (moved_pointer A (lo st) j BLOCK_FORWARD BLOCK_END =? brk st) with false
      by (symmetry; now apply Z.eqb_neq).
    rewrite bind_sbrk_ok by assumption.
    replace (brk st =? FAILED A) with false
      by (symmetry; apply Z.eqb_neq; rewrite FAILED_eq; lia).
    unfold moved_pointer. cbn [BLOCK_HEADER BLOCK_PAYLOAD BLOCK_END BLOCK_FORWARD Z.eqb Pos.eqb].
    rewrite SIZE_T_SIZE_eq.
    unfold bind, store, access_ok, ret.
    eexists. split; reflexivity.
  - intros j Hj Hroom Hlo8. rewrite Hrun. unfold malloc_extend.
    cbn [read_local]. rewrite bind_ret. rewrite bind_heap_hi. rewrite Hend.
    rewrite Hj, Z.eqb_refl.
    rewrite !bind_assoc, bind_ret. rewrite !bind_assoc.
    rewrite bind_sbrk_ok by assumption.
    rewrite mp_fwd_hdr by lia.
    assert (Hnf : (lo st - 8 =? FAILED A) = false)
      by (apply Z.eqb_neq; rewrite FAILED_eq; lia).
    assert (Eq : moved_pointer A (lo st - 8) (block_size A n) BLOCK_HEADER BLOCK_PAYLOAD = lo st).
    { change BLOCK_PAYLOAD with BLOCK_FORWARD. rewrite mp_hdr_fwd by lia. lia. }
    unfold bind, load, store, access_ok, ret, mem_heap_lo.
    destruct (negb _); rewrite Hnf, Eq; eexists; split; reflexivity.
Qed.

End Undefined.

(** ** Runs on concrete heaps *)



(** C2 — the heap is one free block of 32 bytes and the arena is full, so the
    backing allocator refuses the growth [mm_malloc] asks for.  The call
    returns the pointer of the tail, not [NULL], and the heap has changed: the
    list head is [NULL] and the header claims 2056 bytes, while the heap still
    ends at the same address. *)
Lemma malloc_tail_extension_ignores_refusal (A : abi) :
  value_of ((a <- single_free_tail A Strict 8 ;;
             before <- inspect (head_header_brk A a) ;;
             q <- mm_malloc A Strict 8 2048 ;;
             after <- inspect (head_header_brk A a) ;;
             ret (a, before, q, after)) (fresh_heap 65536 40))
  = Some (65552, (65552, 32, 65576), 65552, (0, 2057, 65576)).
Proof. destruct A; vm_compute; reflexivity. Qed.

(** C4 — five blocks of 24 bytes; the second and the fourth are freed;
    [mm_realloc] grows the first over the second, which was the head of the
    free list, and writes [NULL] to the list head: the fourth block is free
    and on no list.  Freeing the third block then leaves two free blocks, at
    65592 and 65616, that touch. *)
Lemma adjacent_free_blocks_after_absorb (A : abi) :
  value_of ((r <- absorb_first_free A (Flat 0) 8 ;;
             let '(a, b, c, d, e) := r in
             mm_free A (Flat 0) 8 c ;;;
             w <- inspect (physical_blocks A 8) ;;
             f <- inspect (forward_links A 8) ;;
             ret (w, f, some_adjacent (free_blocks w)))
              (fresh_heap 65536 1048576))
  = Some ([(65544, 48, true); (65592, 24, false); (65616, 24, false);
           (65640, 24, true)],
          [65600], true).
Proof. destruct A; vm_compute; reflexivity. Qed.

Lemma load_bytes_zero a n : load_bytes (fun _ => 0) a n = 0.
Proof. revert a. induction n as [|n IH]; intros a; simpl; [reflexivity|]. now rewrite IH. Qed.

Lemma land_2_not_1 j : (Z.land 2 j =? 1) = false.
Proof.
  apply Z.eqb_neq. intros E.
  assert (H : Z.testbit (Z.land 2 j) 0 = Z.testbit 1 0) by now rewrite E.
  rewrite Z.land_spec in H. simpl in H. discriminate.
Qed.

(** C7 — [mm_check] does not return true in every reachable state.  On an
    empty heap (flat arena, all zero) [print_heap_blocks] returns 2 and
    [free_list_debug] returns without a value: the result is [2 & j], never
    1.  After the calls of [absorb_first_free] a free block is on no list and
    the result is 0, whatever the value the early [return;] leaves. *)
Lemma check_not_true (A : abi) :
  (forall j base room fuel,
      value_of (mm_check A (Flat j) fuel (fresh_heap base room)) = Some (Z.land 2 j) /\
      (Z.land 2 j =? 1) = false) /\
  (forall fuel base room,
      mm_check A Strict fuel (fresh_heap base room)
      = Fault (OutOfHeap (ALIGN A (wrap A (base + 1))))) /\
  value_of ((absorb_first_free A (Flat 0) 8 ;;; mm_check A (Flat 1) 8)
              (fresh_heap 65536 1048576)) = Some 0.
Proof.
  split; [|split].
  - intros j base room fuel. split; [|apply land_2_not_1].
    set (st := fresh_heap base room).
    assert (P : print_heap_blocks A (Flat j) fuel st = Ok 2 st).
    { unfold print_heap_blocks. rewrite bind_heap_lo.
      unfold bind at 1. unfold load, access_ok, load_word. cbn [bytes st fresh_heap].
      rewrite load_bytes_zero. reflexivity. }
    assert (F : free_list_debug A (Flat j) fuel st = Ok j st).
    { unfold free_list_debug. rewrite bind_heap_lo.
      unfold bind at 1. unfold load at 1. unfold access_ok, load_word.
      cbn [bytes st fresh_heap]. rewrite load_bytes_zero. reflexivity. }
    unfold mm_check, bind. rewrite P, F. reflexivity.
  - intros fuel base room. pose proof (sizeof_ptr_cases A) as HW.
    unfold mm_check, print_heap_blocks. rewrite !bind_assoc, bind_heap_lo.
    unfold bind, load, access_ok, in_heap. cbn [lo brk fresh_heap].
    destruct (Z.leb_spec base (ALIGN A (wrap A (base + 1)))); cbn [andb]; [|reflexivity].
    destruct (Z.leb_spec (ALIGN A (wrap A (base + 1)) + sizeof_ptr A) base); [lia|reflexivity].
  - destruct A; vm_compute; reflexivity.
Qed.

(** ** [mm_free] *)

Section FreeWalk.

Variable A : abi.
Variable md : mode.

Local Abbreviation W := (sizeof_ptr A).
Local Abbreviation MOD := (word_mod A).

(** The list splits around [ptr]. *)
Lemma free_chain_partition m ptr top :
  forall l low prev p,
    free_chain A m low prev p top l -> 0 <= low ->
    (forall x, In x l -> x < ptr \/ ptr < x) ->
    exists l1 l2, l = l1 ++ l2 /\ (forall x, In x l1 -> x < ptr)
                  /\ (forall x, In x l2 -> ptr < x).
Proof.
  pose proof (sizeof_ptr_cases A) as HW.
  induction l as [|x l IH]; intros low prev p Hc Hlow Hcmp.
  - exists [], []. repeat split; intros ? [].
  - pose proof Hc as Hc'. cbn [free_chain] in Hc'.
    destruct Hc' as (-> & H1 & Hev & H2 & H3 & H4 & H5). unfold min_block in H2.
    destruct (Hcmp x ltac:(now left)) as [Hx|Hx].
    + assert (H0 : 0 <= x - 8 + size_at A m x) by lia.
      destruct (IH _ _ _ H5 H0) as (l1 & l2 & -> & G1 & G2).
      { intros y Hy. apply Hcmp. now right. }
      exists (x :: l1), l2. split; [reflexivity|]. split; [|assumption].
      intros y [<-|Hy]; [assumption|now apply G1].
    + exists [], (x :: l). split; [reflexivity|]. split; [intros ? []|].
      intros y [<-|Hy]; [assumption|].
      destruct (free_chain_in A _ _ _ _ _ _ _ H5 Hy) as (B1 & _). lia.
Qed.

(** The loop of [mm_free] walks the blocks below [ptr]. *)
Lemma free_loop_run ptr st top l2 :
  0 <= lo st -> top <= brk st -> brk st < MOD ->
  (forall x, In x l2 -> ptr < x) ->
  forall k cur low prev fuel,
    free_chain A (bytes st) low prev cur top (cur :: k ++ l2) ->
    lo st <= low ->
    (forall x, In x (cur :: k) -> x < ptr) ->
    (length k < fuel)%nat ->
    free_loop A md fuel ptr cur st
    = match l2 with
      | [] => Ok (Some (last k cur)) st
      | _ :: _ => (free_insert_between A md ptr (last k cur) ;;; ret None) st
      end.
Proof.
  intros Hlo Htop Hmod Hl2. pose proof (sizeof_ptr_cases A) as HW.
  induction k as [|y k IH]; intros cur low prev fuel Hc Hlow Hbelow Hfuel;
    (destruct fuel as [|fuel]; [simpl in Hfuel; lia|]);
    cbn [app free_chain] in Hc; destruct Hc as (_ & H1 & Hev & H2 & H3 & H4 & H5);
    unfold min_block in H2; cbn [free_loop].
  - rewrite bind_load by lia. cbn [last].
    destruct l2 as [|a l2]; cbn [free_chain] in H5.
    + rewrite H5. reflexivity.
    + destruct H5 as (E & G1 & _). rewrite E.
      replace (a =? NULL) with false by (symmetry; apply Z.eqb_neq; unfold NULL; lia).
      rewrite bind_load by lia. rewrite E.
      replace (a >? ptr) with true
        by (symmetry; rewrite Z.gtb_ltb; apply Z.ltb_lt; apply Hl2; now left).
      reflexivity.
  - rewrite bind_load by lia.
    pose proof H5 as H5'. cbn [free_chain] in H5'. destruct H5' as (E & G1 & _ & G2 & G3 & _).
    unfold min_block in G2. rewrite E.
    replace (y =? NULL) with false by (symmetry; apply Z.eqb_neq; unfold NULL; lia).
    rewrite bind_load by lia. rewrite E.
    replace (y >? ptr) with false
      by (symmetry; rewrite Z.gtb_ltb; apply Z.ltb_ge;
          assert (y < ptr) by (apply Hbelow; right; now left); lia).
    rewrite bind_load by lia. rewrite E. rewrite E in H5.
    rewrite (IH y _ _ fuel H5); [|lia| |simpl in Hfuel; lia].
    + rewrite (last_cons y cur k). reflexivity.
    + intros x Hx. apply Hbelow. now right.
Qed.

End FreeWalk.

Ltac mp :=
  repeat first [ rewrite mp_fwd_hdr by lia | rewrite mp_fwd_bwd by lia
               | rewrite mp_fwd_end by lia | rewrite mp_bwd_fwd by lia
               | rewrite mp_hdr_fwd by lia | rewrite mp_hdr_bwd by lia
               | rewrite mp_hdr_end by lia ].

Ltac ms := mp; mstep; unfold set_bytes; heap_simpl.

Section FreeRun.

Variable A : abi.
Variable md : mode.

Local Abbreviation W := (sizeof_ptr A).
Local Abbreviation MOD := (word_mod A).

Lemma clear_flag h : 0 <= h < MOD -> h mod 2 = 1 -> Z.land h (wrap A (Z.lnot 1)) = h - 1.
Proof.
  intros Hh Hodd. rewrite lnot1_eq, land_clear1 by assumption.
  pose proof (Z.div_mod h 2 ltac:(lia)). lia.
Qed.

Lemma size_at_store_other m x v p :
  p - 8 + W <= x \/ x + W <= p - 8 ->
  size_at A (store_word A m x v) p = size_at A m p.
Proof. intros H. unfold size_at. now apply load_store_other. Qed.

Lemma size_at_store_same m p v :
  0 <= v < MOD -> size_at A (store_word A m (p - 8) v) p = v.
Proof. intros H. unfold size_at. now apply load_store_same. Qed.

(** Coalescing [p] with the block [a] after it. *)
Lemma free_coalesce_after_run st p a :
  0 < lo st -> brk st < MOD ->
  lo st <= p - 8 -> p + W <= a - 8 ->
  p - 8 + size_at A (bytes st) p <= brk st ->
  a - 8 + size_at A (bytes st) a <= brk st ->
  a + 2 * W <= brk st ->
  (load_word A (bytes st) a = 0
   \/ (a + W <= load_word A (bytes st) a /\ load_word A (bytes st) a + 2 * W <= brk st)) ->
  free_coalesce_after A md p a st
  = Ok tt (set_bytes st (coalesced A (bytes st) p (size_at A (bytes st) p) a
                                   (size_at A (bytes st) a) (load_word A (bytes st) a))).
Proof.
  destruct st as [slo sbrk slim m]. heap_simpl.
  intros Hlo Hmod Hp Hpa Hpend Haend Hatop Haf.
  pose proof (sizeof_ptr_cases A) as HW.
  pose proof (load_word_range A m (p - 8)) as Rp.
  pose proof (load_word_range A m (a - 8)) as Ra.
  pose proof (load_word_range A m a) as Rf.
  unfold free_coalesce_after, coalesced.
  rewrite !mp_fwd_hdr by lia. mstep. fold (size_at A m p).
  set (sp := size_at A m p) in *.
  set (sa := size_at A m a) in *.
  set (af := load_word A m a) in *.
  rewrite mp_fwd_end by (unfold sp, size_at in *; lia).
  destruct (Z.eqb_spec (a - 8) (p - 8 + sp)) as [E|E].
  - mstep. mstep. fold sp. fold sa.
    rewrite wrap_small by (unfold sp, sa, size_at in *; lia).
    mstep. mstep. rewrite load_store_other by lia. fold af.
    mstep. mstep. rewrite load_store_same by (unfold af; lia).
    unfold NULL. destruct (Z.eqb_spec af 0) as [E0|E0]; cbn [negb].
    + reflexivity.
    + mstep. rewrite load_store_same by (unfold af; lia).
      rewrite !mp_fwd_bwd by lia.
      rewrite run_store by bounds. reflexivity.
  - reflexivity.
Qed.


(** [mm_free] on a well-formed heap. *)
Lemma mm_free_run fuel st ptr l1 l2 :
  heap_ok A st ->
  free_list A st (l1 ++ l2) ->
  allocated_at A st (l1 ++ l2) ptr ->
  (forall x, In x l1 -> x < ptr) ->
  (forall x, In x l2 -> ptr < x) ->
  (length l1 < fuel)%nat ->
  mm_free A md fuel ptr st
  = Ok tt (set_bytes st (freed A (bytes st) (lo st) ptr l1 l2)).
Proof.
  destruct st as [slo sbrk slim m]. unfold free_list. heap_simpl.
  intros [Hlo Hbrk Hlim Hmod] Hfl [Hodd Hsize Hlow Htop Hapart] Hl1 Hl2 Hfuel.
  heap_simpl. unfold min_block in *.
  pose proof (sizeof_ptr_cases A) as HW.
  pose proof (load_word_range A m (ptr - 8)) as Rh.
  set (h := size_at A m ptr) in *. fold h in Rh.
  unfold mm_free. rewrite mp_fwd_hdr by lia. mstep. fold (size_at A m ptr). fold h.
  rewrite clear_flag by assumption. rewrite mp_fwd_hdr by lia. mstep.
  set (m0 := store_word A m (ptr - 8) (h - 1)).
  (* the blocks of the list are untouched *)
  assert (Hsame : forall x a, In x (l1 ++ l2) -> x - 8 <= a < x + 2 * W -> m0 a = m a).
  { intros x a Hx Ha. unfold m0. apply store_word_other.
    destruct (free_chain_in A _ _ _ _ _ _ _ Hfl Hx) as (B1 & B2 & B3).
    unfold min_block in B2. destruct (Hapart x Hx); lia. }
  assert (Hfl0 : free_chain A m0 (slo + W) 0 (load_word A m slo) sbrk (l1 ++ l2)).
  { eapply free_chain_ext; [exact Hfl|exact Hsame]. }
  assert (Hhead : load_word A m0 slo = load_word A m slo).
  { unfold m0. apply load_store_other. lia. }
  assert (Hcs : size_at A m0 ptr = h - 1).
  { unfold size_at, m0. apply load_store_same. lia. }
  mstep. mstep. rewrite Hhead. unfold set_bytes. heap_simpl.
  assert (H0 : 0 <= slo + W) by lia.
  destruct l1 as [|x1 k].
  - (* no block below [ptr] *)
    cbn [app] in *. destruct l2 as [|a l2].
    + (* the list is empty *)
      cbn [free_chain] in Hfl. rewrite Hfl. unfold NULL. cbn [Z.eqb negb].
      mstep. destruct fuel as [|fuel]; [simpl in Hfuel; lia|]. cbn [free_loop].
      mstep. rewrite Hhead, Hfl. unfold NULL. cbn [Z.eqb]. mstep.
      unfold free_append. rewrite mp_fwd_bwd by lia.
      mstep. mstep. mstep. unfold set_bytes. heap_simpl.
      rewrite run_store by bounds. reflexivity.
    + (* [ptr] becomes the head *)
      pose proof Hfl as Hfl'. cbn [free_chain] in Hfl'.
      destruct Hfl' as (E & A1 & Aev & A2 & A3 & A4 & A5). unfold min_block in A2.
      assert (Haptr : ptr < a) by (apply Hl2; now left).
      assert (Hblk : ptr - 8 + (h - 1) <= a - 8).
      { destruct (Hapart a ltac:(now left)) as [Hq|Hq]; [|exact Hq]. lia. }
      assert (Hnext : load_word A m a = 0
                      \/ (a + 2 * W <= load_word A m a /\ load_word A m a + 2 * W <= sbrk)).
      { destruct l2 as [|a2 l2]; cbn [free_chain] in A5; [now left|right].
        destruct A5 as (E2 & Y1 & _ & Y2 & Y3 & _). unfold min_block in Y2.
        rewrite E2. lia. }
      rewrite E. replace (a =? NULL) with false by (unfold NULL; eqb_false). cbn [negb].
      mstep. rewrite Hhead, E.
      replace (a >? ptr) with true by (symmetry; rewrite Z.gtb_ltb; now apply Z.ltb_lt).
      unfold free_insert_head.
      ms. rewrite Hhead, E. ms. ms. ms. ms.
      rewrite ?bind_assoc. unfold bind at 1.
      rewrite free_coalesce_after_run; heap_simpl; try lia.
      * unfold set_bytes. heap_simpl. rewrite bind_ret. unfold ret.
        unfold freed. cbv zeta. fold h. fold m0.
        f_equal. f_equal. f_equal.
        -- unfold size_at. rewrite !load_store_other by lia. exact Hcs.
        -- unfold size_at. rewrite !load_store_other by lia.
           apply load_word_ext. intros z Hz. apply (Hsame a); [now left|lia].
        -- rewrite !load_store_other by lia.
           apply load_word_ext. intros z Hz. apply (Hsame a); [now left|lia].
      * unfold size_at. rewrite !load_store_other by lia.
        fold (size_at A m0 ptr). rewrite Hcs. lia.
      * unfold size_at. rewrite !load_store_other by lia.
        rewrite (load_word_ext A m m0 (a - 8))
          by (intros z Hz; apply (Hsame a); [now left|lia]).
        exact A3.
      * rewrite !load_store_other by lia.
        rewrite (load_word_ext A m m0 a)
          by (intros z Hz; apply (Hsame a); [now left|lia]).
        lia.
  - (* some block lies below [ptr] *)
    assert (Hb : exists k' b, x1 :: k = k' ++ [b]).
    { destruct (exists_last (l := x1 :: k) ltac:(discriminate)) as (k' & b & Ek).
      now exists k', b. }
    destruct Hb as (k' & b & Ek).
    assert (Elast : last (x1 :: k) 0 = b) by (rewrite Ek; apply last_last).
    assert (Elast' : last k x1 = b) by (rewrite <- (last_cons x1 0 k); exact Elast).
    pose proof Hfl0 as Hsplit. rewrite Ek, <- app_assoc in Hsplit. cbn [app] in Hsplit.
    destruct (free_chain_split A _ _ _ _ _ _ _ _ H0 Hsplit) as (low' & G1 & G2 & G3 & G4).
    cbn [free_chain] in G4. destruct G4 as (_ & B1 & Bev & B2 & B3 & B4 & B5).
    unfold min_block in B2.
    assert (Hbin : In b ((x1 :: k) ++ l2))
      by (rewrite Ek; apply in_or_app; left; apply in_or_app; right; now left).
    assert (Hbptr : b < ptr) by (apply Hl1; rewrite Ek; apply in_or_app; right; now left).
    assert (Esb : size_at A m0 b = size_at A m b).
    { unfold size_at. apply load_word_ext. intros z Hz. apply (Hsame b); [exact Hbin|lia]. }
    assert (Hbblk : b - 8 + size_at A m0 b <= ptr - 8).
    { rewrite Esb. destruct (Hapart b Hbin) as [Hq|Hq]; [exact Hq|lia]. }
    pose proof Hfl as Hfl'. cbn [app free_chain] in Hfl'. destruct Hfl' as (E & X1 & _).
    rewrite E. replace (x1 =? NULL) with false by (unfold NULL; eqb_false). cbn [negb].
    ms. rewrite Hhead, E.
    replace (x1 >? ptr) with false
      by (symmetry; rewrite Z.gtb_ltb; apply Z.ltb_ge;
          assert (x1 < ptr) by (apply Hl1; now left); lia).
    ms. rewrite Hhead, E. ms.
    rewrite ?bind_assoc. unfold bind at 1.
    rewrite E in Hfl0. cbn [app] in Hfl0.
    rewrite (free_loop_run A md ptr (mkHeap slo sbrk slim m0) sbrk l2
               ltac:(heap_simpl; lia) ltac:(heap_simpl; lia) ltac:(heap_simpl; lia) Hl2
               k x1 (slo + W) 0 fuel Hfl0 ltac:(heap_simpl; lia) Hl1
               ltac:(simpl in Hfuel; lia)).
    rewrite Elast'.
    destruct l2 as [|a l2].
    + (* [ptr] goes to the end of the list *)
      cbn [free_chain] in B5.
      unfold free_append. ms. fold (size_at A m0 b).
      unfold freed. cbv zeta. fold h. fold m0. rewrite Elast, <- Esb.
      mp. destruct (Z.eqb_spec (ptr - 8) (b - 8 + size_at A m0 b)) as [Em|Em].
      * ms. fold (size_at A m0 b). ms. fold (size_at A m0 ptr). rewrite Hcs.
        rewrite wrap_small by (pose proof (load_word_range A m0 (b - 8));
                               unfold size_at in *; lia).
        ms. ms. ms. rewrite run_store by bounds. unfold set_bytes. heap_simpl.
        reflexivity.
      * ms. ms. ms. rewrite run_store by bounds. unfold set_bytes. heap_simpl.
        reflexivity.
    + (* [ptr] goes between [b] and [a] *)
      pose proof B5 as B5'. cbn [free_chain] in B5'.
      destruct B5' as (Eba & A1 & Aev & A2 & A3 & A4 & A5). unfold min_block in A2.
      assert (Hain : In a ((x1 :: k) ++ a :: l2)) by (apply in_or_app; right; now left).
      assert (Haptr : ptr < a) by (apply Hl2; now left).
      assert (Esa : size_at A m0 a = size_at A m a).
      { unfold size_at. apply load_word_ext. intros z Hz. apply (Hsame a); [exact Hain|lia]. }
      assert (Efa : load_word A m0 a = load_word A m a).
      { apply load_word_ext. intros z Hz. apply (Hsame a); [exact Hain|lia]. }
      assert (Hblk : ptr - 8 + (h - 1) <= a - 8).
      { destruct (Hapart a Hain) as [Hq|Hq]; [|exact Hq]. rewrite <- Esa in Hq. lia. }
      assert (Hnext : load_word A m0 a = 0
                      \/ (a + 2 * W <= load_word A m0 a /\ load_word A m0 a + 2 * W <= sbrk)).
      { destruct l2 as [|a2 l2]; cbn [free_chain] in A5; [now left|right].
        destruct A5 as (E2 & Y1 & _ & Y2 & Y3 & _). unfold min_block in Y2.
        rewrite E2. lia. }
      pose proof (load_word_range A m0 (b - 8)) as Rb. fold (size_at A m0 b) in Rb.
      set (m1 := store_word A (store_word A (store_word A (store_word A m0 b ptr)
                                                         (a + W) (ptr + W)) ptr a)
                            (ptr + W) (b + W)).
      assert (S1b : size_at A m1 b = size_at A m0 b).
      { unfold size_at, m1. now rewrite !load_store_other by lia. }
      assert (S1p : size_at A m1 ptr = h - 1).
      { unfold size_at, m1. rewrite !load_store_other by lia. exact Hcs. }
      assert (S1a : size_at A m1 a = size_at A m0 a).
      { unfold size_at, m1. now rewrite !load_store_other by lia. }
      assert (F1a : load_word A m1 a = load_word A m0 a).
      { unfold m1. now rewrite !load_store_other by lia. }
      assert (Hrun : free_insert_between A md ptr b (mkHeap slo sbrk slim m0)
                     = Ok tt (mkHeap slo sbrk slim (freed A m slo ptr (x1 :: k) (a :: l2)))).
      { unfold free_insert_between. ms. rewrite Eba. ms. ms. ms. ms. fold m1.
        ms. fold (size_at A m1 b). rewrite S1b.
        unfold freed. cbv zeta. fold h. fold m0. rewrite Elast, <- Esb, <- Esa, <- Efa.
        fold m1. mp.
        destruct (Z.eqb_spec (ptr - 8) (b - 8 + size_at A m0 b)) as [Em|Em].
        - ms. fold (size_at A m1 b). rewrite S1b. ms. fold (size_at A m1 ptr). rewrite S1p.
          rewrite wrap_small by lia. ms. ms. ms. ms.
          set (m2 := store_word A (store_word A (store_word A m1 (b - 8)
                                                            (size_at A m0 b + (h - 1))) b a)
                                (a + W) (b + W)).
          assert (S2b : size_at A m2 b = size_at A m0 b + (h - 1)).
          { unfold m2. rewrite !size_at_store_other by lia.
            apply size_at_store_same. lia. }
          assert (S2a : size_at A m2 a = size_at A m0 a).
          { unfold m2. rewrite !size_at_store_other by lia. exact S1a. }
          assert (F2a : load_word A m2 a = load_word A m0 a).
          { unfold m2. rewrite !load_store_other by lia. exact F1a. }
          rewrite free_coalesce_after_run; heap_simpl; try lia.
          unfold set_bytes. heap_simpl. rewrite S2b, S2a, F2a. reflexivity.
        - ms.
          rewrite free_coalesce_after_run; heap_simpl; try lia.
          unfold set_bytes. heap_simpl. rewrite S1p, S1a, F1a. reflexivity. }
      rewrite ?bind_assoc. unfold bind at 1. rewrite Hrun. reflexivity.
Qed.

End FreeRun.

Section Frames.

Variable A : abi.

Local Abbreviation W := (sizeof_ptr A).
Local Abbreviation MOD := (word_mod A).

Lemma only_writes_refl S m : only_writes S m m.
Proof. intros a _. reflexivity. Qed.

Lemma only_writes_trans S m1 m2 m3 :
  only_writes S m1 m2 -> only_writes S m2 m3 -> only_writes S m1 m3.
Proof. intros H1 H2 a Ha. now rewrite (H2 a Ha), (H1 a Ha). Qed.

Lemma only_writes_store (S : Z -> Prop) m x v :
  (forall a, x <= a < x + W -> S a) -> only_writes S m (store_word A m x v).
Proof.
  intros H a Ha. apply store_word_other.
  destruct (Z.lt_ge_cases a x); [now left|].
  destruct (Z.lt_ge_cases a (x + W)); [|now right].
  exfalso. apply Ha, H. lia.
Qed.

Lemma only_writes_weaken (S T : Z -> Prop) m m' :
  (forall a, S a -> T a) -> only_writes S m m' -> only_writes T m m'.
Proof. intros H H1 a Ha. apply H1. intros Hs. now apply Ha, H. Qed.

(** A store after writes in [S]. *)
Lemma only_writes_then_store (S : Z -> Prop) m m' x v :
  only_writes S m m' -> (forall a, x <= a < x + W -> S a) ->
  only_writes S m (store_word A m' x v).
Proof.
  intros H1 H2. eapply only_writes_trans; [exact H1|]. now apply only_writes_store.
Qed.

Lemma only_writes_coalesced (S : Z -> Prop) m m' p sp a sa af :
  only_writes S m m' ->
  (forall z, p - 8 <= z < p + W -> S z) ->
  (af <> 0 -> forall z, af + W <= z < af + 2 * W -> S z) ->
  only_writes S m (coalesced A m' p sp a sa af).
Proof.
  intros H1 Hp Haf. pose proof (sizeof_ptr_cases A) as HW. unfold coalesced.
  destruct (a - 8 =? p - 8 + sp); [|exact H1].
  cbv zeta. destruct (Z.eqb_spec af 0) as [E|E].
  - apply only_writes_then_store; [apply only_writes_then_store; [exact H1|]|];
      intros z Hz; apply Hp; lia.
  - apply only_writes_then_store;
      [apply only_writes_then_store; [apply only_writes_then_store; [exact H1|]|]|];
      intros z Hz; try (apply Hp; lia). apply (Haf E). lia.
Qed.

(** [mm_free] writes nothing but the list head, the header and the links of
    the freed block, and the headers and links of the free blocks. *)
Lemma freed_frame st ptr l1 l2 :
  heap_ok A st ->
  free_list A st (l1 ++ l2) ->
  only_writes (touched A (lo st) ptr (l1 ++ l2)) (bytes st)
              (freed A (bytes st) (lo st) ptr l1 l2).
Proof.
  destruct st as [slo sbrk slim m]. unfold free_list. heap_simpl.
  intros [Hlo Hbrk Hlim Hmod] Hfl. heap_simpl.
  pose proof (sizeof_ptr_cases A) as HW.
  assert (H0 : 0 <= slo + W) by lia.
  set (l := l1 ++ l2) in *.
  assert (Thead : forall z, slo <= z < slo + W -> touched A slo ptr l z)
    by (intros z Hz; left; exact Hz).
  assert (Tptr : forall z, ptr - 8 <= z < ptr + 2 * W -> touched A slo ptr l z)
    by (intros z Hz; right; left; exact Hz).
  assert (Tnode : forall x z, In x l -> x - 8 <= z < x + 2 * W -> touched A slo ptr l z)
    by (intros x z Hx Hz; right; right; exists x; now split).
  (* the first block above [ptr] and its successor *)
  assert (Hafter : forall a l2', l2 = a :: l2' ->
            In a l /\ (load_word A m a <> 0 -> In (load_word A m a) l)).
  { intros a l2' ->. split; [apply in_or_app; right; now left|].
    unfold l in *. clear l.
    pose proof (free_chain_split A _ _ _ _ _ _ _ _ H0 Hfl) as HH.
    destruct HH as (low' & G1 & G2 & G3 & G4).
    cbn [free_chain] in G4. destruct G4 as (G4a & G4b & G4c & G4d & G4e & G4f & G5).
    destruct l2' as [|a2 l2']; cbn [free_chain] in G5.
    - intros Hne. contradiction.
    - destruct G5 as (-> & _). intros _. apply in_or_app. right. right. now left. }
  assert (Hbefore : l1 <> [] -> In (last l1 0) l).
  { intros Hne. apply in_or_app. left. now apply last_in. }
  assert (Hm0 : only_writes (touched A slo ptr l) m
                            (store_word A m (ptr - 8) (size_at A m ptr - 1))).
  { apply only_writes_store. intros z Hz. apply Tptr. lia. }
  unfold freed. cbv zeta.
  destruct l1 as [|x1 k]; destruct l2 as [|a l2'].
  - repeat apply only_writes_then_store; try apply only_writes_refl;
      intros z Hz; first [apply Thead; lia | apply Tptr; lia].
  - destruct (Hafter a l2' eq_refl) as [Ha Haf].
    apply only_writes_coalesced.
    + repeat apply only_writes_then_store; try apply only_writes_refl;
        intros z Hz; first [apply Thead; lia | apply Tptr; lia | apply (Tnode a); [exact Ha|lia]].
    + intros z Hz. apply Tptr. lia.
    + intros Hne z Hz. apply (Tnode (load_word A m a)); [now apply Haf|lia].
  - specialize (Hbefore ltac:(discriminate)).
    set (b := last (x1 :: k) 0) in *.
    destruct (ptr - 8 =? b - 8 + size_at A m b);
      repeat apply only_writes_then_store; try apply only_writes_refl;
      intros z Hz; first [apply Tptr; lia | apply (Tnode b); [exact Hbefore|lia]].
  - specialize (Hbefore ltac:(discriminate)).
    set (b := last (x1 :: k) 0) in *.
    destruct (Hafter a l2' eq_refl) as [Ha Haf].
    destruct (ptr - 8 =? b - 8 + size_at A m b); apply only_writes_coalesced;
      try (repeat apply only_writes_then_store; try apply only_writes_refl;
           intros z Hz;
           first [apply Tptr; lia | apply (Tnode b); [exact Hbefore|lia]
                 | apply (Tnode a); [exact Ha|lia]]).
    + intros Hne z Hz. apply (Tnode (load_word A m a)); [now apply Haf|lia].
    + intros Hne z Hz. apply (Tnode (load_word A m a)); [now apply Haf|lia].
Qed.

End Frames.

Section FreedBlock.

Variable A : abi.

Local Abbreviation W := (sizeof_ptr A).
Local Abbreviation MOD := (word_mod A).

Lemma coalesced_below m p sp a sa af z :
  z < p - 8 -> af = 0 \/ p <= af ->
  coalesced A m p sp a sa af z = m z.
Proof.
  intros Hz Haf. pose proof (sizeof_ptr_cases A) as HW. unfold coalesced.
  destruct (a - 8 =? p - 8 + sp); [|reflexivity]. cbv zeta.
  destruct (Z.eqb_spec af 0); rewrite !store_word_other by lia; reflexivity.
Qed.

Lemma coalesced_size m p sp a sa af :
  0 <= sp + sa < MOD -> af = 0 \/ p <= af -> size_at A m p = sp ->
  size_at A (coalesced A m p sp a sa af) p
  = if a - 8 =? p - 8 + sp then sp + sa else sp.
Proof.
  intros Hs Haf Hsp. pose proof (sizeof_ptr_cases A) as HW. unfold coalesced.
  destruct (a - 8 =? p - 8 + sp); [|exact Hsp]. cbv zeta.
  destruct (Z.eqb_spec af 0).
  - rewrite size_at_store_other by lia. now apply size_at_store_same.
  - rewrite !size_at_store_other by lia. now apply size_at_store_same.
Qed.

Lemma load_below m m' z bound :
  (forall y, y < bound -> m' y = m y) -> z + W <= bound ->
  load_word A m' z = load_word A m z.
Proof. intros H Hz. apply load_word_ext. intros y Hy. apply H. lia. Qed.

Lemma even_add x y : x mod 2 = 0 -> y mod 2 = 0 -> (x + y) mod 2 = 0.
Proof. intros Hx Hy. rewrite Z.add_mod, Hx, Hy by lia. reflexivity. Qed.

Lemma odd_pred h : h mod 2 = 1 -> (h - 1) mod 2 = 0.
Proof.
  intros Hh. pose proof (Z.div_mod h 2 ltac:(lia)) as E.
  replace (h - 1) with (h / 2 * 2) by lia. apply Z.mod_mul. lia.
Qed.

Lemma freed_post st ptr l1 l2 :
  heap_ok A st ->
  free_list A st (l1 ++ l2) ->
  allocated_at A st (l1 ++ l2) ptr ->
  (forall x, In x l1 -> x < ptr) ->
  (forall x, In x l2 -> ptr < x) ->
  freed_block A (bytes st) (freed A (bytes st) (lo st) ptr l1 l2) (lo st) ptr (l1 ++ l2).
Proof.
  destruct st as [slo sbrk slim m]. unfold free_list. heap_simpl.
  intros [Hlo Hbrk Hlim Hmod] Hfl [Hodd Hsize Hlow Htop Hapart] Hl1 Hl2.
  heap_simpl. unfold min_block in *.
  pose proof (sizeof_ptr_cases A) as HW.
  pose proof (load_word_range A m (ptr - 8)) as Rh.
  pose proof (odd_pred _ Hodd) as Hcs_even.
  unfold freed_block.
  set (h := size_at A m ptr) in *. fold h in Rh.
  assert (H0 : 0 <= slo + W) by lia.
  unfold freed. cbv zeta. fold h.
  set (m0 := store_word A m (ptr - 8) (h - 1)).
  assert (Hnodes : forall x, In x (l1 ++ l2) ->
            slo + W + 8 <= x /\ 8 + 2 * W <= size_at A m x /\ x - 8 + size_at A m x <= sbrk).
  { intros x Hx. destruct (free_chain_in A _ _ _ _ _ _ _ Hfl Hx) as (B1 & B2 & B3).
    unfold min_block in B2. lia. }
  assert (Habove : forall y, In y l2 -> y - 8 + size_at A m y = ptr - 8 -> False).
  { intros y Hy E. specialize (Hl2 y Hy).
    destruct (Hnodes y ltac:(apply in_or_app; now right)). lia. }
  assert (Hbelow : forall y, In y l1 -> y - 8 = ptr - 8 + (h - 1) -> False).
  { intros y Hy E. specialize (Hl1 y Hy). lia. }
  destruct l1 as [|x1 k].
  - cbn [app] in *. destruct l2 as [|a l2].
    + (* the list was empty *)
      exists [], ptr. cbn [reaches].
      rewrite !load_store_other by lia. rewrite load_store_same by lia.
      rewrite !size_at_store_other by lia. unfold m0.
      rewrite size_at_store_same by lia.
      repeat split; try lia; try assumption; intros y [].
    + (* [ptr] is the new head *)
      pose proof Hfl as Hfl'. cbn [free_chain] in Hfl'.
      destruct Hfl' as (E & A1 & Aev & A2 & A3 & A4 & A5). unfold min_block in A2.
      assert (Haptr : ptr < a) by (apply Hl2; now left).
      assert (Hblk : ptr - 8 + (h - 1) <= a - 8).
      { destruct (Hapart a ltac:(now left)) as [Hq|Hq]; [|exact Hq]. lia. }
      assert (Hnext : load_word A m a = 0 \/ ptr <= load_word A m a).
      { destruct l2 as [|a2 l2]; cbn [free_chain] in A5; [now left|right].
        destruct A5 as (E2 & Y1 & _). rewrite E2. lia. }
      assert (Hrest : forall y, In y l2 -> a - 8 + size_at A m a + 8 <= y).
      { intros y Hy. destruct (free_chain_in A _ _ _ _ _ _ _ A5 Hy) as (B1 & _). lia. }
      set (M := store_word A (store_word A (store_word A (store_word A m0 slo ptr)
                                                        (a + W) (ptr + W)) ptr a)
                           (ptr + W) 0).
      assert (SM : size_at A M ptr = h - 1).
      { unfold M. rewrite !size_at_store_other by lia. unfold m0.
        apply size_at_store_same. lia. }
      exists [], ptr. cbn [reaches].
      rewrite coalesced_size by first [exact SM | lia].
      split.
      { rewrite (load_below M _ slo (ptr - 8)) by
            first [lia | intros y Hy; apply coalesced_below; [lia|exact Hnext]].
        unfold M. rewrite !load_store_other by lia. apply load_store_same. lia. }
      split; [lia|].
      destruct (Z.eqb_spec (a - 8) (ptr - 8 + (h - 1))) as [Eadj|Eadj].
      * split; [now apply even_add|]. split; [lia|]. split; [lia|]. split.
        -- intros y Hy Ey. exfalso. now apply (Habove y).
        -- intros y [<-|Hy] Ey; [lia|]. specialize (Hrest y Hy). lia.
      * split; [assumption|]. split; [lia|]. split; [lia|]. split.
        -- intros y Hy Ey. exfalso. now apply (Habove y).
        -- intros y [<-|Hy] Ey; [lia|]. specialize (Hrest y Hy). lia.
  - (* some block lies below [ptr] *)
    assert (Hb : exists k' b, x1 :: k = k' ++ [b]).
    { destruct (exists_last (l := x1 :: k) ltac:(discriminate)) as (k' & b & Ek).
      now exists k', b. }
    destruct Hb as (k' & b & Ek).
    assert (Elast : last (x1 :: k) 0 = b) by (rewrite Ek; apply last_last).
    rewrite Elast. rewrite Ek in *. clear Ek Elast x1 k.
    pose proof Hfl as Hsplit. rewrite <- app_assoc in Hsplit. cbn [app] in Hsplit.
    destruct (free_chain_split A _ _ _ _ _ _ _ _ H0 Hsplit) as (low' & G1 & G2 & G3 & G4).
    cbn [free_chain] in G4. destruct G4 as (_ & B1 & Bev & B2 & B3 & B4 & B5).
    unfold min_block in B2.
    assert (Hbin : In b ((k' ++ [b]) ++ l2))
      by (apply in_or_app; left; apply in_or_app; right; now left).
    assert (Hbptr : b < ptr) by (apply Hl1; apply in_or_app; right; now left).
    assert (Hbblk : b - 8 + size_at A m b <= ptr - 8).
    { destruct (Hapart b Hbin) as [Hq|Hq]; [exact Hq|lia]. }
    assert (Hk' : forall y, In y k' -> y + 2 * W <= b - 8 /\ y - 8 + size_at A m y <= b - 8
                                       /\ y <> 0).
    { intros y Hy. destruct (G3 y Hy) as (Y1 & Y2 & Y3). unfold min_block in Y2. lia. }
    assert (Hprefix : forall m', (forall z, z < b - 8 -> m' z = m z) ->
                                 reaches A m' (load_word A m' slo) k' b).
    { intros m' Hm'. rewrite (load_below m m' slo (b - 8)) by first [exact Hm' | lia].
      eapply reaches_ext; [exact G2|]. intros y z Hy Hz.
      destruct (Hk' y Hy) as (Y1 & _). apply Hm'. lia. }
    assert (Hbefore : forall y, In y ((k' ++ [b]) ++ l2) ->
                                y - 8 + size_at A m y = ptr - 8 -> b = y).
    { intros y Hy Ey. apply in_app_or in Hy. destruct Hy as [Hy|Hy].
      - apply in_app_or in Hy. destruct Hy as [Hy|[<-|[]]]; [|reflexivity].
        destruct (Hk' y Hy) as (_ & Y2 & _). lia.
      - exfalso. now apply (Habove y). }
    destruct l2 as [|a l2].
    + (* [ptr] is the last block *)
      destruct (Z.eqb_spec (ptr - 8) (b - 8 + size_at A m b)) as [Em|Em].
      * exists k', b. split.
        { apply Hprefix. intros z Hz. rewrite !store_word_other by lia.
          unfold m0. apply store_word_other. lia. }
        rewrite !size_at_store_other by lia.
        rewrite size_at_store_same by lia.
        split; [lia|]. split; [now apply even_add|]. split; [lia|]. split; [lia|].
        split; [exact Hbefore|].
        intros y Hy Ey. exfalso. rewrite app_nil_r in Hy. now apply (Hbelow y).
      * exists (k' ++ [b]), ptr. split.
        { apply reaches_app. exists b. split.
          - apply Hprefix. intros z Hz. rewrite !store_word_other by lia.
            unfold m0. apply store_word_other. lia.
          - cbn [reaches]. split; [reflexivity|]. split; [lia|].
            rewrite !load_store_other by lia. apply load_store_same. lia. }
        rewrite !size_at_store_other by lia. unfold m0.
        rewrite size_at_store_same by lia.
        split; [lia|]. split; [assumption|]. split; [lia|]. split; [lia|]. split.
        -- intros y Hy Ey. specialize (Hbefore y Hy Ey). subst y. lia.
        -- intros y Hy Ey. exfalso. rewrite app_nil_r in Hy. now apply (Hbelow y).
    + (* [ptr] lies between [b] and [a] *)
      pose proof B5 as B5'. cbn [free_chain] in B5'.
      destruct B5' as (Eba & A1 & Aev & A2 & A3 & A4 & A5). unfold min_block in A2.
      assert (Hain : In a ((k' ++ [b]) ++ a :: l2)) by (apply in_or_app; right; now left).
      assert (Haptr : ptr < a) by (apply Hl2; now left).
      assert (Hblk : ptr - 8 + (h - 1) <= a - 8).
      { destruct (Hapart a Hain) as [Hq|Hq]; [|exact Hq]. lia. }
      assert (Hnext : load_word A m a = 0 \/ ptr <= load_word A m a).
      { destruct l2 as [|a2 l2]; cbn [free_chain] in A5; [now left|right].
        destruct A5 as (E2 & Y1 & _). rewrite E2. lia. }
      assert (Hrest : forall y, In y l2 -> a - 8 + size_at A m a + 8 <= y).
      { intros y Hy. destruct (free_chain_in A _ _ _ _ _ _ _ A5 Hy) as (Y1 & _). lia. }
      assert (Hafter : forall size',
                (a - 8 = ptr - 8 + (h - 1) -> a - 8 + size_at A m a <= size') ->
                forall y, In y ((k' ++ [b]) ++ a :: l2) ->
                          y - 8 = ptr - 8 + (h - 1) -> y - 8 + size_at A m y <= size').
      { intros size' Hs y Hy Ey. apply in_app_or in Hy. destruct Hy as [Hy|[<-|Hy]].
        - exfalso. now apply (Hbelow y).
        - now apply Hs.
        - specialize (Hrest y Hy). lia. }
      set (m1 := store_word A (store_word A (store_word A (store_word A m0 b ptr)
                                                         (a + W) (ptr + W)) ptr a)
                            (ptr + W) (b + W)).
      assert (Hm1 : forall z, z < b - 8 -> m1 z = m z).
      { intros z Hz. unfold m1. rewrite !store_word_other by lia.
        unfold m0. apply store_word_other. lia. }
      destruct (Z.eqb_spec (ptr - 8) (b - 8 + size_at A m b)) as [Em|Em].
      * set (M := store_word A (store_word A (store_word A m1 (b - 8)
                                                        (size_at A m b + (h - 1))) b a)
                             (a + W) (b + W)).
        assert (SM : size_at A M b = size_at A m b + (h - 1)).
        { unfold M. rewrite !size_at_store_other by lia. apply size_at_store_same. lia. }
        exists k', b. split.
        { apply Hprefix. intros z Hz.
          rewrite coalesced_below by lia. unfold M.
          rewrite !store_word_other by lia. now apply Hm1. }
        rewrite coalesced_size by first [exact SM | lia].
        split; [lia|].
        destruct (Z.eqb_spec (a - 8) (b - 8 + (size_at A m b + (h - 1)))) as [Eadj|Eadj].
        -- split; [apply even_add; [now apply even_add|assumption]|].
           split; [lia|]. split; [lia|]. split; [exact Hbefore|].
           apply Hafter. lia.
        -- split; [now apply even_add|].
           split; [lia|]. split; [lia|]. split; [exact Hbefore|].
           apply Hafter. lia.
      * assert (SM : size_at A m1 ptr = h - 1).
        { unfold m1. rewrite !size_at_store_other by lia. unfold m0.
          apply size_at_store_same. lia. }
        exists (k' ++ [b]), ptr. split.
        { apply reaches_app. exists b. split.
          - apply Hprefix. intros z Hz. rewrite coalesced_below by lia. now apply Hm1.
          - cbn [reaches]. split; [reflexivity|]. split; [lia|].
            rewrite (load_below m1 _ b (ptr - 8))
              by first [lia | intros y Hy; apply coalesced_below; lia].
            unfold m1. rewrite !load_store_other by lia. apply load_store_same. lia. }
        rewrite coalesced_size by first [exact SM | lia].
        split; [lia|].
        destruct (Z.eqb_spec (a - 8) (ptr - 8 + (h - 1))) as [Eadj|Eadj].
        -- split; [now apply even_add|].
           split; [lia|]. split; [lia|]. split.
           ++ intros y Hy Ey. specialize (Hbefore y Hy Ey). subst y. lia.
           ++ apply Hafter. lia.
        -- split; [assumption|].
           split; [lia|]. split; [lia|]. split.
           ++ intros y Hy Ey. specialize (Hbefore y Hy Ey). subst y. lia.
           ++ apply Hafter. lia.
Qed.

End FreedBlock.

Section ReallocZero.

Variable A : abi.
Variable md : mode.

Local Abbreviation W := (sizeof_ptr A).
Local Abbreviation MOD := (word_mod A).

(** An allocated block lies on one side of every free block. *)
Lemma allocated_partition st l ptr :
  heap_ok A st -> free_list A st l -> allocated_at A st l ptr ->
  exists l1 l2, l = l1 ++ l2 /\ (forall x, In x l1 -> x < ptr)
                /\ (forall x, In x l2 -> ptr < x).
Proof.
  intros [Hlo Hbrk Hlim Hmod] Hfl [Hodd Hsize Hlow Htop Hapart].
  pose proof (sizeof_ptr_cases A) as HW. unfold min_block in *.
  apply (free_chain_partition A (bytes st) ptr (brk st) l _ _ _ Hfl); [lia|].
  intros x Hx. destruct (free_chain_in A _ _ _ _ _ _ _ Hfl Hx) as (B1 & B2 & B3).
  unfold min_block in B2. destruct (Hapart x Hx); [left|right]; lia.
Qed.

(** [mm_free] on a well-formed heap, for any allocated block. *)
Lemma mm_free_ok fuel st l ptr :
  heap_ok A st -> free_list A st l -> allocated_at A st l ptr ->
  (length l < fuel)%nat ->
  exists st',
    mm_free A md fuel ptr st = Ok tt st' /\
    lo st' = lo st /\ brk st' = brk st /\ limit st' = limit st /\
    freed_block A (bytes st) (bytes st') (lo st) ptr l /\
    only_writes (touched A (lo st) ptr l) (bytes st) (bytes st').
Proof.
  intros Hok Hfl Halloc Hfuel.
  destruct (allocated_partition st l ptr Hok Hfl Halloc) as (l1 & l2 & -> & H1 & H2).
  exists (set_bytes st (freed A (bytes st) (lo st) ptr l1 l2)).
  split.
  - apply mm_free_run; try assumption. rewrite length_app in Hfuel. lia.
  - cbn [lo brk limit bytes set_bytes]. repeat split.
    + now apply freed_post.
    + now apply freed_frame.
Qed.

(** C8 — [mm_realloc ptr 0] on an allocated block: the call is [mm_free ptr]
    and returns [ptr], which is not [NULL]; afterwards the block is (part
    of) a free block reached from the list head, flagged free, merged with
    the free block that ended where it started and with the free block that
    started where it ended. *)
Theorem realloc_zero_frees fuel st l ptr :
  heap_ok A st ->
  free_list A st l ->
  allocated_at A st l ptr ->
  (length l < fuel)%nat ->
  ptr <> 0 /\
  exists st',
    mm_realloc A md fuel ptr 0 st = Ok ptr st' /\
    mm_free A md fuel ptr st = Ok tt st' /\
    lo st' = lo st /\ brk st' = brk st /\
    freed_block A (bytes st) (bytes st') (lo st) ptr l.
Proof.
  intros Hok Hfl Halloc Hfuel.
  assert (Hptr : ptr <> 0).
  { destruct Hok as [Hlo _ _ _]. destruct Halloc as [_ _ Hlow _ _].
    pose proof (sizeof_ptr_cases A). lia. }
  split; [exact Hptr|].
  destruct (mm_free_ok fuel st l ptr Hok Hfl Halloc Hfuel)
    as (st' & Hrun & E1 & E2 & _ & Hpost & _).
  exists st'. unfold mm_realloc.
  replace (ptr =? NULL) with false by (symmetry; now apply Z.eqb_neq).
  cbn [Z.eqb]. unfold bind. rewrite Hrun. repeat split; assumption.
Qed.

End ReallocZero.

(** ** [mm_malloc] keeps the free list well formed *)

Section ChainUpdates.

Variable A : abi.

Local Abbreviation W := (sizeof_ptr A).
Local Abbreviation MOD := (word_mod A).

(** A block of the list leaves it: the forward link before it and the
    backward link after it are redirected. *)
Lemma free_chain_unlink m top bp l2 target back :
  0 <= back < MOD -> top < MOD ->
  forall l1 low prev p,
    free_chain A m low prev p top (l1 ++ bp :: l2) ->
    0 <= low ->
    (l1 = [] -> target + W <= low /\ back = (if prev =? 0 then 0 else prev + W)) ->
    (l1 <> [] -> target = last l1 0 /\ back = last l1 0 + W) ->
    free_chain A (match l2 with
                  | [] => store_word A m target (hd 0 l2)
                  | y :: _ => store_word A (store_word A m target (hd 0 l2)) (y + W) back
                  end)
               low prev (match l1 with [] => hd 0 l2 | _ => p end) top (l1 ++ l2).
Proof.
  intros Hback Htop. pose proof (sizeof_ptr_cases A) as HW.
  set (m' := match l2 with
             | [] => store_word A m target (hd 0 l2)
             | y :: _ => store_word A (store_word A m target (hd 0 l2)) (y + W) back
             end).
  induction l1 as [|x l1 IH]; intros low prev p Hc Hlow Hnil Hcons.
  - destruct (Hnil eq_refl) as [Ht Hb]. clear Hnil Hcons.
    cbn [app free_chain] in Hc. destruct Hc as (_ & H1 & Hev & H2 & H3 & H4 & H5).
    unfold min_block in H2. cbn [app].
    destruct l2 as [|y l2]; [reflexivity|].
    cbn [hd]. cbn [free_chain] in H5.
    destruct H5 as (Ey & Y1 & Yev & Y2 & Y3 & Y4 & Y5). unfold min_block in Y2.
    assert (Es : size_at A m' y = size_at A m y).
    { unfold m'. now rewrite !size_at_store_other by lia. }
    cbn [free_chain]. rewrite Es. unfold min_block.
    repeat split; try assumption; try lia.
    + unfold m'. rewrite load_store_same by lia. exact Hb.
    + replace (load_word A m' y) with (load_word A m y)
        by (unfold m'; now rewrite !load_store_other by lia).
      eapply free_chain_ext; [exact Y5|].
      intros z a Hz Ha. destruct (free_chain_in A _ _ _ _ _ _ _ Y5 Hz) as (Z1 & _).
      unfold m'. rewrite !store_word_other by lia. reflexivity.
  - destruct (Hcons ltac:(discriminate)) as [Ht Hb]. clear Hnil Hcons.
    cbn [app free_chain] in Hc. destruct Hc as (-> & H1 & Hev & H2 & H3 & H4 & H5).
    unfold min_block in H2.
    assert (H0 : 0 <= x - 8 + size_at A m x) by lia.
    assert (Hy : match l2 with [] => True | y :: _ => x + 2 * W <= y - 8 end).
    { destruct l2 as [|y l2]; [exact I|].
      assert (Hin : In y (l1 ++ bp :: y :: l2))
        by (apply in_or_app; right; right; now left).
      destruct (free_chain_in A _ _ _ _ _ _ _ H5 Hin) as (Z1 & _). lia. }
    assert (Htgt : target = x \/ x + 2 * W <= target - 8).
    { destruct l1 as [|x' l1]; [left; exact Ht|right].
      change (last (x :: x' :: l1) 0) with (last (x' :: l1) 0) in Ht.
      assert (Hin : In target (((x' :: l1)) ++ bp :: l2)).
      { apply in_or_app. left. rewrite Ht. apply last_in. discriminate. }
      destruct (free_chain_in A _ _ _ _ _ _ _ H5 Hin) as (Z1 & _). lia. }
    assert (Es : size_at A m' x = size_at A m x).
    { unfold m'. destruct l2 as [|y l2]; rewrite !size_at_store_other by lia; reflexivity. }
    assert (Eb : load_word A m' (x + W) = load_word A m (x + W)).
    { unfold m'. destruct l2 as [|y l2]; rewrite !load_store_other by lia; reflexivity. }
    cbn [app free_chain]. rewrite Es, Eb. unfold min_block.
    repeat split; try assumption; try lia.
    destruct l1 as [|x' l1].
    + cbn [last] in Ht, Hb. subst target.
      replace (load_word A m' x) with (hd 0 l2).
      * apply (IH (x - 8 + size_at A m x) x (load_word A m x) H5 H0).
        -- intros _. split; [lia|]. subst back.
           replace (x =? 0) with false by (symmetry; apply Z.eqb_neq; lia). reflexivity.
        -- congruence.
      * unfold m'. assert (0 <= hd 0 l2 < MOD).
        { destruct l2 as [|y l2]; cbn [hd]; [lia|].
          assert (Hin : In y ([] ++ bp :: y :: l2)) by (right; now left).
          destruct (free_chain_in A _ _ _ _ _ _ _ H5 Hin) as (Z1 & Z2 & Z3).
          unfold min_block in Z2. lia. }
        destruct l2 as [|y l2]; rewrite ?load_store_other by lia;
          rewrite load_store_same by lia; reflexivity.
    + change (last (x :: x' :: l1) 0) with (last (x' :: l1) 0) in Ht, Hb.
      destruct Htgt as [Htgt|Htgt].
      { exfalso. assert (Hin : In target (((x' :: l1)) ++ bp :: l2)).
        { apply in_or_app. left. rewrite Ht. apply last_in. discriminate. }
        destruct (free_chain_in A _ _ _ _ _ _ _ H5 Hin) as (Z1 & _). lia. }
      replace (load_word A m' x) with (load_word A m x).
      * apply (IH (x - 8 + size_at A m x) x (load_word A m x) H5 H0).
        -- discriminate.
        -- intros _. split; assumption.
      * unfold m'. destruct l2 as [|y l2]; rewrite !load_store_other by lia; reflexivity.
Qed.

(** The blocks of a list lie apart, in list order. *)
Lemma free_chain_apart m top bp l2 l1 low prev p :
  0 <= low ->
  free_chain A m low prev p top (l1 ++ bp :: l2) ->
  (forall x, In x l1 -> low + 8 <= x /\ min_block A <= size_at A m x /\
                        x - 8 + size_at A m x <= bp - 8) /\
  (forall x, In x l2 -> bp - 8 + size_at A m bp <= x - 8 /\ min_block A <= size_at A m x /\
                        x - 8 + size_at A m x <= top) /\
  low + 8 <= bp /\ min_block A <= size_at A m bp /\ bp - 8 + size_at A m bp <= top /\
  size_at A m bp mod 2 = 0.
Proof.
  intros Hlow Hc.
  destruct (free_chain_split A _ _ _ _ _ _ _ _ Hlow Hc) as (low' & G1 & G2 & G3 & G4).
  cbn [free_chain] in G4. destruct G4 as (_ & K1 & Kev & K2 & K3 & K4 & K5).
  split; [|split].
  - intros x Hx. destruct (G3 x Hx) as (? & ? & ?). lia.
  - intros x Hx. destruct (free_chain_in A _ _ _ _ _ _ _ K5 Hx) as (? & ? & ?). lia.
  - repeat split; try assumption; lia.
Qed.

(** The free list once [bp] has been taken whole. *)
Lemma free_list_unlinked st l1 bp l2 v top :
  heap_ok A st -> free_list A st (l1 ++ bp :: l2) -> brk st <= top -> top < MOD ->
  free_chain A (store_word A (unlinked A (bytes st) (lo st) l1 bp l2) (bp - 8) v)
             (lo st + W) 0
             (load_word A (store_word A (unlinked A (bytes st) (lo st) l1 bp l2) (bp - 8) v)
                        (lo st))
             top (l1 ++ l2).
Proof.
  intros [Hlo Hbrk Hlim Hmod] Hfl Htop HtopM. pose proof (sizeof_ptr_cases A) as HW.
  unfold free_list in Hfl.
  assert (H0 : 0 <= lo st + W) by lia.
  destruct (free_chain_apart _ _ _ _ _ _ _ _ H0 Hfl) as (P1 & P2 & P3 & P4 & P5 & P6).
  unfold min_block in *.
  assert (Hl : l1 <> [] -> In (last l1 0) l1) by (apply last_in).
  assert (Htb : 0 <= (match l1 with [] => 0 | _ => last l1 0 + W end) < MOD).
  { destruct l1 as [|a l1]; [lia|]. destruct (P1 _ (Hl ltac:(discriminate))) as (? & ? & ?). lia. }
  pose proof (free_chain_unlink (bytes st) top bp l2
                (match l1 with [] => lo st | _ => last l1 0 end)
                (match l1 with [] => 0 | _ => last l1 0 + W end) Htb HtopM
                l1 (lo st + W) 0 _ (free_chain_top A _ _ _ _ _ _ _ Hfl Htop) H0) as Hu.
  assert (Hu' : free_chain A (unlinked A (bytes st) (lo st) l1 bp l2) (lo st + W) 0
                  (match l1 with [] => hd 0 l2 | _ => load_word A (bytes st) (lo st) end)
                  top (l1 ++ l2)).
  { unfold unlinked. cbv zeta. apply Hu.
    - intros ->. split; [lia|reflexivity].
    - intros Hne. destruct l1; [congruence|]. split; reflexivity. }
  clear Hu.
  assert (Hy : match l2 with [] => True | y :: _ => bp + 2 * W <= y - 8 /\ y + 2 * W <= top end).
  { destruct l2 as [|y l2]; [exact I|]. destruct (P2 y ltac:(now left)) as (? & ? & ?). lia. }
  assert (Eh : load_word A (store_word A (unlinked A (bytes st) (lo st) l1 bp l2) (bp - 8) v)
                         (lo st)
               = match l1 with [] => hd 0 l2 | _ => load_word A (bytes st) (lo st) end).
  { rewrite load_store_other by lia. unfold unlinked. cbv zeta.
    destruct l1 as [|a l1].
    - assert (0 <= hd 0 l2 < MOD) by (destruct l2; cbn [hd]; lia).
      destruct l2 as [|y l2]; rewrite ?load_store_other by lia;
        rewrite load_store_same by lia; reflexivity.
    - destruct (P1 _ (Hl ltac:(discriminate))) as (? & ? & ?).
      destruct l2 as [|y l2]; rewrite !load_store_other by lia; reflexivity. }
  rewrite Eh. eapply free_chain_ext; [exact Hu'|].
  intros x a Hx Ha. apply store_word_other.
  apply in_app_or in Hx. destruct Hx as [Hx|Hx].
  - destruct (P1 x Hx) as (? & ? & ?). lia.
  - destruct (P2 x Hx) as (? & ? & ?). lia.
Qed.

(** Two blocks of a list are the same block or lie apart. *)
Lemma free_chain_pairwise m low prev p top l x y :
  0 <= low -> free_chain A m low prev p top l -> In x l -> In y l ->
  x = y \/ x - 8 + size_at A m x <= y - 8 \/ y - 8 + size_at A m y <= x - 8.
Proof.
  intros Hlow Hc Hx Hy. destruct (in_split _ _ Hx) as (k1 & k2 & ->).
  destruct (free_chain_apart _ _ _ _ _ _ _ _ Hlow Hc) as (P1 & P2 & _).
  apply in_app_or in Hy. destruct Hy as [Hy|[Hy|Hy]].
  - destruct (P1 y Hy) as (? & ? & ?). right. right. lia.
  - now left.
  - destruct (P2 y Hy) as (? & ? & ?). right. left. lia.
Qed.

(** A block of the list gets a smaller size. *)
Lemma free_chain_set_size m top bp s' l2 :
  min_block A <= s' <= size_at A m bp -> s' mod 2 = 0 -> top < MOD ->
  forall l1 low prev p,
    0 <= low ->
    free_chain A m low prev p top (l1 ++ bp :: l2) ->
    free_chain A (store_word A m (bp - 8) s') low prev p top (l1 ++ bp :: l2).
Proof.
  intros Hs Hev Htop. pose proof (sizeof_ptr_cases A) as HW. unfold min_block in Hs.
  induction l1 as [|x l1 IH]; intros low prev p Hlow Hc.
  - cbn [app free_chain] in *. destruct Hc as (-> & H1 & _ & H2 & H3 & H4 & H5).
    rewrite size_at_store_same by lia. unfold min_block.
    repeat split; try assumption; try lia.
    + rewrite load_store_other by lia. exact H4.
    + rewrite load_store_other by lia.
      apply free_chain_low with (low := bp - 8 + size_at A m bp); [|lia].
      eapply free_chain_ext; [exact H5|].
      intros z a Hz Ha. destruct (free_chain_in A _ _ _ _ _ _ _ H5 Hz) as (Z1 & _).
      apply store_word_other. lia.
  - cbn [app free_chain] in *. destruct Hc as (-> & H1 & He & H2 & H3 & H4 & H5).
    unfold min_block in H2.
    assert (Hin : In bp (l1 ++ bp :: l2)) by (apply in_or_app; right; now left).
    destruct (free_chain_in A _ _ _ _ _ _ _ H5 Hin) as (Z1 & _).
    rewrite size_at_store_other by lia. rewrite !load_store_other by lia.
    unfold min_block. repeat split; try assumption; try lia.
    apply IH; [lia|exact H5].
Qed.

End ChainUpdates.

Lemma to_int_small x : 0 <= x < 2 ^ 31 -> to_int x = x.
Proof.
  intros H. unfold to_int. rewrite Z.mod_small; lia.
Qed.

Section MallocEffect.

Variable A : abi.
Variable md : mode.

Local Abbreviation W := (sizeof_ptr A).
Local Abbreviation MOD := (word_mod A).

(** The effect of a split: the free block keeps its low part. *)
Lemma allocated_split st l bp newsize :
  heap_ok A st -> free_list A st l -> In bp l ->
  8 <= newsize -> newsize mod 2 = 0 ->
  min_block A <= size_at A (bytes st) bp - newsize ->
  allocated_block A st
    (set_bytes st
       (store_word A
          (store_word A (bytes st) (bp - 8) (size_at A (bytes st) bp - newsize))
          (bp + (size_at A (bytes st) bp - newsize) - 8) (newsize + 1)))
    l l (bp + (size_at A (bytes st) bp - newsize)) newsize.
Proof.
  intros Hok Hfl Hin Hn Hev Hsplit. pose proof Hok as [Hlo Hbrk Hlim Hmod].
  pose proof (sizeof_ptr_cases A) as HW.
  destruct (in_split _ _ Hin) as (l1 & l2 & ->).
  unfold free_list in Hfl.
  assert (H0 : 0 <= lo st + W) by lia.
  destruct (free_chain_apart A _ _ _ _ _ _ _ _ H0 Hfl) as (P1 & P2 & P3 & P4 & P5 & P6).
  unfold min_block in *.
  set (s := size_at A (bytes st) bp) in *.
  assert (Hs' : (s - newsize) mod 2 = 0).
  { rewrite Zminus_mod, P6, Hev. reflexivity. }
  assert (Esz : forall y, In y (l1 ++ l2) ->
              size_at A (store_word A (store_word A (bytes st) (bp - 8) (s - newsize))
                                    (bp + (s - newsize) - 8) (newsize + 1)) y
              = size_at A (bytes st) y).
  { intros y Hy. apply in_app_or in Hy.
    destruct Hy as [Hy|Hy]; [destruct (P1 y Hy) as (? & ? & ?)|destruct (P2 y Hy) as (? & ? & ?)];
      rewrite !size_at_store_other by lia; reflexivity. }
  assert (Ebp : size_at A (store_word A (store_word A (bytes st) (bp - 8) (s - newsize))
                                      (bp + (s - newsize) - 8) (newsize + 1)) bp
                = s - newsize).
  { rewrite size_at_store_other by lia. apply size_at_store_same. lia. }
  constructor; cbn [lo brk limit bytes set_bytes]; try reflexivity; try lia.
  - unfold free_list. cbn [lo brk limit bytes set_bytes].
    rewrite !load_store_other by lia.
    eapply free_chain_ext.
    + apply (free_chain_set_size A (bytes st) (brk st) bp (s - newsize) l2); try assumption;
        unfold min_block; fold s; lia.
    + intros x a Hx Ha. apply store_word_other.
      apply in_app_or in Hx. destruct Hx as [Hx|[<-|Hx]].
      * destruct (P1 x Hx) as (? & ? & ?). lia.
      * lia.
      * destruct (P2 x Hx) as (? & ? & ?). lia.
  - intros z Hz. left. exists bp. split; [assumption|]. fold s. lia.
  - intros y Hy. split; [assumption|].
    apply in_app_or in Hy. destruct Hy as [Hy|[<-|Hy]].
    + rewrite Esz by (apply in_or_app; now left). destruct (P1 y Hy) as (? & ? & ?). lia.
    + rewrite Ebp. fold s. lia.
    + rewrite Esz by (apply in_or_app; now right). destruct (P2 y Hy) as (? & ? & ?). lia.
  - apply only_writes_then_store; [apply only_writes_store|];
      intros a Ha; right; left; exists bp; (split; [assumption|]); fold s; lia.
Qed.

(** Unlinking writes link fields only. *)
Lemma unlinked_frame m head l1 bp l2 :
  only_writes (fun z => head <= z < head + W
                        \/ exists x, In x (l1 ++ l2) /\ x <= z < x + 2 * W)
              m (unlinked A m head l1 bp l2).
Proof.
  pose proof (sizeof_ptr_cases A) as HW. unfold unlinked. cbv zeta.
  assert (H1 : only_writes (fun z => head <= z < head + W
                        \/ exists x, In x (l1 ++ l2) /\ x <= z < x + 2 * W) m
                 (store_word A m match l1 with [] => head | _ :: _ => last l1 0 end (hd 0 l2))).
  { apply only_writes_store. intros a Ha. destruct l1 as [|x l1]; [now left|right].
    exists (last (x :: l1) 0). split; [|lia].
    apply in_or_app. left. apply last_in. discriminate. }
  destruct l2 as [|y l2]; [exact H1|].
  apply only_writes_then_store; [exact H1|].
  intros a Ha. right. exists y. split; [|lia]. apply in_or_app. right. now left.
Qed.

(** The effect of taking the block [bp] of the list whole, as a block of
    [bsz] bytes; beyond the old block lie only bytes past the end of the
    heap. *)
Lemma allocated_unlinked st l1 bp l2 v brk' bsz :
  heap_ok A st -> free_list A st (l1 ++ bp :: l2) ->
  brk st <= brk' <= limit st ->
  (forall z, bp - 8 + size_at A (bytes st) bp <= z < bp - 8 + bsz -> brk st <= z) ->
  (l2 <> [] -> bsz <= size_at A (bytes st) bp) ->
  allocated_block A st
    (mkHeap (lo st) brk' (limit st)
            (store_word A (unlinked A (bytes st) (lo st) l1 bp l2) (bp - 8) v))
    (l1 ++ bp :: l2) (l1 ++ l2) bp bsz.
Proof.
  intros Hok Hfl Hbrk' Hpast Hbsz. pose proof Hok as [Hlo Hbrk Hlim Hmod].
  pose proof (sizeof_ptr_cases A) as HW.
  pose proof (free_list_unlinked A st l1 bp l2 v brk' Hok Hfl ltac:(lia) ltac:(lia)) as Hl.
  unfold free_list in Hfl.
  assert (H0 : 0 <= lo st + W) by lia.
  destruct (free_chain_apart A _ _ _ _ _ _ _ _ H0 Hfl) as (P1 & P2 & P3 & P4 & P5 & P6).
  unfold min_block in *.
  pose proof (unlinked_frame (bytes st) (lo st) l1 bp l2) as Hfr.
  assert (Hnode : forall y, In y (l1 ++ l2) ->
            lo st + W + 8 <= y /\ 8 + 2 * W <= size_at A (bytes st) y /\
            (y - 8 + size_at A (bytes st) y <= bp - 8 \/
             bp - 8 + size_at A (bytes st) bp <= y - 8)).
  { intros y Hy. apply in_app_or in Hy.
    destruct Hy as [Hy|Hy]; [destruct (P1 y Hy) as (? & ? & ?)|destruct (P2 y Hy) as (? & ? & ?)];
      lia. }
  assert (Esz : forall y, In y (l1 ++ l2) ->
              size_at A (store_word A (unlinked A (bytes st) (lo st) l1 bp l2) (bp - 8) v) y
              = size_at A (bytes st) y).
  { intros y Hy. destruct (Hnode y Hy) as (N1 & N2 & N3).
    rewrite size_at_store_other by lia. unfold size_at. apply load_word_ext.
    intros a Ha. apply Hfr. intros [Hh|(x & Hx & Hxa)]; [lia|].
    destruct (Hnode x Hx) as (X1 & X2 & X3).
    assert (Hy' : In y (l1 ++ bp :: l2))
      by (apply in_app_or in Hy; apply in_or_app; destruct Hy; [now left|right; now right]).
    assert (Hx' : In x (l1 ++ bp :: l2))
      by (apply in_app_or in Hx; apply in_or_app; destruct Hx; [now left|right; now right]).
    destruct (free_chain_pairwise A _ _ _ _ _ _ _ _ H0 Hfl Hx' Hy') as [->|[?|?]]; lia. }
  constructor; cbn [lo brk limit bytes]; try reflexivity; try lia.
  - exact Hl.
  - rewrite !length_app. cbn [length]. lia.
  - intros z Hz.
    destruct (Z.lt_ge_cases z (bp - 8 + size_at A (bytes st) bp)).
    + left. exists bp. split; [apply in_or_app; right; now left|lia].
    + right. apply Hpast. lia.
  - intros y Hy. rewrite (Esz y Hy). split; [|split; [lia|]].
    + apply in_app_or in Hy; apply in_or_app; destruct Hy; [now left|right; now right].
    + apply in_app_or in Hy. destruct Hy as [Hy|Hy].
      * destruct (P1 y Hy) as (? & ? & ?). lia.
      * destruct (P2 y Hy) as (? & ? & ?).
        specialize (Hbsz ltac:(intros ->; destruct Hy)). lia.
  - apply only_writes_then_store.
    + eapply only_writes_weaken; [|exact Hfr].
      intros a [Ha|(x & Hx & Ha)]; [now left|right; left].
      destruct (Hnode x Hx) as (X1 & X2 & X3).
      exists x. split; [|lia].
      apply in_app_or in Hx; apply in_or_app; destruct Hx; [now left|right; now right].
    + intros a Ha. right. left. exists bp. split; [apply in_or_app; right; now left|lia].
Qed.



(** The effect of a plain extension: the new block starts at the old end
    of the heap. *)
Lemma allocated_extended st l newsize v :
  heap_ok A st -> free_list A st l -> 8 <= newsize ->
  brk st + newsize <= limit st ->
  allocated_block A st
    (mkHeap (lo st) (brk st + newsize) (limit st) (store_word A (bytes st) (brk st) v))
    l l (brk st + 8) newsize.
Proof.
  intros Hok Hfl Hn Hroom. pose proof Hok as [Hlo Hbrk Hlim Hmod].
  pose proof (sizeof_ptr_cases A) as HW. unfold free_list in Hfl.
  constructor; cbn [lo brk limit bytes]; try reflexivity; try lia.
  - unfold free_list. cbn [lo brk limit bytes]. rewrite load_store_other by lia.
    apply free_chain_top with (top := brk st); [|lia].
    eapply free_chain_ext; [exact Hfl|].
    intros x a Hx Ha. destruct (free_chain_in A _ _ _ _ _ _ _ Hfl Hx) as (Z1 & Z2 & Z3).
    unfold min_block in Z2. apply store_word_other. lia.
  - intros y Hy. destruct (free_chain_in A _ _ _ _ _ _ _ Hfl Hy) as (Z1 & Z2 & Z3).
    unfold min_block in Z2. rewrite size_at_store_other by lia.
    split; [assumption|]. lia.
  - apply only_writes_store. intros a Ha. right. right. lia.
Qed.

(** No fit, and the cursor block does not end at the end of the heap: a
    new block is obtained from [mem_sbrk], or the call gives up. *)
Lemma malloc_extend_plain newsize cur sa st :
  heap_ok A st -> 8 <= newsize < MOD - 7 ->
  moved_pointer A cur sa BLOCK_FORWARD BLOCK_END <> brk st ->
  malloc_extend A md newsize cur (Some sa) st
  = if brk st + newsize <=? limit st
    then Ok (brk st + 8)
            (mkHeap (lo st) (brk st + newsize) (limit st)
                    (store_word A (bytes st) (brk st) (newsize + 1)))
    else Ok NULL st.
Proof.
  intros [Hlo Hbrk Hlim Hmod] Hn Hcur. pose proof (sizeof_ptr_cases A) as HW.
  unfold malloc_extend. cbn [read_local]. rewrite bind_ret. rewrite bind_heap_hi.
  rewrite (wrap_small A (brk st - 1)) by lia.
  replace (brk st - 1 + 1) with (brk st) by lia.
  rewrite (wrap_small A (brk st)) by lia.
  replace (moved_pointer A cur sa BLOCK_FORWARD BLOCK_END =? brk st) with false
    by (symmetry; now apply Z.eqb_neq).
  destruct (Z.leb_spec (brk st + newsize) (limit st)) as [Hroom|Hroom].
  - rewrite bind_sbrk_ok by assumption.
    replace (brk st =? FAILED A) with false
      by (symmetry; apply Z.eqb_neq; rewrite FAILED_eq; lia).
    rewrite (wrap_small A (newsize + 1)) by lia.
    rewrite bind_store by bounds. unfold ret.
    change BLOCK_PAYLOAD with BLOCK_FORWARD. rewrite mp_hdr_fwd by lia.
    reflexivity.
  - rewrite bind_sbrk_fail by lia. rewrite Z.eqb_refl. reflexivity.
Qed.



End MallocEffect.

(** ** [mm_realloc] keeps the payload *)

Section Inversion.

Variable A : abi.
Variable md : mode.






End Inversion.

Section ReallocInPlace.

Variable A : abi.
Variable md : mode.

Local Abbreviation W := (sizeof_ptr A).
Local Abbreviation MOD := (word_mod A).




End ReallocInPlace.

Section ReallocMoved.

Variable A : abi.
Variable md : mode.

Local Abbreviation W := (sizeof_ptr A).
Local Abbreviation MOD := (word_mod A).


End ReallocMoved.

Section ReallocPayload.

Variable A : abi.
Variable md : mode.

Local Abbreviation W := (sizeof_ptr A).
Local Abbreviation MOD := (word_mod A).


End ReallocPayload.

(** ** The theorems at concrete heaps *)

Ltac by_computation :=
  vm_compute; repeat split; try reflexivity; try discriminate.



Lemma realloc_tail_reads_past_end_witness :
  mm_realloc LP64 Strict 1 65552 100
             heap_one_block
  = Fault (OutOfHeap (brk heap_one_block)).
Proof.
  apply (realloc_tail_reads_past_end LP64 1
           heap_one_block 65552 100).
  - constructor; by_computation.
  - by_computation.
  - discriminate.
  - by_computation.
  - by_computation.
  - by_computation.
Defined.

Lemma malloc_reads_unassigned_size_act_witness :
  mm_malloc LP64 Strict 1 16
            heap_one_block
  = Fault Indeterminate.
Proof.
  refine (proj1 (malloc_reads_unassigned_size_act LP64 1 16 heap_one_block _ _)).
  - constructor; by_computation.
  - by_computation.
Defined.

Lemma realloc_zero_frees_witness :
  65584 <> 0 /\
  exists st',
    mm_realloc LP64 Strict 3 65584 0 heap_two_free = Ok 65584 st' /\
    mm_free LP64 Strict 3 65584 heap_two_free = Ok tt st' /\
    lo st' = lo heap_two_free /\ brk st' = brk heap_two_free /\
    freed_block LP64 (bytes heap_two_free) (bytes st') (lo heap_two_free) 65584
                [65552; 65616].
Proof.
  apply (realloc_zero_frees LP64 Strict 3 heap_two_free [65552; 65616] 65584).
  - constructor; by_computation.
  - by_computation.
  - constructor;
      [by_computation | by_computation | by_computation | by_computation
      |intros x [<-|[<-|[]]]; [left|right]; by_computation].
  - simpl. lia.
Defined.

Lemma outcome_of_value {T} (r : outcome T) (v : T) :
  value_of r = Some v -> r = Ok v (heap_after r).
Proof. destruct r as [w st|f]; cbn; [intros [= ->]; reflexivity|discriminate]. Qed.


(** ** Pointer arithmetic and sizes *)

Section Positions.

Variable A : abi.

Local Abbreviation W := (sizeof_ptr A).
Local Abbreviation MOD := (word_mod A).

Lemma wrap_wrap_add x y : wrap A (wrap A x + y) = wrap A (x + y).
Proof. unfold wrap. apply Zplus_mod_idemp_l. Qed.

Lemma wrap_wrap_sub x y : wrap A (wrap A x - y) = wrap A (x - y).
Proof. unfold wrap. apply Zminus_mod_idemp_l. Qed.

Lemma wrap_congr x y : (x - y) mod MOD = 0 -> wrap A x = wrap A y.
Proof.
  intros H. unfold wrap. pose proof (word_mod_big A).
  replace x with (y + (x - y)) by lia.
  rewrite Zplus_mod, H, Z.add_0_r. apply Z.mod_mod. lia.
Qed.

Lemma wrap_shift x y z : wrap A (wrap A x + y + z) = wrap A (x + y + z).
Proof. rewrite <- Z.add_assoc, wrap_wrap_add. f_equal. lia. Qed.

Lemma wrap_shift_sub x y z : wrap A (wrap A x - y + z) = wrap A (x - y + z).
Proof.
  replace (wrap A x - y + z) with (wrap A x + (z - y)) by lia.
  rewrite wrap_wrap_add. f_equal. lia.
Qed.

Lemma wrap_shift_sub2 x y z : wrap A (wrap A x - y - z) = wrap A (x - y - z).
Proof.
  replace (wrap A x - y - z) with (wrap A x + (- y - z)) by lia.
  rewrite wrap_wrap_add. f_equal. lia.
Qed.

Lemma wrap_shift_sub3 x y z u : wrap A (wrap A x - y - z + u) = wrap A (x - y - z + u).
Proof.
  replace (wrap A x - y - z + u) with (wrap A x + (- y - z + u)) by lia.
  rewrite wrap_wrap_add. f_equal. lia.
Qed.

Lemma wrap_shift_sub4 x y z u v : wrap A (wrap A x - y - z + u + v) = wrap A (x - y - z + u + v).
Proof.
  replace (wrap A x - y - z + u + v) with (wrap A x + (- y - z + u + v)) by lia.
  rewrite wrap_wrap_add. f_equal. lia.
Qed.

Lemma wrap_shift_sub5 x y u v : wrap A (wrap A x - y + u + v) = wrap A (x - y + u + v).
Proof.
  replace (wrap A x - y + u + v) with (wrap A x + (- y + u + v)) by lia.
  rewrite wrap_wrap_add. f_equal. lia.
Qed.

Lemma wrap_wrap x : wrap A (wrap A x) = wrap A x.
Proof. unfold wrap. apply Z.mod_mod. pose proof (word_mod_big A). lia. Qed.

(** X1 — [moved_pointer] composes: for the four positions of a block
    (header, end, forward slot or payload, backward slot), going from [a] to
    [b] and then from [b] to [c], with the same block length, is going from
    [a] to [c]; going to [b] and back gives the pointer itself. *)
Theorem moved_pointer_compose p n a b c :
  0 <= p < MOD ->
  In a [BLOCK_HEADER; BLOCK_END; BLOCK_FORWARD; BLOCK_BACKWARD] ->
  In b [BLOCK_HEADER; BLOCK_END; BLOCK_FORWARD; BLOCK_BACKWARD] ->
  In c [BLOCK_HEADER; BLOCK_END; BLOCK_FORWARD; BLOCK_BACKWARD] ->
  moved_pointer A (moved_pointer A p n a b) n b c = moved_pointer A p n a c /\
  moved_pointer A (moved_pointer A p n a b) n b a = p.
Proof.
  intros Hp Ha Hb Hc. pose proof (sizeof_ptr_cases A) as HW.
  assert (Hpp : wrap A p = p) by (apply wrap_small; exact Hp).
  cbn [In] in Ha, Hb, Hc.
  destruct Ha as [<-|[<-|[<-|[<-|[]]]]], Hb as [<-|[<-|[<-|[<-|[]]]]];
    (split; [destruct Hc as [<-|[<-|[<-|[<-|[]]]]]|]);
    unfold moved_pointer;
    cbn [BLOCK_HEADER BLOCK_END BLOCK_FORWARD BLOCK_BACKWARD Z.eqb Pos.eqb];
    rewrite ?SIZE_T_SIZE_eq;
    repeat (rewrite ?wrap_wrap_add, ?wrap_wrap_sub, ?wrap_wrap, ?wrap_shift, ?wrap_shift_sub,
              ?wrap_shift_sub2, ?wrap_shift_sub3, ?wrap_shift_sub4, ?wrap_shift_sub5);
    try reflexivity;
    try (rewrite <- Hpp at 2; f_equal; lia);
    try (rewrite <- Hpp at 3; f_equal; lia);
    try (rewrite <- Hpp at 4; f_equal; lia);
    try (f_equal; lia).
Qed.

(** X2 — [ALIGN] gives a multiple of 8; it rounds up to the next multiple
    of 8 and leaves a multiple of 8 alone, as long as adding 7 does not
    pass the largest [size_t]; from there on it gives 0. *)
Theorem ALIGN_rounds_up x :
  0 <= x < MOD ->
  ALIGN A x mod 8 = 0 /\
  (x + 7 < MOD -> x <= ALIGN A x < x + 8 /\ (x mod 8 = 0 -> ALIGN A x = x)) /\
  (MOD <= x + 7 -> ALIGN A x = 0).
Proof.
  intros Hx. pose proof (word_mod_cases A) as HM.
  assert (Hover : MOD <= x + 7 -> ALIGN A x = 0).
  { intros Ho. unfold ALIGN, ALIGNMENT. rewrite lnot7_eq.
    replace (x + (8 - 1)) with (x + 7) by lia.
    assert (E : wrap A (x + 7) = x + 7 - MOD).
    { unfold wrap. symmetry. apply (Z.mod_unique_pos _ _ 1); lia. }
    rewrite E, land_clear3 by lia. rewrite Z.div_small; lia. }
  destruct (Z.lt_ge_cases (x + 7) MOD) as [Hin|Hout].
  - destruct (ALIGN_bounds A x ltac:(lia) Hin) as [B1 B2].
    split; [exact B2|]. split; [|intros; lia].
    intros _. split; [exact B1|]. intros H8. apply ALIGN_aligned; lia.
  - rewrite (Hover Hout). split; [reflexivity|]. split; [intros; lia|intros _; reflexivity].
Qed.

Lemma block_size_eq n :
  0 <= n < 2 ^ 31 ->
  block_size A n = (if n <? 2 * W then 2 * W + 8 else 8 * ((n + 15) / 8)).
Proof.
  intros Hn. pose proof (sizeof_ptr_cases A) as HW. pose proof (word_mod_big A) as HM.
  change (2 ^ 31) with 2147483648 in Hn. change (2 ^ 32) with 4294967296 in HM.
  unfold block_size, floor_request. rewrite SIZE_T_SIZE_eq.
  rewrite to_int_small by (change (2 ^ 31) with 2147483648; lia).
  rewrite (wrap_small A n) by lia.
  destruct (Z.ltb_spec n (2 * W)).
  - rewrite (wrap_small A (2 * W)) by lia. rewrite (wrap_small A (2 * W + 8)) by lia.
    apply ALIGN_aligned; try lia. destruct HW as [-> | ->]; reflexivity.
  - rewrite (wrap_small A (n + 8)) by lia. rewrite ALIGN_eq by lia.
    f_equal. f_equal. lia.
Qed.

Lemma block_size_facts n :
  0 <= n < 2 ^ 31 ->
  block_size A n mod 8 = 0 /\ block_size A n mod 2 = 0 /\
  min_block A <= block_size A n < MOD - 7 /\ n + 8 <= block_size A n.
Proof.
  intros Hn. pose proof (sizeof_ptr_cases A) as HW. pose proof (word_mod_big A) as HM.
  rewrite (block_size_eq n Hn). unfold min_block.
  change (2 ^ 31) with 2147483648 in Hn. change (2 ^ 32) with 4294967296 in HM.
  pose proof (Z.div_mod (n + 15) 8 ltac:(lia)).
  pose proof (Z.mod_pos_bound (n + 15) 8 ltac:(lia)).
  destruct (Z.ltb_spec n (2 * W)).
  - repeat split; try lia; destruct HW as [-> | ->]; reflexivity.
  - repeat split; try lia.
    + rewrite Z.mul_comm. apply Z.mod_mul. lia.
    + replace (8 * ((n + 15) / 8)) with (4 * ((n + 15) / 8) * 2) by lia.
      apply Z.mod_mul. lia.
Qed.


(** X3 — the block size [mm_malloc] computes for a request that fits in an
    [int]: the request raised to two pointers when it is smaller, plus the
    8 header bytes, rounded up to a multiple of 8.  It is never below the
    smallest block and always holds the request and the header. *)
Theorem block_size_of_request n :
  0 <= n < 2 ^ 31 ->
  block_size A n = (if n <? 2 * W then 2 * W + 8 else 8 * ((n + 15) / 8)) /\
  block_size A n mod 8 = 0 /\
  min_block A <= block_size A n /\
  n + 8 <= block_size A n /\
  (2 * W <= n -> block_size A n < n + 16).
Proof.
  intros Hn. destruct (block_size_facts n Hn) as (F1 & _ & F2 & F3).
  split; [apply block_size_eq; exact Hn|]. split; [exact F1|]. split; [lia|]. split; [exact F3|].
  intros Hbig. rewrite (block_size_eq n Hn).
  replace (n <? 2 * W) with false by (symmetry; apply Z.ltb_ge; lia).
  pose proof (Z.div_mod (n + 15) 8 ltac:(lia)).
  pose proof (Z.mod_pos_bound (n + 15) 8 ltac:(lia)). lia.
Qed.

End Positions.

(** X4 — under LP64 the request is compared through an [int]: a request
    whose low 32 bits are below 16 is taken for a small one, whatever its
    high bits, and gets the smallest block, 24 bytes. *)
Theorem block_size_int_cast n :
  0 <= n < 2 ^ 64 -> n mod 2 ^ 32 < 16 ->
  block_size LP64 n = 24.
Proof.
  intros Hn Hlow. unfold block_size, floor_request.
  assert (E : to_int n = n mod 2 ^ 32).
  { unfold to_int. pose proof (Z.mod_pos_bound n (2 ^ 32) ltac:(lia)) as Hr.
    rewrite Zplus_mod. change (2 ^ 31 mod 2 ^ 32) with (2 ^ 31).
    change (2 ^ 31) with 2147483648 in *. change (2 ^ 32) with 4294967296 in *.
    rewrite Z.mod_small by lia. lia. }
  rewrite E.
  pose proof (Z.mod_pos_bound n (2 ^ 32) ltac:(lia)) as Hr.
  rewrite (wrap_small LP64 (n mod 2 ^ 32))
    by (change (word_mod LP64) with (2 ^ 64); change (2 ^ 64) with 18446744073709551616; lia).
  change (sizeof_ptr LP64) with 8.
  replace (n mod 2 ^ 32 <? 2 * 8) with true by (symmetry; apply Z.ltb_lt; lia).
  reflexivity.
Qed.

(** ** More on [mm_malloc] *)

Section MallocMore.

Variable A : abi.
Variable md : mode.

Local Abbreviation W := (sizeof_ptr A).
Local Abbreviation MOD := (word_mod A).

(** A successful [mm_malloc] on a well-formed heap took one of the four
    paths. *)
Lemma mm_malloc_paths fuel n st l q st2 :
  heap_ok A st -> free_list A st l ->
  0 <= n < 2 ^ 31 ->
  (A = LP64 -> brk st - lo st < 2 ^ 32) ->
  (length l <= fuel)%nat ->
  (l = [] -> match md with
             | Strict => True
             | Flat j => moved_pointer A (lo st) j BLOCK_FORWARD BLOCK_END <> brk st
             end) ->
  mm_malloc A md fuel n st = Ok q st2 -> q <> 0 ->
  exists l' bsz, malloc_path A st l (block_size A n) q st2 l' bsz.
Proof.
  intros Hok Hfl Hn Hsmall Hfuel Hjunk Hrun Hq.
  pose proof Hok as [Hlo Hbrk Hlim Hmod].
  pose proof (sizeof_ptr_cases A) as HW. pose proof (word_mod_big A) as HM.
  destruct (block_size_bounds A n ltac:(lia)) as (N1 & N2 & _).
  set (newsize := block_size A n) in *.
  destruct l as [|x l].
  - assert (Hhead : load_word A (bytes st) (lo st) = 0) by exact Hfl.
    assert (Hrun0 : mm_malloc A md fuel n st
                    = malloc_extend A md (block_size A n) (lo st) None st).
    { unfold mm_malloc. cbv zeta.
      unfold bind at 1. unfold mem_heapsize at 1.
      replace (brk st - lo st =? 0) with false by (symmetry; apply Z.eqb_neq; lia).
      rewrite bind_heap_lo. rewrite bind_load by lia. rewrite Hhead.
      unfold NULL. cbn [Z.eqb negb]. rewrite bind_ret. reflexivity. }
    rewrite Hrun0 in Hrun. fold newsize in Hrun. specialize (Hjunk eq_refl).
    assert (Hj : exists j, md = Flat j /\
                 malloc_extend A md newsize (lo st) None st
                 = malloc_extend A md newsize (lo st) (Some j) st).
    { destruct md as [|j] eqn:E; [discriminate Hrun|]. exists j. split; reflexivity. }
    destruct Hj as (j & Ej & Erun). rewrite Erun in Hrun. rewrite Ej in Hjunk.
    rewrite (malloc_extend_plain A md newsize (lo st) j st Hok ltac:(lia) Hjunk) in Hrun.
    destruct (Z.leb_spec (brk st + newsize) (limit st)) as [Hroom|Hroom].
    + injection Hrun as <- <-. exists [], newsize.
      apply path_extend; [intros ? []|assumption].
    + injection Hrun as <- <-. now elim Hq.
  - assert (Hsizes : forall y, In y (x :: l) ->
                               y <> 0 /\ size_at A (bytes st) y < best_s_init A).
    { intros y Hy. destruct (free_chain_in A _ _ _ _ _ _ _ Hfl Hy) as (B1 & B2 & B3).
      rewrite best_s_init_eq. split; [lia|].
      destruct A eqn:EA.
      - change (word_mod ILP32) with 4294967296 in Hmod.
        change (sizeof_ptr ILP32) with 4 in *. lia.
      - specialize (Hsmall eq_refl). change (sizeof_ptr LP64) with 8 in *.
        change (2 ^ 32) with 4294967296 in Hsmall. lia. }
    pose proof (scan_list_spec (best_s_init A) newsize (blocks A (bytes st) l)
                  x (size_at A (bytes st) x) [] 0 (best_s_init A)) as Hscan.
    cbv zeta in Hscan. cbn [app] in Hscan.
    change ((x, size_at A (bytes st) x) :: blocks A (bytes st) l)
      with (blocks A (bytes st) (x :: l)) in Hscan.
    rewrite (mm_malloc_scanned A md fuel n st x l Hok Hfl ltac:(simpl in Hfuel; lia)) in Hrun.
    fold newsize in Hrun.
    remember (scan_list newsize x (size_at A (bytes st) x) (blocks A (bytes st) l)
                        0 (best_s_init A)) as r eqn:Er.
    destruct r as [[[cur sa] bp] bs].
    destruct Hscan as [Hres _].
    + split; [intros ? []|]. left. repeat split. intros ? [].
    + destruct (Hsizes x ltac:(now left)). lia.
    + intros _. apply (Hsizes x). now left.
    + intros b Hb. apply in_blocks in Hb. destruct Hb as [Hb ->].
      destruct (Hsizes (fst b) ltac:(now right)). split; [assumption|lia].
    + destruct Hres as [(Hbp & Hnone & _)|(Hbp & Hbest)].
      * subst bp. cbn [Z.eqb] in Hrun.
        assert (Hno : forall y, In y (x :: l) -> size_at A (bytes st) y < newsize).
        { intros y Hy. apply (Hnone (y, size_at A (bytes st) y)).
          unfold blocks. apply in_map_iff. now exists y. }
        rewrite scan_list_no_fit in Er
          by (intros y Hy; split; [apply (Hsizes y Hy)|apply (Hno y Hy)]).
        injection Er as -> -> _.
        destruct (@exists_last _ (x :: l) ltac:(discriminate)) as (l0 & t & El).
        assert (Et : last (x :: l) 0 = t) by (rewrite El; apply last_last).
        change (match l with [] => x | _ :: _ => last l 0 end) with (last (x :: l) 0) in Hrun.
        rewrite Et in Hrun. rewrite El in *.
        assert (Hin : In t (l0 ++ [t])) by (apply in_or_app; right; now left).
        destruct (free_chain_in A _ _ _ _ _ _ _ Hfl Hin) as (B1 & B2 & B3).
        unfold min_block in B2.
        pose proof (Hno t Hin) as Hsm.
        destruct (Z.eq_dec (t - 8 + size_at A (bytes st) t) (brk st)) as [Hend|Hend].
        -- rewrite (malloc_extend_tail_any A md newsize st l0 t Hok Hfl Hend Hsm ltac:(lia))
            in Hrun.
           injection Hrun as <- <-. exists l0, newsize.
           apply (path_tail A st (l0 ++ [t]) newsize l0 t); auto.
        -- rewrite (malloc_extend_plain A md newsize t (size_at A (bytes st) t) st Hok ltac:(lia))
            in Hrun by (rewrite mp_fwd_end by lia; exact Hend).
           destruct (Z.leb_spec (brk st + newsize) (limit st)) as [Hroom|Hroom].
           ++ injection Hrun as <- <-. exists (l0 ++ [t]), newsize.
              apply path_extend; assumption.
           ++ injection Hrun as <- <-. now elim Hq.
      * replace (bp =? 0) with false in Hrun by (symmetry; now apply Z.eqb_neq).
        pose proof Hbest as (k1' & k2' & El & Hfit & _).
        assert (Hin : In (bp, bs) (blocks A (bytes st) (x :: l)))
          by (rewrite El; apply in_or_app; right; now left).
        apply in_blocks in Hin. cbn [fst snd] in Hin, Hfit. destruct Hin as [Hin Ebs].
        destruct (free_chain_in A _ _ _ _ _ _ _ Hfl Hin) as (B1 & B2 & B3).
        unfold min_block in *. subst bs.
        destruct (Z.le_gt_cases (8 + 2 * W) (size_at A (bytes st) bp - newsize))
          as [Hsplit|Hwhole].
        -- rewrite (malloc_place_split A md newsize st (x :: l) bp Hok Hfl Hin) in Hrun
            by (unfold min_block; lia).
           injection Hrun as <- <-. exists (x :: l), newsize.
           apply path_split; [assumption|unfold min_block; lia].
        -- destruct (in_split _ _ Hin) as (k1 & k2 & Ek). rewrite Ek in *.
           rewrite (malloc_place_whole A md newsize st k1 bp k2 Hok Hfl) in Hrun
             by (unfold min_block; lia).
           injection Hrun as <- <-. exists (k1 ++ k2), (size_at A (bytes st) bp).
           apply (path_whole A st (k1 ++ bp :: k2) newsize k1 bp k2);
             [reflexivity|lia|unfold min_block; lia].
Qed.

(** What each path leaves behind. *)
Lemma malloc_path_effect st l newsize q st2 l' bsz :
  heap_ok A st -> free_list A st l ->
  min_block A <= newsize < MOD - 7 -> newsize mod 2 = 0 ->
  malloc_path A st l newsize q st2 l' bsz ->
  allocated_block A st st2 l l' q bsz /\
  newsize <= bsz /\ bsz mod 2 = 0 /\
  size_at A (bytes st2) q = bsz + 1 /\
  (brk st + newsize <= limit st -> q - 8 + bsz <= brk st2) /\
  brk st2 <= brk st + newsize.
Proof.
  intros Hok Hfl Hn Hev Hpath. pose proof Hok as [Hlo Hbrk Hlim Hmod].
  pose proof (sizeof_ptr_cases A) as HW. unfold min_block in Hn.
  assert (Hnode : forall x, In x l ->
            lo st + W + 8 <= x /\ 8 + 2 * W <= size_at A (bytes st) x /\
            x - 8 + size_at A (bytes st) x <= brk st /\ size_at A (bytes st) x mod 2 = 0).
  { intros x Hx. destruct (in_split _ _ Hx) as (k1 & k2 & E). rewrite E in Hfl.
    assert (H0 : 0 <= lo st + W) by lia.
    destruct (free_chain_apart A _ _ _ _ _ _ _ _ H0 Hfl) as (_ & _ & P3 & P4 & P5 & P6).
    unfold min_block in P4. lia. }
  destruct Hpath as [bp Hin Hsplit|k1 bp k2 El Hfit Hwhole|l0 t El Hend Hall|Hno Hroom];
    [| |assert (Hsm : size_at A (bytes st) t < newsize)
          by (apply Hall; rewrite El; apply in_or_app; right; now left)|].
  - destruct (Hnode bp Hin) as (B1 & B2 & B3 & B4).
    split; [apply allocated_split; try assumption; lia|].
    split; [lia|]. split; [exact Hev|]. cbn [bytes brk set_bytes].
    split; [apply size_at_store_same; lia|]. split; [intros _; lia|lia].
  - subst l. destruct (Hnode bp ltac:(apply in_or_app; right; now left)) as (B1 & B2 & B3 & B4).
    split; [apply (allocated_unlinked A st k1 bp k2 _ (brk st)); try assumption; lia|].
    split; [lia|]. split; [exact B4|]. cbn [bytes brk set_bytes].
    split; [apply size_at_store_same; lia|]. split; [intros _; lia|lia].
  - subst l. destruct (Hnode t ltac:(apply in_or_app; right; now left)) as (B1 & B2 & B3 & B4).
    split.
    + pose proof (allocated_unlinked A st l0 t [] (newsize + 1)
                    (if brk st + (newsize - size_at A (bytes st) t) <=? limit st
                     then brk st + (newsize - size_at A (bytes st) t) else brk st)
                    newsize Hok Hfl) as Hu.
      rewrite app_nil_r in Hu. apply Hu.
      * destruct (Z.leb_spec (brk st + (newsize - size_at A (bytes st) t)) (limit st)); lia.
      * intros z Hz. lia.
      * congruence.
    + split; [lia|]. split; [exact Hev|]. cbn [bytes brk].
      split; [apply size_at_store_same; lia|]. split.
      * intros Hroom.
        replace (brk st + (newsize - size_at A (bytes st) t) <=? limit st) with true
          by (symmetry; apply Z.leb_le; lia). lia.
      * destruct (Z.leb_spec (brk st + (newsize - size_at A (bytes st) t)) (limit st)); lia.
  - split; [apply allocated_extended; try assumption; lia|].
    split; [lia|]. split; [exact Hev|]. cbn [bytes brk].
    split; [|split; [intros _; lia|lia]].
    replace (brk st) with (brk st + 8 - 8) at 1 by lia. apply size_at_store_same. lia.
Qed.








Lemma mod8_add a b : a mod 8 = 0 -> b mod 8 = 0 -> (a + b) mod 8 = 0.
Proof. intros Ha Hb. rewrite Zplus_mod, Ha, Hb. reflexivity. Qed.


(** Taking a block off the list leaves the sizes of the others. *)
Lemma unlinked_sizes st k1 bp k2 v y :
  heap_ok A st -> free_list A st (k1 ++ bp :: k2) -> In y (k1 ++ k2) ->
  size_at A (store_word A (unlinked A (bytes st) (lo st) k1 bp k2) (bp - 8) v) y
  = size_at A (bytes st) y.
Proof.
  intros [Hlo Hbrk Hlim Hmod] Hfl Hy. pose proof (sizeof_ptr_cases A) as HW.
  unfold free_list in Hfl. assert (H0 : 0 <= lo st + W) by lia.
  destruct (free_chain_apart A _ _ _ _ _ _ _ _ H0 Hfl) as (P1 & P2 & P3 & P4 & P5 & P6).
  unfold min_block in *.
  assert (Hnode : forall x, In x (k1 ++ k2) ->
            lo st + W + 8 <= x /\ 8 + 2 * W <= size_at A (bytes st) x /\
            (x - 8 + size_at A (bytes st) x <= bp - 8 \/
             bp - 8 + size_at A (bytes st) bp <= x - 8) /\ In x (k1 ++ bp :: k2)).
  { intros x Hx. apply in_app_or in Hx.
    destruct Hx as [Hx|Hx]; [destruct (P1 x Hx) as (? & ? & ?)|destruct (P2 x Hx) as (? & ? & ?)];
      (split; [lia|split; [lia|split; [lia|]]]); apply in_or_app; [now left|right; now right]. }
  destruct (Hnode y Hy) as (N1 & N2 & N3 & N4).
  rewrite size_at_store_other by lia. unfold size_at. apply load_word_ext.
  intros a Ha. apply (unlinked_frame A (bytes st) (lo st) k1 bp k2).
  intros [Hh|(x & Hx & Hxa)]; [lia|].
  destruct (Hnode x Hx) as (X1 & X2 & X3 & X4).
  destruct (free_chain_pairwise A _ _ _ _ _ _ _ _ H0 Hfl X4 N4) as [->|[?|?]]; lia.
Qed.


(** [mm_malloc] when nothing fits and the arena is full. *)
Lemma malloc_refused fuel n st l :
  heap_ok A st -> free_list A st l -> l <> [] ->
  0 <= n < 2 ^ 31 ->
  (length l <= fuel)%nat ->
  (forall x, In x l -> size_at A (bytes st) x < block_size A n) ->
  last l 0 - 8 + size_at A (bytes st) (last l 0) <> brk st ->
  limit st < brk st + block_size A n ->
  mm_malloc A md fuel n st = Ok NULL st.
Proof.
  intros Hok Hfl Hne Hn Hfuel Hno Hend Hfull.
  pose proof Hok as [Hlo Hbrk Hlim Hmod]. pose proof (sizeof_ptr_cases A) as HW.
  destruct (block_size_facts A n Hn) as (F1 & F2 & F3 & F4). unfold min_block in F3.
  destruct l as [|x l]; [congruence|].
  rewrite (mm_malloc_scanned A md fuel n st x l Hok Hfl ltac:(simpl in Hfuel; lia)).
  rewrite scan_list_no_fit.
  2:{ intros y Hy. split; [|apply Hno, Hy].
      destruct (free_chain_in A _ _ _ _ _ _ _ Hfl Hy) as (B1 & _). lia. }
  cbn [Z.eqb].
  assert (Hin : In (last (x :: l) 0) (x :: l)) by (apply last_in; discriminate).
  destruct (free_chain_in A _ _ _ _ _ _ _ Hfl Hin) as (B1 & B2 & B3). unfold min_block in B2.
  rewrite (malloc_extend_plain A md (block_size A n) _ _ st Hok ltac:(lia))
    by (rewrite mp_fwd_end by lia; exact Hend).
  replace (brk st + block_size A n <=? limit st) with false
    by (symmetry; apply Z.leb_gt; lia).
  reflexivity.
Qed.

(** X8 — no free block fits, the last free block does not end at the end
    of the heap, and the arena refuses the growth: [mm_malloc] returns
    [NULL] and leaves the heap as it was. *)
Theorem malloc_refused_returns_null fuel n st l :
  heap_ok A st -> free_list A st l -> l <> [] ->
  0 <= n < 2 ^ 31 ->
  (length l <= fuel)%nat ->
  (forall x, In x l -> size_at A (bytes st) x < block_size A n) ->
  last l 0 - 8 + size_at A (bytes st) (last l 0) <> brk st ->
  limit st < brk st + block_size A n ->
  mm_malloc A md fuel n st = Ok NULL st.
Proof. exact (malloc_refused fuel n st l). Qed.

End MallocMore.

Section FirstCall.

Variable A : abi.

Local Abbreviation W := (sizeof_ptr A).
Local Abbreviation MOD := (word_mod A).

(** X9 — the first call: on an empty heap in an arena with room,
    [mm_malloc] leaves the list-head slot at the start of the heap, holding
    [NULL], and hands out the first block at the next multiple of 8: the
    heap is then well formed, with an empty free list and that one
    allocated block, and ends where the block ends. *)
Theorem malloc_first_call md fuel n st :
  0 < lo st -> brk st = lo st -> limit st < MOD ->
  0 <= n < 2 ^ 31 ->
  lo st + W + 7 + block_size A n <= limit st ->
  exists st',
    mm_malloc A md fuel n st = Ok (ALIGN A (lo st + W) + 8) st' /\
    (ALIGN A (lo st + W) + 8) mod 8 = 0 /\
    lo st' = lo st /\ brk st' = ALIGN A (lo st + W) + block_size A n /\
    heap_ok A st' /\ free_list A st' [] /\
    allocated_at A st' [] (ALIGN A (lo st + W) + 8) /\
    size_at A (bytes st') (ALIGN A (lo st + W) + 8) = block_size A n + 1.
Proof.
  intros Hlo Hempty Hmod Hn Hroom.
  pose proof (sizeof_ptr_cases A) as HW. pose proof (word_mod_big A) as HM.
  destruct (block_size_facts A n Hn) as (F1 & F2 & F3 & F4). unfold min_block in F3.
  set (newsize := block_size A n) in *.
  destruct (ALIGN_bounds A (lo st + W) ltac:(lia) ltac:(lia)) as [Hp Hp8].
  set (p := ALIGN A (lo st + W)) in *.
  assert (Hrun : mm_malloc A md fuel n st
                 = Ok (p + 8) (mkHeap (lo st) (p + newsize) (limit st)
                                      (store_word A (store_word A (bytes st) (lo st) 0)
                                                  p (newsize + 1)))).
  { unfold mm_malloc. cbv zeta. fold newsize.
    unfold bind at 1. unfold mem_heapsize at 1.
    replace (brk st - lo st =? 0) with true by (symmetry; apply Z.eqb_eq; lia).
    unfold malloc_first.
    rewrite (wrap_small A (newsize + W)) by lia.
    rewrite bind_sbrk_ok by lia. rewrite Hempty.
    rewrite (wrap_small A (lo st + W)) by lia. fold p.
    assert (Hnf : (p =? FAILED A) = false) by (apply Z.eqb_neq; rewrite FAILED_eq; lia).
    change BLOCK_PAYLOAD with BLOCK_FORWARD.
    destruct (Z.eqb_spec p (lo st + W)) as [Eal|Eal]; cbn [negb].
    - rewrite bind_ret. rewrite bind_heap_lo. heap_simpl.
      rewrite bind_store by bounds. rewrite <- Eal. rewrite Hnf.
      rewrite (wrap_small A (newsize + 1)) by lia.
      rewrite bind_store by bounds. unfold ret. rewrite mp_hdr_fwd by lia.
      unfold set_bytes, set_brk. heap_simpl. f_equal. f_equal. lia.
    - rewrite bind_assoc. rewrite (wrap_small A (p - (lo st + W))) by lia.
      rewrite bind_sbrk_ok by bounds. rewrite bind_ret. rewrite bind_heap_lo. heap_simpl.
      rewrite bind_store by bounds. rewrite Hnf.
      rewrite (wrap_small A (newsize + 1)) by lia.
      rewrite bind_store by bounds. unfold ret. rewrite mp_hdr_fwd by lia.
      unfold set_bytes, set_brk. heap_simpl. f_equal. f_equal. lia. }
  eexists. split; [exact Hrun|]. heap_simpl.
  split; [apply mod8_add; [exact Hp8|reflexivity]|].
  split; [reflexivity|]. split; [reflexivity|].
  assert (Eh : size_at A (store_word A (store_word A (bytes st) (lo st) 0) p (newsize + 1))
                       (p + 8) = newsize + 1).
  { replace p with (p + 8 - 8) at 1 by lia. apply size_at_store_same. lia. }
  split; [constructor; heap_simpl; lia|].
  split.
  - unfold free_list. heap_simpl. cbn [free_chain].
    rewrite load_store_other by lia. apply load_store_same. lia.
  - split; [|exact Eh].
    constructor; heap_simpl; rewrite ?Eh; unfold min_block; try lia.
    + replace (newsize + 1) with (1 + newsize / 2 * 2)
        by (pose proof (Z.div_mod newsize 2 ltac:(lia)); lia).
      rewrite Z.mod_add by lia. reflexivity.
    + intros x [].
Qed.


End FirstCall.

(** ** [mm_free] keeps the free list well formed *)

Section FreeKeeps.

Variable A : abi.

Local Abbreviation W := (sizeof_ptr A).
Local Abbreviation MOD := (word_mod A).

(** The first block of a chain gets a new predecessor. *)
Lemma free_chain_relink m m' top low prev p l low' prev' :
  free_chain A m low prev p top l ->
  match l with
  | [] => True
  | a :: _ =>
    low' + 8 <= a /\
    (forall z, a - 8 <= z -> ~ (a + W <= z < a + 2 * W) -> m' z = m z) /\
    load_word A m' (a + W) = (if prev' =? 0 then 0 else prev' + W)
  end ->
  free_chain A m' low' prev' p top l.
Proof.
  pose proof (sizeof_ptr_cases A) as HW.
  destruct l as [|a t2]; cbn [free_chain]; [tauto|].
  intros (-> & H1 & Hev & H2 & H3 & H4 & H5) (L1 & Hfr & Hb). unfold min_block in H2.
  assert (Es : size_at A m' a = size_at A m a).
  { unfold size_at. apply load_word_ext. intros z Hz. apply Hfr; lia. }
  assert (Ef : load_word A m' a = load_word A m a).
  { apply load_word_ext. intros z Hz. apply Hfr; lia. }
  rewrite Es, Ef. unfold min_block. repeat split; try assumption; try lia.
  eapply free_chain_ext; [exact H5|].
  intros x z Hx Hz. destruct (free_chain_in A _ _ _ _ _ _ _ H5 Hx) as (Z1 & _).
  apply Hfr; lia.
Qed.

(** The chain from a new or grown block [X] on, the block [a] after it
    being merged into it when it starts where [X] ends. *)
Lemma free_chain_coalesced M m top X sX a t2 lowX prevX lowa preva :
  free_chain A m lowa preva a top (a :: t2) ->
  top < MOD ->
  (forall z, a - 8 <= z -> ~ (a + W <= z < a + 2 * W) -> M z = m z) ->
  load_word A M (a + W) = X + W ->
  size_at A M X = sX -> sX mod 2 = 0 -> min_block A <= sX ->
  X - 8 + sX <= a - 8 -> 8 <= X -> lowX + 8 <= X ->
  load_word A M X = a ->
  load_word A M (X + W) = (if prevX =? 0 then 0 else prevX + W) ->
  free_chain A (coalesced A M X sX a (size_at A m a) (load_word A m a))
             lowX prevX X top
             (X :: (if a - 8 =? X - 8 + sX then t2 else a :: t2)).
Proof.
  intros Hc Htop Hfr Hab HsX Hev Hmin Hend Hlow0 Hlow HfX HbX.
  pose proof (sizeof_ptr_cases A) as HW. unfold min_block in Hmin.
  pose proof Hc as Hc'. cbn [free_chain] in Hc'.
  destruct Hc' as (_ & A1 & Aev & A2 & A3 & A4 & A5). unfold min_block in A2.
  assert (HX0 : (X =? 0) = false) by (apply Z.eqb_neq; lia).
  unfold coalesced. destruct (Z.eqb_spec (a - 8) (X - 8 + sX)) as [Eadj|Eadj].
  - (* merged *)
    cbv zeta.
    set (sa := size_at A m a) in *. set (af := load_word A m a) in *.
    assert (Haf : match t2 with [] => af = 0 | y :: _ => af = y /\ a - 8 + sa + 8 <= y
                                                         /\ y + 2 * W <= top end).
    { destruct t2 as [|y t3]; cbn [free_chain] in A5; [exact A5|].
      destruct A5 as (E & Y1 & _ & Y2 & Y3 & _). unfold min_block in Y2. split; [exact E|lia]. }
    assert (Hafr : 0 <= af < MOD) by (apply load_word_range).
    destruct t2 as [|y t3].
    + rewrite Haf. cbn [Z.eqb].
      cbn [free_chain]. rewrite size_at_store_other by lia.
      rewrite size_at_store_same by lia. unfold min_block.
      rewrite load_store_other by lia. rewrite load_store_other by lia.
      rewrite load_store_same by lia.
      repeat split; try lia; try assumption. now apply even_add.
    + destruct Haf as (Ey & Y1 & Y2).
      replace (af =? 0) with false by (symmetry; apply Z.eqb_neq; lia).
      cbn [free_chain].
      rewrite !size_at_store_other by lia. rewrite size_at_store_same by lia.
      rewrite !load_store_other by lia. rewrite load_store_same by lia.
      unfold min_block.
      split; [reflexivity|]. split; [lia|]. split; [now apply even_add|].
      split; [lia|]. split; [lia|]. split; [exact HbX|].
      rewrite Ey in *.
      apply (free_chain_relink m _ top (a - 8 + sa) a y (y :: t3)); [exact A5|].
      split; [lia|]. split.
      * intros z Hz Hnz. rewrite !store_word_other by lia. apply Hfr; lia.
      * rewrite load_store_same by lia. rewrite HX0. reflexivity.
  - (* not merged *)
    cbn [free_chain]. rewrite HsX, HfX, HbX. unfold min_block.
    split; [reflexivity|]. split; [lia|]. split; [exact Hev|].
    split; [lia|]. split; [lia|]. split; [reflexivity|].
    apply (free_chain_relink m _ top lowa preva a (a :: t2)); [exact Hc|].
    split; [lia|]. split; [exact Hfr|]. rewrite Hab, HX0. reflexivity.
Qed.

(** The blocks below [b] stay as they are. *)
Lemma free_chain_prefix m m' top b l2' :
  forall k low prev p l2,
    free_chain A m low prev p top ((k ++ [b]) ++ l2) ->
    0 <= low ->
    (forall z, z < b - 8 -> m' z = m z) ->
    (forall lowb, lowb + 8 <= b -> free_chain A m' lowb (last k prev) b top (b :: l2')) ->
    free_chain A m' low prev p top ((k ++ [b]) ++ l2').
Proof.
  pose proof (sizeof_ptr_cases A) as HW.
  induction k as [|x k IH]; intros low prev p l2 Hc Hlow Hfr Hs.
  - cbn [app free_chain last] in *. destruct Hc as (-> & H1 & _).
    apply (Hs low H1).
  - cbn [app] in Hc. cbn [free_chain] in Hc.
    destruct Hc as (-> & H1 & Hev & H2 & H3 & H4 & H5). unfold min_block in H2.
    assert (Hb : In b ((k ++ [b]) ++ l2))
      by (apply in_or_app; left; apply in_or_app; right; now left).
    destruct (free_chain_in A _ _ _ _ _ _ _ H5 Hb) as (Z1 & _).
    assert (Es : size_at A m' x = size_at A m x).
    { unfold size_at. apply load_word_ext. intros z Hz. apply Hfr; lia. }
    assert (Ef : load_word A m' x = load_word A m x).
    { apply load_word_ext. intros z Hz. apply Hfr; lia. }
    assert (Eb : load_word A m' (x + W) = load_word A m (x + W)).
    { apply load_word_ext. intros z Hz. apply Hfr; lia. }
    cbn [app free_chain]. rewrite Es, Ef, Eb. unfold min_block.
    repeat split; try assumption; try lia.
    apply (IH _ _ _ l2 H5); [lia|exact Hfr|].
    intros lowb Hlb. rewrite <- (last_cons x prev k). apply Hs, Hlb.
Qed.

(** The memory [mm_free] leaves holds the list [freed_list]. *)
Lemma freed_chain st ptr l1 l2 :
  heap_ok A st ->
  free_list A st (l1 ++ l2) ->
  allocated_at A st (l1 ++ l2) ptr ->
  (forall x, In x l1 -> x < ptr) ->
  (forall x, In x l2 -> ptr < x) ->
  free_list A (set_bytes st (freed A (bytes st) (lo st) ptr l1 l2))
            (freed_list A (bytes st) ptr l1 l2).
Proof.
  destruct st as [slo sbrk slim m]. unfold free_list. heap_simpl.
  intros [Hlo Hbrk Hlim Hmod] Hfl [Hodd Hsize Hlow Htop Hapart] Hl1 Hl2.
  heap_simpl. unfold min_block in *.
  pose proof (sizeof_ptr_cases A) as HW.
  pose proof (load_word_range A m (ptr - 8)) as Rh.
  pose proof (odd_pred _ Hodd) as Hcs_even.
  set (h := size_at A m ptr) in *. fold h in Rh.
  assert (H0 : 0 <= slo + W) by lia.
  unfold freed, freed_list. cbv zeta. fold h.
  set (m0 := store_word A m (ptr - 8) (h - 1)).
  destruct l1 as [|x1 k].
  - cbn [app] in *. destruct l2 as [|a t2].
    + (* the list was empty *)
      cbn [free_chain]. rewrite !load_store_other by lia. rewrite load_store_same by lia.
      rewrite !size_at_store_other by lia. unfold m0. rewrite size_at_store_same by lia.
      rewrite load_store_other by lia. rewrite !load_store_same by lia.
      unfold min_block. repeat split; try lia; assumption.
    + (* [ptr] is the new head *)
      pose proof Hfl as Hfl'. cbn [free_chain] in Hfl'.
      destruct Hfl' as (E & A1 & Aev & A2 & A3 & A4 & A5). unfold min_block in A2.
      assert (Haptr : ptr < a) by (apply Hl2; now left).
      assert (Hblk : ptr - 8 + (h - 1) <= a - 8).
      { destruct (Hapart a ltac:(now left)) as [Hq|Hq]; [|exact Hq]. lia. }
      assert (Hnext : load_word A m a = 0 \/ ptr <= load_word A m a).
      { destruct t2 as [|a2 t2]; cbn [free_chain] in A5; [now left|right].
        destruct A5 as (E2 & Y1 & _). rewrite E2. lia. }
      set (M := store_word A (store_word A (store_word A (store_word A m0 slo ptr)
                                                        (a + W) (ptr + W)) ptr a)
                           (ptr + W) 0).
      rewrite (load_below A M _ slo (ptr - 8)) by
          first [lia | intros y Hy; apply coalesced_below; [lia|exact Hnext]].
      replace (load_word A M slo) with ptr
        by (unfold M; rewrite !load_store_other by lia; symmetry; apply load_store_same; lia).
      rewrite E in Hfl.
      apply (free_chain_coalesced M m sbrk ptr (h - 1) a t2 (slo + W) 0 (slo + W) 0);
        unfold min_block; try assumption; try lia.
      * intros z Hz Hnz. unfold M, m0. rewrite !store_word_other by lia. reflexivity.
      * unfold M. rewrite !load_store_other by lia. apply load_store_same. lia.
      * unfold M, m0. rewrite !size_at_store_other by lia. apply size_at_store_same. lia.
      * unfold M. rewrite load_store_other by lia. apply load_store_same. lia.
      * cbn [Z.eqb]. unfold M. apply load_store_same. lia.
  - (* some block lies below [ptr] *)
    assert (Hb : exists k' b, x1 :: k = k' ++ [b]).
    { destruct (exists_last (l := x1 :: k) ltac:(discriminate)) as (k' & b & Ek).
      now exists k', b. }
    destruct Hb as (k' & b & Ek).
    assert (Elast : last (x1 :: k) 0 = b) by (rewrite Ek; apply last_last).
    rewrite Elast. rewrite Ek in *. clear Ek Elast x1 k.
    pose proof Hfl as Hsplit. rewrite <- app_assoc in Hsplit. cbn [app] in Hsplit.
    destruct (free_chain_split A _ _ _ _ _ _ _ _ H0 Hsplit) as (low' & G1 & G2 & G3 & G4).
    pose proof G4 as G4'.
    cbn [free_chain] in G4'. destruct G4' as (_ & B1 & Bev & B2 & B3 & B4 & B5).
    unfold min_block in B2.
    assert (Hbin : In b ((k' ++ [b]) ++ l2))
      by (apply in_or_app; left; apply in_or_app; right; now left).
    assert (Hbptr : b < ptr) by (apply Hl1; apply in_or_app; right; now left).
    assert (Hbblk : b - 8 + size_at A m b <= ptr - 8).
    { destruct (Hapart b Hbin) as [Hq|Hq]; [exact Hq|lia]. }
    set (sb := size_at A m b) in *.
    assert (Hb0 : (b =? 0) = false) by (apply Z.eqb_neq; lia).
    assert (Ehead : forall m', (forall z, z < b - 8 -> m' z = m z) ->
                               load_word A m' slo = load_word A m slo).
    { intros m' Hm'. apply (load_below A m m' slo (b - 8)); [exact Hm'|lia]. }
    destruct l2 as [|a t2].
    + (* [ptr] is the last block *)
      destruct (Z.eqb_spec (ptr - 8) (b - 8 + sb)) as [Em|Em].
      * cbn [app].
        match goal with |- free_chain _ ?mm _ _ _ _ _ => set (m' := mm) end.
        assert (Hfr : forall z, z < b - 8 -> m' z = m z).
        { intros z Hz. unfold m', m0. rewrite !store_word_other by lia. reflexivity. }
        rewrite (Ehead m' Hfr).
        apply (free_chain_prefix m m' sbrk b [] k' _ _ _ [] Hfl H0 Hfr).
        intros lowb Hlb. cbn [free_chain]. unfold m'.
        rewrite !size_at_store_other by lia. rewrite size_at_store_same by lia.
        rewrite !load_store_other by lia. rewrite load_store_same by lia.
        unfold m0. rewrite load_store_other by lia. unfold min_block.
        split; [reflexivity|]. split; [lia|]. split; [now apply even_add|].
        split; [lia|]. split; [lia|]. split; [exact B4|reflexivity].
      * cbn [app].
        match goal with |- free_chain _ ?mm _ _ _ _ _ => set (m' := mm) end.
        assert (Hfr : forall z, z < b - 8 -> m' z = m z).
        { intros z Hz. unfold m', m0. rewrite !store_word_other by lia. reflexivity. }
        rewrite (Ehead m' Hfr).
        apply (free_chain_prefix m m' sbrk b [ptr] k' _ _ _ [] Hfl H0 Hfr).
        intros lowb Hlb.
        assert (Sb : size_at A m' b = sb).
        { unfold m', m0. rewrite !size_at_store_other by lia. reflexivity. }
        assert (Sp : size_at A m' ptr = h - 1).
        { unfold m', m0. rewrite !size_at_store_other by lia. apply size_at_store_same. lia. }
        assert (Fb : load_word A m' b = ptr).
        { unfold m'. rewrite !load_store_other by lia. apply load_store_same. lia. }
        assert (Bb : load_word A m' (b + W) = load_word A m (b + W)).
        { unfold m', m0. rewrite !load_store_other by lia. reflexivity. }
        assert (Bp : load_word A m' (ptr + W) = b + W).
        { unfold m'. rewrite load_store_other by lia. apply load_store_same. lia. }
        assert (Fp : load_word A m' ptr = 0).
        { unfold m'. apply load_store_same. lia. }
        cbn [free_chain]. rewrite Sb, Sp, Fb, Bb, Bp, Fp, Hb0. unfold min_block.
        repeat split; try lia; try assumption.
    + (* [ptr] lies between [b] and [a] *)
      pose proof B5 as B5'. cbn [free_chain] in B5'.
      destruct B5' as (Eba & A1 & Aev & A2 & A3 & A4 & A5). unfold min_block in A2.
      rewrite Eba in B5.
      assert (Hain : In a ((k' ++ [b]) ++ a :: t2)) by (apply in_or_app; right; now left).
      assert (Haptr : ptr < a) by (apply Hl2; now left).
      assert (Hblk : ptr - 8 + (h - 1) <= a - 8).
      { destruct (Hapart a Hain) as [Hq|Hq]; [|exact Hq]. lia. }
      assert (Hnext : load_word A m a = 0 \/ ptr <= load_word A m a).
      { destruct t2 as [|a2 t2]; cbn [free_chain] in A5; [now left|right].
        destruct A5 as (E2 & Y1 & _). rewrite E2. lia. }
      cbn [tl].
      set (m1 := store_word A (store_word A (store_word A (store_word A m0 b ptr)
                                                         (a + W) (ptr + W)) ptr a)
                            (ptr + W) (b + W)).
      assert (Hm1 : forall z, z < b - 8 -> m1 z = m z).
      { intros z Hz. unfold m1, m0. rewrite !store_word_other by lia. reflexivity. }
      destruct (Z.eqb_spec (ptr - 8) (b - 8 + sb)) as [Em|Em].
      * (* merged into [b] *)
        cbn [app].
        replace (a - 8 =? ptr - 8 + (h - 1)) with (a - 8 =? b - 8 + (sb + (h - 1)))
          by (f_equal; lia).
        set (Mb := store_word A (store_word A (store_word A m1 (b - 8) (sb + (h - 1))) b a)
                              (a + W) (b + W)).
        match goal with |- free_chain _ ?mm _ _ _ _ _ => set (m' := mm) end.
        assert (Hfr : forall z, z < b - 8 -> m' z = m z).
        { intros z Hz. unfold m'. rewrite coalesced_below by lia. unfold Mb.
          rewrite !store_word_other by lia. now apply Hm1. }
        rewrite (Ehead m' Hfr).
        apply (free_chain_prefix m m' sbrk b _ k' _ _ _ (a :: t2) Hfl H0 Hfr).
        intros lowb Hlb. unfold m'.
        apply (free_chain_coalesced Mb m sbrk b (sb + (h - 1)) a t2 lowb (last k' 0)
                                    (b - 8 + sb) b B5);
          unfold min_block; try lia.
        -- intros z Hz Hnz. unfold Mb, m1, m0. rewrite !store_word_other by lia. reflexivity.
        -- unfold Mb. apply load_store_same. lia.
        -- unfold Mb. rewrite !size_at_store_other by lia. apply size_at_store_same. lia.
        -- now apply even_add.
        -- unfold Mb. rewrite load_store_other by lia. apply load_store_same. lia.
        -- unfold Mb, m1, m0. rewrite !load_store_other by lia. exact B4.
      * (* [ptr] stays a block of its own *)
        cbn [app].
        match goal with |- free_chain _ ?mm _ _ _ _ _ => set (m' := mm) end.
        assert (Hfr : forall z, z < b - 8 -> m' z = m z).
        { intros z Hz. unfold m'. rewrite coalesced_below by lia. now apply Hm1. }
        rewrite (Ehead m' Hfr).
        apply (free_chain_prefix m m' sbrk b _ k' _ _ _ (a :: t2) Hfl H0 Hfr).
        intros lowb Hlb.
        assert (Hbel : forall z, z < ptr - 8 -> m' z = m1 z).
        { intros z Hz. unfold m'. apply coalesced_below; [lia|exact Hnext]. }
        assert (Sb : size_at A m' b = sb).
        { unfold size_at. rewrite (load_below A m1 m' (b - 8) (ptr - 8) Hbel) by lia.
          unfold m1, m0. rewrite !load_store_other by lia. reflexivity. }
        assert (Fb : load_word A m' b = ptr).
        { rewrite (load_below A m1 m' b (ptr - 8) Hbel) by lia.
          unfold m1. rewrite !load_store_other by lia. apply load_store_same. lia. }
        assert (Bb : load_word A m' (b + W) = load_word A m (b + W)).
        { rewrite (load_below A m1 m' (b + W) (ptr - 8) Hbel) by lia.
          unfold m1, m0. rewrite !load_store_other by lia. reflexivity. }
        cbn [free_chain]. rewrite Sb, Fb, Bb. unfold min_block.
        split; [reflexivity|]. split; [lia|]. split; [exact Bev|].
        split; [lia|]. split; [lia|]. split; [exact B4|].
        unfold m'.
        apply (free_chain_coalesced m1 m sbrk ptr (h - 1) a t2 (b - 8 + sb) b
                                    (b - 8 + sb) b B5);
          unfold min_block; try assumption; try lia.
        -- intros z Hz Hnz. unfold m1, m0. rewrite !store_word_other by lia. reflexivity.
        -- unfold m1. rewrite !load_store_other by lia. apply load_store_same. lia.
        -- unfold m1, m0. rewrite !size_at_store_other by lia. apply size_at_store_same. lia.
        -- unfold m1. rewrite load_store_other by lia. apply load_store_same. lia.
        -- rewrite Hb0. unfold m1. apply load_store_same. lia.
Qed.


Lemma coalesced_header M X sX a sa af x :
  x - 8 + W <= X - 8 \/ X + W <= x - 8 ->
  af = 0 \/ x - 8 + W <= af + W \/ af + 2 * W <= x - 8 ->
  size_at A (coalesced A M X sX a sa af) x = size_at A M x.
Proof.
  intros H1 H2. pose proof (sizeof_ptr_cases A) as HW. unfold coalesced.
  destruct (a - 8 =? X - 8 + sX); [|reflexivity]. cbv zeta.
  destruct (Z.eqb_spec af 0); rewrite !size_at_store_other by lia; reflexivity.
Qed.

(** Every block of the list [mm_free] leaves is made of the bytes of the
    block freed and of blocks that were free. *)
Lemma freed_blocks st ptr l1 l2 :
  heap_ok A st ->
  free_list A st (l1 ++ l2) ->
  allocated_at A st (l1 ++ l2) ptr ->
  (forall x, In x l1 -> x < ptr) ->
  (forall x, In x l2 -> ptr < x) ->
  forall x, In x (freed_list A (bytes st) ptr l1 l2) ->
            forall z, x - 8 <= z < x - 8 + size_at A (freed A (bytes st) (lo st) ptr l1 l2) x ->
                      in_free_block A (bytes st) (l1 ++ l2) z
                      \/ ptr - 8 <= z < ptr - 8 + (size_at A (bytes st) ptr - 1).
Proof.
  destruct st as [slo sbrk slim m]. unfold free_list. heap_simpl.
  intros [Hlo Hbrk Hlim Hmod] Hfl [Hodd Hsize Hlow Htop Hapart] Hl1 Hl2.
  heap_simpl. unfold min_block in *.
  pose proof (sizeof_ptr_cases A) as HW.
  pose proof (load_word_range A m (ptr - 8)) as Rh.
  set (h := size_at A m ptr) in *. fold h in Rh.
  assert (H0 : 0 <= slo + W) by lia.
  assert (Hnode : forall y, In y (l1 ++ l2) ->
            slo + W + 8 <= y /\ 8 + 2 * W <= size_at A m y /\ y - 8 + size_at A m y <= sbrk
            /\ (y - 8 + size_at A m y <= ptr - 8 \/ ptr - 8 + (h - 1) <= y - 8)).
  { intros y Hy. destruct (free_chain_in A _ _ _ _ _ _ _ Hfl Hy) as (B1 & B2 & B3).
    unfold min_block in B2. pose proof (Hapart y Hy). lia. }
  assert (Hpair : forall x y, In x (l1 ++ l2) -> In y (l1 ++ l2) ->
            x = y \/ x - 8 + size_at A m x <= y - 8 \/ y - 8 + size_at A m y <= x - 8).
  { intros x y Hx Hy. apply (free_chain_pairwise A _ _ _ _ _ _ _ _ H0 Hfl Hx Hy). }
  assert (Hself : forall y, In y (l1 ++ l2) ->
            forall z, y - 8 <= z < y - 8 + size_at A m y ->
                      in_free_block A m (l1 ++ l2) z \/ ptr - 8 <= z < ptr - 8 + (h - 1)).
  { intros y Hy z Hz. left. now exists y. }
  unfold freed, freed_list. cbv zeta. fold h.
  set (m0 := store_word A m (ptr - 8) (h - 1)).
  destruct l1 as [|x1 k].
  - cbn [app] in *. destruct l2 as [|a t2].
    + intros x [<-|[]] z. rewrite !size_at_store_other by lia. unfold m0.
      rewrite size_at_store_same by lia. intros Hz. now right.
    + destruct (Hnode a ltac:(now left)) as (A1 & A2 & A3 & A4).
      assert (Haptr : ptr < a) by (apply Hl2; now left).
      assert (Hblk : ptr - 8 + (h - 1) <= a - 8) by lia.
      assert (Hnext : match t2 with [] => load_word A m a = 0
                               | y :: _ => load_word A m a = y end).
      { cbn [free_chain] in Hfl. destruct Hfl as (_ & _ & _ & _ & _ & _ & A5).
        destruct t2 as [|a2 t2]; cbn [free_chain] in A5; [exact A5|]. tauto. }
      set (M := store_word A (store_word A (store_word A (store_word A m0 slo ptr)
                                                        (a + W) (ptr + W)) ptr a)
                           (ptr + W) 0).
      assert (SM : size_at A M ptr = h - 1).
      { unfold M, m0. rewrite !size_at_store_other by lia. apply size_at_store_same. lia. }
      assert (Saf : load_word A m a = 0 \/ ptr <= load_word A m a).
      { destruct t2 as [|a2 t2]; [now left|right]. rewrite Hnext.
        destruct (Hnode a2 ltac:(right; now left)). specialize (Hl2 a2 ltac:(right; now left)).
        lia. }
      assert (Hother : forall y, In y (a :: t2) ->
                size_at A (coalesced A M ptr (h - 1) a (size_at A m a) (load_word A m a)) y
                = size_at A m y).
      { intros y Hy. destruct (Hnode y Hy) as (Y1 & Y2 & Y3 & Y4).
        specialize (Hl2 y Hy).
        rewrite coalesced_header.
        - unfold M, m0.
          destruct (Hpair y a Hy ltac:(now left)) as [->|[?|?]];
            rewrite !size_at_store_other by lia; reflexivity.
        - lia.
        - destruct t2 as [|a2 t2]; [left; exact Hnext|right]. rewrite Hnext.
          destruct (Hnode a2 ltac:(right; now left)) as (Z1 & Z2 & Z3 & Z4).
          destruct (Hpair y a2 Hy ltac:(right; now left)) as [->|[?|?]]; lia. }
      intros x Hx z. cbn [app tl] in Hx. destruct Hx as [<-|Hx].
      * rewrite coalesced_size by first [exact SM | exact Saf | lia].
        destruct (Z.eqb_spec (a - 8) (ptr - 8 + (h - 1))) as [Eadj|Eadj]; intros Hz.
        -- destruct (Z.lt_ge_cases z (ptr - 8 + (h - 1))); [right; lia|].
           apply (Hself a ltac:(now left)). lia.
        -- right. lia.
      * assert (Hin : In x (a :: t2))
          by (destruct (a - 8 =? ptr - 8 + (h - 1)); [now right|exact Hx]).
        rewrite (Hother x Hin). apply Hself, Hin.
  - assert (Hb : exists k' b, x1 :: k = k' ++ [b]).
    { destruct (exists_last (l := x1 :: k) ltac:(discriminate)) as (k' & b & Ek).
      now exists k', b. }
    destruct Hb as (k' & b & Ek).
    assert (Elast : last (x1 :: k) 0 = b) by (rewrite Ek; apply last_last).
    rewrite Elast. rewrite Ek in *. clear Ek Elast x1 k.
    assert (Hbin : In b ((k' ++ [b]) ++ l2))
      by (apply in_or_app; left; apply in_or_app; right; now left).
    assert (Hbptr : b < ptr) by (apply Hl1; apply in_or_app; right; now left).
    destruct (Hnode b Hbin) as (B1 & B2 & B3 & B4).
    assert (Hbblk : b - 8 + size_at A m b <= ptr - 8) by lia.
    set (sb := size_at A m b) in *.
    destruct l2 as [|a t2].
    + cbn [app]. rewrite !app_nil_r in *.
      destruct (Z.eqb_spec (ptr - 8) (b - 8 + sb)) as [Em|Em]; cbn [app]; rewrite ?app_nil_r.
      * intros x Hx z.
        destruct (Hnode x Hx) as (X1 & X2 & X3 & X4).
        destruct (Hpair x b Hx Hbin) as [->|Hxb].
        -- rewrite !size_at_store_other by lia. rewrite size_at_store_same by lia.
           intros Hz. destruct (Z.lt_ge_cases z (b - 8 + sb)); [|right; lia].
           apply (Hself b Hbin). fold sb. lia.
        -- unfold m0. rewrite !size_at_store_other by lia. apply Hself, Hx.
      * intros x Hx z. apply in_app_or in Hx. destruct Hx as [Hx|[<-|[]]].
        -- destruct (Hnode x Hx) as (X1 & X2 & X3 & X4).
           unfold m0.
           destruct (Hpair x b Hx Hbin) as [->|Hxb];
             rewrite !size_at_store_other by lia; apply Hself; assumption.
        -- rewrite !size_at_store_other by lia. unfold m0.
           rewrite size_at_store_same by lia. intros Hz. now right.
    + assert (Hain : In a ((k' ++ [b]) ++ a :: t2)) by (apply in_or_app; right; now left).
      destruct (Hnode a Hain) as (A1 & A2 & A3 & A4).
      assert (Haptr : ptr < a) by (apply Hl2; now left).
      assert (Hblk : ptr - 8 + (h - 1) <= a - 8) by lia.
      assert (Ht2 : forall y, In y t2 -> In y ((k' ++ [b]) ++ a :: t2))
        by (intros y Hy; apply in_or_app; right; now right).
      assert (Hnext : match t2 with [] => load_word A m a = 0
                               | y :: _ => load_word A m a = y end).
      { rewrite <- app_assoc in Hfl. cbn [app] in Hfl.
        destruct (free_chain_split A _ _ _ _ _ _ _ _ H0 Hfl) as (low' & G1 & G2 & G3 & G4).
        cbn [free_chain] in G4. destruct G4 as (_ & _ & _ & _ & _ & _ & B5).
        cbn [free_chain] in B5. destruct B5 as (_ & _ & _ & _ & _ & _ & A5).
        destruct t2 as [|a2 t2]; cbn [free_chain] in A5; [exact A5|]. tauto. }
      assert (Saf : forall q, q <= ptr -> load_word A m a = 0 \/ q <= load_word A m a).
      { intros q Hq. destruct t2 as [|a2 t2]; [now left|right]. rewrite Hnext.
        specialize (Hl2 a2 ltac:(right; now left)). lia. }
      assert (Hafh : forall y, In y ((k' ++ [b]) ++ a :: t2) ->
                load_word A m a = 0 \/ y - 8 + W <= load_word A m a + W
                \/ load_word A m a + 2 * W <= y - 8).
      { intros y Hy. destruct t2 as [|a2 t2]; [left; exact Hnext|right]. rewrite Hnext.
        destruct (Hnode a2 (Ht2 a2 ltac:(now left))) as (Z1 & Z2 & Z3 & Z4).
        destruct (Hnode y Hy) as (Y1 & Y2 & Y3 & Y4).
        destruct (Hpair y a2 Hy (Ht2 a2 ltac:(now left))) as [->|[?|?]]; lia. }
      set (m1 := store_word A (store_word A (store_word A (store_word A m0 b ptr)
                                                         (a + W) (ptr + W)) ptr a)
                            (ptr + W) (b + W)).
      cbn [tl].
      destruct (Z.eqb_spec (ptr - 8) (b - 8 + sb)) as [Em|Em]; cbn [app].
      * set (Mb := store_word A (store_word A (store_word A m1 (b - 8) (sb + (h - 1))) b a)
                              (a + W) (b + W)).
        assert (SM : size_at A Mb b = sb + (h - 1)).
        { unfold Mb. rewrite !size_at_store_other by lia. apply size_at_store_same. lia. }
        assert (Hother : forall y, In y ((k' ++ [b]) ++ a :: t2) -> y <> b ->
                  size_at A (coalesced A Mb b (sb + (h - 1)) a (size_at A m a)
                                       (load_word A m a)) y
                  = size_at A m y).
        { intros y Hy Hyb. destruct (Hnode y Hy) as (Y1 & Y2 & Y3 & Y4).
          rewrite coalesced_header.
          - unfold Mb, m1, m0.
            destruct (Hpair y b Hy Hbin) as [?|Hyb']; [congruence|].
            destruct (Hpair y a Hy Hain) as [->|[?|?]];
              rewrite !size_at_store_other by lia; reflexivity.
          - destruct (Hpair y b Hy Hbin) as [?|Hyb']; [congruence|]. lia.
          - apply Hafh, Hy. }
        intros x Hx z.
        assert (Hin : In x ((k' ++ [b]) ++ a :: t2)).
        { apply in_app_or in Hx. apply in_or_app. destruct Hx as [Hx|Hx]; [now left|right].
          destruct (a - 8 =? ptr - 8 + (h - 1)); [now right|exact Hx]. }
        destruct (Z.eq_dec x b) as [->|Hxb].
        -- rewrite coalesced_size by first [exact SM | apply Saf; lia | lia].
           replace (a - 8 =? b - 8 + (sb + (h - 1))) with (a - 8 =? ptr - 8 + (h - 1))
             by (f_equal; lia).
           destruct (Z.eqb_spec (a - 8) (ptr - 8 + (h - 1))) as [Eadj|Eadj]; intros Hz.
           ++ destruct (Z.lt_ge_cases z (b - 8 + sb)); [apply (Hself b Hbin); fold sb; lia|].
              destruct (Z.lt_ge_cases z (ptr - 8 + (h - 1))); [right; lia|].
              apply (Hself a Hain). lia.
           ++ destruct (Z.lt_ge_cases z (b - 8 + sb)); [apply (Hself b Hbin); fold sb; lia|].
              right. lia.
        -- rewrite (Hother x Hin Hxb). apply Hself, Hin.
      * assert (SM : size_at A m1 ptr = h - 1).
        { unfold m1, m0. rewrite !size_at_store_other by lia. apply size_at_store_same. lia. }
        assert (Hother : forall y, In y ((k' ++ [b]) ++ a :: t2) ->
                  size_at A (coalesced A m1 ptr (h - 1) a (size_at A m a)
                                       (load_word A m a)) y
                  = size_at A m y).
        { intros y Hy. destruct (Hnode y Hy) as (Y1 & Y2 & Y3 & Y4).
          rewrite coalesced_header.
          - unfold m1, m0.
            pose proof (Hpair y b Hy Hbin) as Pb. pose proof (Hpair y a Hy Hain) as Pa.
            fold sb in Pb. rewrite !size_at_store_other by lia. reflexivity.
          - lia.
          - apply Hafh, Hy. }
        intros x Hx z. apply in_app_or in Hx. destruct Hx as [Hx|[<-|Hx]].
        -- assert (Hin : In x ((k' ++ [b]) ++ a :: t2)) by (apply in_or_app; now left).
           rewrite (Hother x Hin). apply Hself, Hin.
        -- rewrite coalesced_size by first [exact SM | apply Saf; lia | lia].
           destruct (Z.eqb_spec (a - 8) (ptr - 8 + (h - 1))) as [Eadj|Eadj]; intros Hz.
           ++ destruct (Z.lt_ge_cases z (ptr - 8 + (h - 1))); [right; lia|].
              apply (Hself a Hain). lia.
           ++ right. lia.
        -- assert (Hin : In x ((k' ++ [b]) ++ a :: t2)).
           { apply in_or_app. right.
             destruct (a - 8 =? ptr - 8 + (h - 1)); [now right|exact Hx]. }
           rewrite (Hother x Hin). apply Hself, Hin.
Qed.


(** X11 — [mm_free] keeps the free list well formed: on a well-formed
    heap, freeing an allocated block returns, leaves the bounds of the heap
    as they were, and leaves a well-formed free list (address order, sizes,
    backward links): the list it had, with the block inserted at its place
    in address order, merged with the free block that ends where it starts
    and with the one that starts where it ends. *)
Theorem free_keeps_free_list md fuel st l ptr :
  heap_ok A st -> free_list A st l -> allocated_at A st l ptr ->
  (length l < fuel)%nat ->
  exists st' l1 l2,
    l = l1 ++ l2 /\ (forall x, In x l1 -> x < ptr) /\ (forall x, In x l2 -> ptr < x) /\
    mm_free A md fuel ptr st = Ok tt st' /\
    lo st' = lo st /\ brk st' = brk st /\ limit st' = limit st /\
    heap_ok A st' /\
    free_list A st' (freed_list A (bytes st) ptr l1 l2).
Proof.
  intros Hok Hfl Hal Hfuel.
  destruct (allocated_partition A st l ptr Hok Hfl Hal) as (l1 & l2 & -> & H1 & H2).
  exists (set_bytes st (freed A (bytes st) (lo st) ptr l1 l2)), l1, l2.
  split; [reflexivity|]. split; [exact H1|]. split; [exact H2|]. split.
  - apply mm_free_run; try assumption. rewrite length_app in Hfuel. lia.
  - cbn [lo brk limit set_bytes]. repeat split.
    + destruct Hok; assumption.
    + destruct Hok; assumption.
    + destruct Hok; assumption.
    + destruct Hok; assumption.
    + now apply freed_chain.
Qed.

(** X12 — [mm_free] leaves the other allocated blocks alone: a block that
    is allocated, apart from the block freed, keeps every byte, is still
    allocated after the call, and lies apart from every block of the new
    free list. *)
Theorem free_keeps_allocated_blocks md fuel st l ptr p :
  heap_ok A st -> free_list A st l ->
  allocated_at A st l ptr -> allocated_at A st l p ->
  (p - 8 + (size_at A (bytes st) p - 1) <= ptr - 8
   \/ ptr - 8 + (size_at A (bytes st) ptr - 1) <= p - 8) ->
  (length l < fuel)%nat ->
  exists st' l',
    mm_free A md fuel ptr st = Ok tt st' /\
    heap_ok A st' /\ free_list A st' l' /\ allocated_at A st' l' p /\
    forall z, p - 8 <= z < p - 8 + (size_at A (bytes st) p - 1) -> bytes st' z = bytes st z.
Proof.
  intros Hok Hfl Hal Hp Hapart2 Hfuel.
  pose proof Hok as [Hlo Hbrk Hlim Hmod]. pose proof (sizeof_ptr_cases A) as HW.
  destruct (allocated_partition A st l ptr Hok Hfl Hal) as (l1 & l2 & -> & H1 & H2).
  pose proof (freed_chain st ptr l1 l2 Hok Hfl Hal H1 H2) as Hchain.
  pose proof (freed_blocks st ptr l1 l2 Hok Hfl Hal H1 H2) as Hcover.
  pose proof (freed_frame A st ptr l1 l2 Hok Hfl) as Hframe.
  pose proof Hal as [Qflag Qsize Qlow Qtop Qapart].
  destruct Hp as [Pflag Psize Plow Ptop Papart]. unfold min_block in *.
  set (m' := freed A (bytes st) (lo st) ptr l1 l2) in *.
  set (cs := size_at A (bytes st) p - 1) in *.
  assert (Hnode : forall x, In x (l1 ++ l2) ->
            8 + 2 * W <= size_at A (bytes st) x).
  { intros x Hx. destruct (free_chain_in A _ _ _ _ _ _ _ Hfl Hx) as (_ & B2 & _).
    unfold min_block in B2. lia. }
  assert (Hsame : forall z, p - 8 <= z < p - 8 + cs -> m' z = bytes st z).
  { intros z Hz. apply Hframe. intros [H|[H|(x & Hx & H)]]; [lia|lia|].
    specialize (Hnode x Hx). destruct (Papart x Hx); lia. }
  assert (Eh : size_at A m' p = size_at A (bytes st) p).
  { unfold size_at. apply load_word_ext. intros z Hz. apply Hsame. lia. }
  assert (Hout : forall z, p - 8 <= z < p - 8 + cs ->
            ~ (in_free_block A (bytes st) (l1 ++ l2) z
               \/ ptr - 8 <= z < ptr - 8 + (size_at A (bytes st) ptr - 1))).
  { intros z Hz [(x & Hx & Hxz)|H]; [|lia]. destruct (Papart x Hx); lia. }
  exists (set_bytes st m'), (freed_list A (bytes st) ptr l1 l2).
  split; [apply mm_free_run; try assumption; rewrite length_app in Hfuel; lia|].
  split; [constructor; cbn [lo brk limit set_bytes]; assumption|].
  split; [exact Hchain|]. split; [|exact Hsame].
  constructor; cbn [lo brk limit bytes set_bytes]; rewrite ?Eh; fold cs;
    unfold min_block; try assumption.
  intros x Hx.
  unfold free_list in Hchain. cbn [lo brk limit bytes set_bytes] in Hchain.
  destruct (free_chain_in A _ _ _ _ _ _ _ Hchain Hx) as (C1 & C2 & C3).
  unfold min_block in C2. fold m' in C2, C3.
  destruct (Z.lt_ge_cases (x - 8) (p - 8)) as [Hlt|Hge].
  - left. destruct (Z.le_gt_cases (x - 8 + size_at A m' x) (p - 8)) as [?|Hover]; [assumption|].
    exfalso. apply (Hout (p - 8)); [lia|]. apply (Hcover x Hx). lia.
  - right. destruct (Z.le_gt_cases (p - 8 + cs) (x - 8)) as [?|Hin]; [assumption|].
    exfalso. apply (Hout (x - 8)); [lia|]. apply (Hcover x Hx). lia.
Qed.

End FreeKeeps.

(** ** More on [mm_realloc] *)

Section ReallocMore.

Variable A : abi.
Variable md : mode.

Local Abbreviation W := (sizeof_ptr A).
Local Abbreviation MOD := (word_mod A).

(** What the links of a block of the list hold. *)
Lemma free_chain_links st l1 a l2 :
  heap_ok A st -> free_list A st (l1 ++ a :: l2) ->
  lo st + W + 8 <= a /\ 8 + 2 * W <= size_at A (bytes st) a /\
  a - 8 + size_at A (bytes st) a <= brk st /\ size_at A (bytes st) a mod 2 = 0 /\
  load_word A (bytes st) a = hd 0 l2 /\
  load_word A (bytes st) (a + W) = (match l1 with [] => 0 | _ => last l1 0 + W end) /\
  (forall y, In y l2 -> a - 8 + size_at A (bytes st) a + 8 <= y /\
                        8 + 2 * W <= size_at A (bytes st) y /\
                        y - 8 + size_at A (bytes st) y <= brk st) /\
  (forall y, In y l1 -> lo st + W + 8 <= y /\ 8 + 2 * W <= size_at A (bytes st) y /\
                        y - 8 + size_at A (bytes st) y <= a - 8) /\
  free_chain A (bytes st) (a - 8 + size_at A (bytes st) a) a (hd 0 l2) (brk st) l2.
Proof.
  intros [Hlo Hbrk Hlim Hmod] Hfl. pose proof (sizeof_ptr_cases A) as HW.
  unfold free_list in Hfl. assert (H0 : 0 <= lo st + W) by lia.
  destruct (free_chain_apart A _ _ _ _ _ _ _ _ H0 Hfl) as (P1 & P2 & P3 & P4 & P5 & P6).
  destruct (free_chain_split A _ _ _ _ _ _ _ _ H0 Hfl) as (low' & G1 & G2 & G3 & G4).
  cbn [free_chain] in G4. destruct G4 as (_ & K1 & Kev & K2 & K3 & K4 & K5).
  unfold min_block in *.
  assert (Ef : load_word A (bytes st) a = hd 0 l2).
  { destruct l2 as [|y l2]; cbn [free_chain hd] in *; [exact K5|tauto]. }
  split; [lia|]. split; [lia|]. split; [lia|]. split; [exact Kev|]. split; [exact Ef|].
  split.
  - rewrite K4. destruct l1 as [|x l1]; [reflexivity|].
    assert (Hin : In (last (x :: l1) 0) (x :: l1)) by (apply last_in; discriminate).
    destruct (P1 _ Hin) as (? & ? & ?).
    replace (last (x :: l1) 0 =? 0) with false by (symmetry; apply Z.eqb_neq; lia).
    reflexivity.
  - split; [intros y Hy; destruct (P2 y Hy) as (? & ? & ?); lia|].
    split; [intros y Hy; destruct (P1 y Hy) as (? & ? & ?); lia|].
    rewrite <- Ef. exact K5.
Qed.



(** [realloc_absorb] on a well-formed heap. *)
Lemma realloc_absorb_run st l1 a l2 ptr cs :
  heap_ok A st -> free_list A st (l1 ++ a :: l2) ->
  lo st + W <= ptr - 8 -> a - 8 = ptr - 8 + cs -> 0 <= cs ->
  realloc_absorb A md ptr cs (a - 8) (size_at A (bytes st) a) st
  = Ok tt (set_bytes st (grown_absorb A (bytes st) (lo st) ptr cs a)).
Proof.
  intros Hok Hfl Hlow Hnext Hcs.
  destruct (free_chain_links st l1 a l2 Hok Hfl) as (L1 & L2 & L3 & L4 & L5 & L6 & L7 & L8 & _).
  destruct Hok as [Hlo Hbrk Hlim Hmod]. pose proof (sizeof_ptr_cases A) as HW.
  set (nbs := size_at A (bytes st) a) in *.
  unfold realloc_absorb, grown_absorb. cbv zeta. fold nbs.
  change BLOCK_PAYLOAD with BLOCK_FORWARD.
  rewrite (mp_hdr_fwd A (a - 8) nbs) by lia. rewrite (mp_hdr_bwd A (a - 8) nbs) by lia.
  replace (a - 8 + 8) with a by lia.
  rewrite bind_load by bounds. rewrite bind_load by bounds.
  set (nf := load_word A (bytes st) a) in *.
  set (nb := load_word A (bytes st) (a + W)) in *.
  rewrite (mp_fwd_hdr A ptr 0) by lia.
  rewrite (wrap_small A (cs + nbs + 1)) by lia.
  ms.
  assert (Hnf : nf = 0 \/ (a - 8 + nbs + 8 <= nf /\ nf + 2 * W <= brk st)).
  { rewrite L5. destruct l2 as [|y l2]; [now left|right]. cbn [hd].
    destruct (L7 y (or_introl eq_refl)) as (? & ? & ?). lia. }
  assert (Hnb : nb = 0 \/ (lo st + 2 * W + 8 <= nb /\ nb + W <= a - 8)).
  { rewrite L6. destruct l1 as [|x l1]; [now left|right].
    assert (Hin : In (last (x :: l1) 0) (x :: l1)) by (apply last_in; discriminate).
    destruct (L8 _ Hin) as (? & ? & ?). lia. }
  unfold NULL.
  destruct (Z.eqb_spec nf 0) as [Enf|Enf]; cbn [negb].
  - rewrite bind_ret.
    destruct (Z.eqb_spec nb 0) as [Enb|Enb]; cbn [negb].
    + rewrite bind_heap_lo. heap_simpl. unfold store, access_ok.
      replace (match md with Strict => in_heap _ _ _ | Flat _ => true end) with true;
        [reflexivity|].
      destruct md; [|reflexivity]. unfold in_heap. heap_simpl. symmetry.
      apply andb_true_intro. split; apply Z.leb_le; lia.
    + rewrite (mp_bwd_fwd A nb 0) by lia. unfold store, access_ok.
      replace (match md with Strict => in_heap _ _ _ | Flat _ => true end) with true;
        [reflexivity|].
      destruct md; [|reflexivity]. unfold in_heap. heap_simpl. symmetry.
      apply andb_true_intro. split; apply Z.leb_le; lia.
  - destruct Hnf as [?|Hnf]; [contradiction|].
    rewrite (mp_fwd_bwd A nf) by lia.
    rewrite bind_store by bounds. unfold set_bytes. heap_simpl.
    destruct (Z.eqb_spec nb 0) as [Enb|Enb]; cbn [negb].
    + rewrite bind_heap_lo. heap_simpl. unfold store, access_ok.
      replace (match md with Strict => in_heap _ _ _ | Flat _ => true end) with true;
        [reflexivity|].
      destruct md; [|reflexivity]. unfold in_heap. heap_simpl. symmetry.
      apply andb_true_intro. split; apply Z.leb_le; lia.
    + rewrite (mp_bwd_fwd A nb 0) by lia. unfold store, access_ok.
      replace (match md with Strict => in_heap _ _ _ | Flat _ => true end) with true;
        [reflexivity|].
      destruct md; [|reflexivity]. unfold in_heap. heap_simpl. symmetry.
      apply andb_true_intro. split; apply Z.leb_le; lia.
Qed.

(** The start of [mm_realloc], up to the choice between splitting and
    absorbing the free block that follows. *)
Lemma mm_realloc_grows fuel st l1 a l2 ptr n :
  heap_ok A st -> free_list A st (l1 ++ a :: l2) ->
  allocated_at A st (l1 ++ a :: l2) ptr ->
  a - 8 = ptr - 8 + (size_at A (bytes st) ptr - 1) ->
  0 < n < 2 ^ 31 ->
  size_at A (bytes st) ptr - 1 < ALIGN A (n + 8) ->
  ALIGN A (n + 8) - (size_at A (bytes st) ptr - 1) <= size_at A (bytes st) a ->
  mm_realloc A md fuel ptr n st
  = ((if wrap A (to_int (size_at A (bytes st) a
                         - (ALIGN A (n + 8) - (size_at A (bytes st) ptr - 1))))
         >=? 8 + 2 * W
      then realloc_split A md ptr (ALIGN A (n + 8)) (size_at A (bytes st) ptr - 1)
                         (a - 8) (size_at A (bytes st) a)
      else realloc_absorb A md ptr (size_at A (bytes st) ptr - 1)
                          (a - 8) (size_at A (bytes st) a)) ;;;
     ret ptr) st.
Proof.
  intros Hok Hfl [Hflag Hsize Hlow Htop Hapart] Hnext Hn Hgrow Hroom.
  destruct (free_chain_links st l1 a l2 Hok Hfl) as (L1 & L2 & L3 & L4 & _).
  destruct Hok as [Hlo Hbrk Hlim Hmod].
  pose proof (sizeof_ptr_cases A) as HW. pose proof (word_mod_big A) as HM.
  change (2 ^ 31) with 2147483648 in Hn. change (2 ^ 32) with 4294967296 in HM.
  unfold min_block in Hsize.
  pose proof (load_word_range A (bytes st) (ptr - 8)) as Hh.
  change (load_word A (bytes st) (ptr - 8)) with (size_at A (bytes st) ptr) in Hh.
  set (h := size_at A (bytes st) ptr) in *.
  set (nbs := size_at A (bytes st) a) in *.
  destruct (ALIGN_bounds A (n + 8) ltac:(lia) ltac:(lia)) as (Ha1 & Ha2).
  set (asked := ALIGN A (n + 8)) in *.
  unfold mm_realloc.
  replace (ptr =? NULL) with false by (unfold NULL; eqb_false).
  replace (n =? 0) with false by eqb_false.
  rewrite SIZE_T_SIZE_eq. rewrite (wrap_small A (n + 8)) by lia. fold asked.
  cbv zeta. change BLOCK_PAYLOAD with BLOCK_FORWARD.
  rewrite (mp_fwd_hdr A ptr 0) by lia.
  rewrite bind_load by bounds.
  change (load_word A (bytes st) (ptr - 8)) with h.
  rewrite (wrap_small A (h - 1)) by lia.
  replace (asked <=? h - 1) with false by (symmetry; apply Z.leb_gt; lia).
  rewrite (mp_fwd_end A ptr (h - 1)) by lia. rewrite <- Hnext.
  rewrite bind_load by bounds.
  change (load_word A (bytes st) (a - 8)) with nbs.
  rewrite bind_heap_hi.
  rewrite (wrap_small A (brk st - 1)) by lia.
  replace (brk st - 1 + 1) with (brk st) by lia.
  rewrite (wrap_small A (brk st)) by lia.
  replace (h - 1 <? asked) with true by (symmetry; apply Z.ltb_lt; lia).
  replace (a - 8 =? brk st) with false by (symmetry; apply Z.eqb_neq; lia).
  rewrite land_1, L4. cbn [negb andb Z.eqb].
  rewrite (wrap_small A (asked - (h - 1))) by lia.
  replace (asked - (h - 1) <=? nbs) with true by (symmetry; apply Z.leb_le; lia).
  rewrite (wrap_small A (nbs - (asked - (h - 1)))) by lia.
  rewrite bind_assoc. unfold bind.
  destruct (wrap A (to_int (nbs - (asked - (h - 1)))) >=? 8 + 2 * W).
  - destruct (realloc_split A md ptr asked (h - 1) (a - 8) nbs st); reflexivity.
  - destruct (realloc_absorb A md ptr (h - 1) (a - 8) nbs st); reflexivity.
Qed.


(** The link slots that growing in place writes belong to blocks of the
    list. *)
Lemma link_targets st l1 a l2 :
  heap_ok A st -> free_list A st (l1 ++ a :: l2) ->
  (load_word A (bytes st) a = 0 \/ In (load_word A (bytes st) a) (l1 ++ l2)) /\
  (load_word A (bytes st) (a + W) = 0 \/
   exists b, In b (l1 ++ l2) /\ load_word A (bytes st) (a + W) = b + W /\ 8 <= b).
Proof.
  intros Hok Hfl.
  destruct (free_chain_links st l1 a l2 Hok Hfl) as (L1 & L2 & L3 & L4 & L5 & L6 & L7 & L8 & _).
  destruct Hok as [Hlo Hbrk Hlim Hmod]. pose proof (sizeof_ptr_cases A) as HW.
  split.
  - rewrite L5. destruct l2 as [|y t]; [now left|right].
    apply in_or_app. right. now left.
  - rewrite L6. destruct l1 as [|x k]; [now left|right].
    assert (Hin : In (last (x :: k) 0) (x :: k)) by (apply last_in; discriminate).
    exists (last (x :: k) 0). split; [apply in_or_app; now left|].
    split; [reflexivity|]. destruct (L8 _ Hin) as (? & ? & ?). lia.
Qed.


(** What [grown_absorb] leaves as it was. *)
Lemma grown_absorb_other st l1 a l2 ptr cs z :
  heap_ok A st -> free_list A st (l1 ++ a :: l2) ->
  ~ (lo st <= z < lo st + W) -> ~ (ptr - 8 <= z < ptr - 8 + W) ->
  (forall y, In y (l1 ++ l2) -> ~ (y <= z < y + 2 * W)) ->
  grown_absorb A (bytes st) (lo st) ptr cs a z = bytes st z.
Proof.
  intros Hok Hfl Z1 Z2 Z4.
  destruct (link_targets st l1 a l2 Hok Hfl) as (Hnf & Hnb).
  pose proof (sizeof_ptr_cases A) as HW.
  unfold grown_absorb. cbv zeta.
  set (nf := load_word A (bytes st) a) in *.
  set (nb := load_word A (bytes st) (a + W)) in *.
  assert (Hz2 : (if nf =? 0
                 then store_word A (bytes st) (ptr - 8) (cs + size_at A (bytes st) a + 1)
                 else store_word A (store_word A (bytes st) (ptr - 8)
                                               (cs + size_at A (bytes st) a + 1))
                                  (nf + W) nb) z = bytes st z).
  { destruct (Z.eqb_spec nf 0) as [E|E]; [now rewrite store_word_other by lia|].
    destruct Hnf as [?|Hnf]; [contradiction|]. pose proof (Z4 _ Hnf).
    rewrite !store_word_other by lia. reflexivity. }
  destruct (Z.eqb_spec nb 0) as [E|E].
  - rewrite store_word_other by lia. exact Hz2.
  - destruct Hnb as [?|(b & Hb & Eb & Hb8)]; [contradiction|]. pose proof (Z4 _ Hb).
    rewrite store_word_other by lia. exact Hz2.
Qed.

(** The blocks of the list other than [a], and their link slots. *)
Lemma list_blocks_apart st l1 a l2 ptr :
  heap_ok A st -> free_list A st (l1 ++ a :: l2) ->
  allocated_at A st (l1 ++ a :: l2) ptr ->
  a - 8 = ptr - 8 + (size_at A (bytes st) ptr - 1) ->
  forall y, In y (l1 ++ l2) ->
    lo st + W + 8 <= y /\ 8 + 2 * W <= size_at A (bytes st) y /\
    y - 8 + size_at A (bytes st) y <= brk st /\
    (y - 8 + size_at A (bytes st) y <= ptr - 8 \/
     a - 8 + size_at A (bytes st) a <= y - 8) /\
    size_at A (bytes st) y mod 2 = 0 /\
    forall y', In y' (l1 ++ l2) ->
      y' = y \/ y' - 8 + size_at A (bytes st) y' <= y - 8
      \/ y - 8 + size_at A (bytes st) y <= y' - 8.
Proof.
  intros Hok Hfl [Hflag Hsize Hlow Htop Hapart] Hnext y Hy.
  destruct (free_chain_links st l1 a l2 Hok Hfl) as (L1 & L2 & L3 & L4 & L5 & L6 & L7 & L8 & _).
  pose proof Hok as [Hlo Hbrk Hlim Hmod]. pose proof (sizeof_ptr_cases A) as HW.
  assert (H0 : 0 <= lo st + W) by lia.
  assert (Hin : forall x, In x (l1 ++ l2) -> In x (l1 ++ a :: l2)).
  { intros x Hx. apply in_app_or in Hx. apply in_or_app.
    destruct Hx; [now left|right; now right]. }
  unfold free_list in Hfl.
  destruct (free_chain_apart A _ _ _ _ _ _ _ _ H0 Hfl) as (P1 & P2 & _).
  assert (Hev : size_at A (bytes st) y mod 2 = 0).
  { destruct (in_split _ _ (Hin y Hy)) as (k1 & k2 & Ek). rewrite Ek in Hfl.
    now destruct (free_chain_apart A _ _ _ _ _ _ _ _ H0 Hfl) as (_ & _ & _ & _ & _ & ?). }
  unfold min_block in *.
  assert (Hb : lo st + W + 8 <= y /\ 8 + 2 * W <= size_at A (bytes st) y /\
               y - 8 + size_at A (bytes st) y <= brk st /\
               (y - 8 + size_at A (bytes st) y <= ptr - 8 \/
                a - 8 + size_at A (bytes st) a <= y - 8)).
  { pose proof (Hapart y (Hin y Hy)) as Hp.
    apply in_app_or in Hy. destruct Hy as [Hy|Hy].
    - destruct (L8 y Hy) as (? & ? & ?). destruct (P1 y Hy) as (? & ? & ?). lia.
    - destruct (L7 y Hy) as (? & ? & ?). lia. }
  destruct Hb as (B1 & B2 & B3 & B4).
  split; [exact B1|]. split; [exact B2|]. split; [exact B3|]. split; [exact B4|].
  split; [exact Hev|].
  intros y' Hy'.
  exact (free_chain_pairwise A _ _ _ _ _ _ y' y H0 Hfl (Hin y' Hy') (Hin y Hy)).
Qed.

(** The free list once a block has grown over the whole free block after
    it, when that block was not the first of the list. *)
Lemma grown_absorb_chain st k b a l2 ptr :
  heap_ok A st -> free_list A st ((k ++ [b]) ++ a :: l2) ->
  allocated_at A st ((k ++ [b]) ++ a :: l2) ptr ->
  a - 8 = ptr - 8 + (size_at A (bytes st) ptr - 1) ->
  free_list A (set_bytes st (grown_absorb A (bytes st) (lo st) ptr
                                          (size_at A (bytes st) ptr - 1) a))
            ((k ++ [b]) ++ l2).
Proof.
  intros Hok Hfl Hal Hnext.
  destruct (free_chain_links st _ a l2 Hok Hfl) as (L1 & L2 & L3 & L4 & L5 & L6 & L7 & L8 & L9).
  pose proof Hal as [Hflag Hsize Hlow Htop Hapart].
  pose proof Hok as [Hlo Hbrk Hlim Hmod]. pose proof (sizeof_ptr_cases A) as HW.
  unfold min_block in *.
  assert (H0 : 0 <= lo st + W) by lia.
  assert (Hbin : In b (k ++ [b])) by (apply in_or_app; right; now left).
  destruct (L8 b Hbin) as (B1 & B2 & B3).
  assert (Hbp : b - 8 + size_at A (bytes st) b <= ptr - 8).
  { destruct (Hapart b ltac:(apply in_or_app; now left)); lia. }
  assert (Enb : load_word A (bytes st) (a + W) = b + W).
  { rewrite L6. destruct (k ++ [b]) eqn:E; [now destruct k|].
    rewrite <- E, last_last. reflexivity. }
  set (cs := size_at A (bytes st) ptr - 1) in *.
  set (nbs := size_at A (bytes st) a) in *.
  unfold free_list in *. cbn [lo brk limit bytes set_bytes].
  set (m' := grown_absorb A (bytes st) (lo st) ptr cs a) in *.
  assert (Hnf : hd 0 l2 = 0 \/ (a - 8 + nbs + 8 <= hd 0 l2 /\ hd 0 l2 + 2 * W <= brk st)).
  { destruct l2 as [|y t]; [now left|right]. cbn [hd].
    destruct (L7 y (or_introl eq_refl)) as (? & ? & ?). lia. }
  assert (Hfr : forall z, z < b - 8 -> m' z = bytes st z).
  { intros z Hz. unfold m', grown_absorb. cbv zeta. fold nbs. rewrite L5, Enb.
    replace (b + W =? 0) with false by (symmetry; apply Z.eqb_neq; lia).
    replace (b + W - W) with b by lia.
    rewrite store_word_other by lia.
    destruct (Z.eqb_spec (hd 0 l2) 0) as [E|E]; rewrite !store_word_other by lia;
      reflexivity. }
  assert (Hfrb : forall z, b - 8 <= z -> ~ (b <= z < b + W) -> ~ (ptr - 8 <= z < ptr - 8 + W) ->
                           ~ (hd 0 l2 <> 0 /\ hd 0 l2 + W <= z < hd 0 l2 + 2 * W) ->
                           m' z = bytes st z).
  { intros z Hz Z1 Z2 Z3. unfold m', grown_absorb. cbv zeta. fold nbs. rewrite L5, Enb.
    replace (b + W =? 0) with false by (symmetry; apply Z.eqb_neq; lia).
    replace (b + W - W) with b by lia.
    rewrite store_word_other by lia.
    destruct (Z.eqb_spec (hd 0 l2) 0) as [E|E]; rewrite !store_word_other by lia;
      reflexivity. }
  assert (Fb : load_word A m' b = hd 0 l2).
  { unfold m', grown_absorb. cbv zeta. fold nbs. rewrite L5, Enb.
    replace (b + W =? 0) with false by (symmetry; apply Z.eqb_neq; lia).
    replace (b + W - W) with b by lia.
    apply load_store_same. pose proof (load_word_range A (bytes st) a) as R.
    rewrite L5 in R. exact R. }
  assert (Bn : hd 0 l2 <> 0 -> load_word A m' (hd 0 l2 + W) = b + W).
  { intros E. unfold m', grown_absorb. cbv zeta. fold nbs. rewrite L5, Enb.
    replace (b + W =? 0) with false by (symmetry; apply Z.eqb_neq; lia).
    replace (b + W - W) with b by lia.
    replace (hd 0 l2 =? 0) with false by (symmetry; now apply Z.eqb_neq).
    rewrite load_store_other by lia. apply load_store_same. lia. }
  rewrite (load_below A (bytes st) m' (lo st) (b - 8) Hfr) by lia.
  apply (free_chain_prefix A (bytes st) m' (brk st) b l2 k _ _ _ (a :: l2) Hfl H0 Hfr).
  intros lowb Hlb.
  destruct (free_chain_split A _ _ _ _ _ _ _ _ H0
              (eq_rect _ (fun l => free_chain A (bytes st) (lo st + W) 0
                                              (load_word A (bytes st) (lo st)) (brk st) l)
                       Hfl _ (eq_sym (app_assoc k [b] (a :: l2)))))
    as (low' & G1 & G2 & G3 & G4).
  cbn [app free_chain] in G4. destruct G4 as (_ & K1 & Kev & K2 & K3 & K4 & _).
  assert (Sb : size_at A m' b = size_at A (bytes st) b).
  { unfold size_at. apply load_word_ext. intros z Hz. apply Hfrb; lia. }
  assert (Bb : load_word A m' (b + W) = load_word A (bytes st) (b + W)).
  { apply load_word_ext. intros z Hz. apply Hfrb; lia. }
  cbn [free_chain]. rewrite Sb, Bb, Fb. unfold min_block.
  split; [reflexivity|]. split; [lia|]. split; [exact Kev|]. split; [lia|].
  split; [lia|]. split; [exact K4|].
  apply (free_chain_relink A (bytes st) m' (brk st) (a - 8 + nbs) a (hd 0 l2) l2); [exact L9|].
  destruct l2 as [|y t]; [exact I|]. cbn [hd] in *.
  destruct (L7 y (or_introl eq_refl)) as (Y1 & Y2 & Y3).
  split; [lia|]. split.
  - intros z Hz Hnz. apply Hfrb; lia.
  - rewrite Bn by lia.
    replace (b =? 0) with false by (symmetry; apply Z.eqb_neq; lia). reflexivity.
Qed.

(** The addresses outside the list-head slot, the header of [ptr] and the
    free blocks are outside everything growing in place may write. *)
Lemma outside_free_blocks st l1 a l2 ptr z :
  heap_ok A st -> free_list A st (l1 ++ a :: l2) ->
  allocated_at A st (l1 ++ a :: l2) ptr ->
  a - 8 = ptr - 8 + (size_at A (bytes st) ptr - 1) ->
  ~ in_free_block A (bytes st) (l1 ++ a :: l2) z ->
  ~ (a - 8 <= z < a - 8 + size_at A (bytes st) a) /\
  forall y, In y (l1 ++ l2) -> ~ (y <= z < y + 2 * W).
Proof.
  intros Hok Hfl Hal Hnext Hz. split.
  - intros Hin. apply Hz. exists a. split; [apply in_or_app; right; now left|exact Hin].
  - intros y Hy Hin.
    destruct (list_blocks_apart st l1 a l2 ptr Hok Hfl Hal Hnext y Hy) as (Y1 & Y2 & _).
    apply Hz. exists y. split; [|lia].
    apply in_app_or in Hy. apply in_or_app. destruct Hy; [now left|right; now right].
Qed.


(** X14 — When the block after [ptr] is free and what would be left of
    it is too small for a free block, [mm_realloc] gives the whole of it
    to [ptr] and returns [ptr].  The free block leaves the list when it
    was not its first block; when it was the first, the list head is set
    to [NULL], so the list is empty whatever followed: the blocks that
    followed keep their headers, free, and are on no list. *)
Theorem realloc_grows_by_absorb fuel st l1 a l2 ptr n :
  heap_ok A st -> free_list A st (l1 ++ a :: l2) ->
  allocated_at A st (l1 ++ a :: l2) ptr ->
  a - 8 = ptr - 8 + (size_at A (bytes st) ptr - 1) ->
  0 < n < 2 ^ 31 ->
  size_at A (bytes st) ptr - 1 < ALIGN A (n + 8) ->
  ALIGN A (n + 8) - (size_at A (bytes st) ptr - 1) <= size_at A (bytes st) a ->
  size_at A (bytes st) a - (ALIGN A (n + 8) - (size_at A (bytes st) ptr - 1))
  < min_block A ->
  exists st',
    mm_realloc A md fuel ptr n st = Ok ptr st' /\
    lo st' = lo st /\ brk st' = brk st /\ limit st' = limit st /\
    size_at A (bytes st') ptr
    = size_at A (bytes st) ptr - 1 + size_at A (bytes st) a + 1 /\
    free_list A st' (match l1 with [] => [] | _ => l1 ++ l2 end) /\
    allocated_at A st' (l1 ++ l2) ptr /\
    (forall y, In y (l1 ++ l2) -> size_at A (bytes st') y = size_at A (bytes st) y) /\
    forall z, ~ (lo st <= z < lo st + W) -> ~ (ptr - 8 <= z < ptr - 8 + W) ->
              ~ in_free_block A (bytes st) (l1 ++ a :: l2) z ->
              bytes st' z = bytes st z.
Proof.
  intros Hok Hfl Hal Hnext Hn Hgrow Hroom Hrem.
  destruct (free_chain_links st l1 a l2 Hok Hfl) as (L1 & L2 & L3 & L4 & L5 & L6 & _).
  destruct (link_targets st l1 a l2 Hok Hfl) as (Hnf & Hnb).
  pose proof Hal as [Hflag Hsize Hlow Htop Hapart].
  pose proof Hok as [Hlo Hbrk Hlim Hmod].
  pose proof (sizeof_ptr_cases A) as HW. pose proof (word_mod_big A) as HM.
  change (2 ^ 31) with 2147483648 in *. change (2 ^ 32) with 4294967296 in HM.
  unfold min_block in *.
  destruct (ALIGN_bounds A (n + 8) ltac:(lia) ltac:(lia)) as (Ha1 & Ha2).
  pose proof (odd_pred _ Hflag) as Hcs_even.
  rewrite (mm_realloc_grows fuel st l1 a l2 ptr n Hok Hfl Hal Hnext) by lia.
  set (asked := ALIGN A (n + 8)) in *.
  set (cs := size_at A (bytes st) ptr - 1) in *.
  set (nbs := size_at A (bytes st) a) in *.
  rewrite to_int_small by (change (2 ^ 31) with 2147483648; lia).
  rewrite (wrap_small A (nbs - (asked - cs))) by lia.
  replace (nbs - (asked - cs) >=? 8 + 2 * W) with false
    by (symmetry; rewrite Z.geb_leb; apply Z.leb_gt; lia).
  unfold bind at 1.
  pose proof (realloc_absorb_run st l1 a l2 ptr cs Hok Hfl) as Hrun.
  fold nbs in Hrun. rewrite Hrun by lia. clear Hrun.
  assert (Hsz : forall y, In y (l1 ++ l2) ->
                  size_at A (grown_absorb A (bytes st) (lo st) ptr cs a) y
                  = size_at A (bytes st) y).
  { intros x Hin.
    destruct (list_blocks_apart st l1 a l2 ptr Hok Hfl Hal Hnext x Hin)
      as (Y1 & Y2 & Y3 & Y4 & Y5 & Y6).
    unfold size_at. apply load_word_ext. intros z Hz.
    apply (grown_absorb_other st l1 a l2 ptr cs z Hok Hfl); try lia.
    intros y Hy. destruct (list_blocks_apart st l1 a l2 ptr Hok Hfl Hal Hnext y Hy)
      as (V1 & V2 & _).
    destruct (Y6 y Hy) as [->|[?|?]]; lia. }
  assert (Sp : size_at A (grown_absorb A (bytes st) (lo st) ptr cs a) ptr = cs + nbs + 1).
  { unfold grown_absorb. cbv zeta. fold nbs.
    set (nf := load_word A (bytes st) a) in *.
    set (nb := load_word A (bytes st) (a + W)) in *.
    assert (Hh : size_at A (store_word A (bytes st) (ptr - 8) (cs + nbs + 1)) ptr
                 = cs + nbs + 1) by (apply size_at_store_same; lia).
    assert (H2 : size_at A (if nf =? 0
                            then store_word A (bytes st) (ptr - 8) (cs + nbs + 1)
                            else store_word A (store_word A (bytes st) (ptr - 8)
                                                          (cs + nbs + 1)) (nf + W) nb) ptr
                 = cs + nbs + 1).
    { destruct (Z.eqb_spec nf 0) as [E|E]; [exact Hh|].
      destruct Hnf as [?|Hnf]; [contradiction|].
      destruct (list_blocks_apart st l1 a l2 ptr Hok Hfl Hal Hnext nf Hnf)
        as (Y1 & Y2 & Y3 & Y4 & _). fold nbs in Y4.
      rewrite size_at_store_other by lia. exact Hh. }
    destruct (Z.eqb_spec nb 0) as [E|E].
    - rewrite size_at_store_other by lia. exact H2.
    - destruct Hnb as [?|(b & Hb & Eb & Hb8)]; [contradiction|].
      destruct (list_blocks_apart st l1 a l2 ptr Hok Hfl Hal Hnext b Hb)
        as (Y1 & Y2 & Y3 & Y4 & _). fold nbs in Y4.
      rewrite size_at_store_other by lia. exact H2. }
  assert (Hfl' : free_list A (set_bytes st (grown_absorb A (bytes st) (lo st) ptr cs a))
                           (match l1 with [] => [] | _ => l1 ++ l2 end)).
  { destruct l1 as [|x k].
    - unfold free_list. cbn [free_chain lo brk limit bytes set_bytes].
      unfold grown_absorb. cbv zeta. rewrite L6. cbn [Z.eqb].
      apply load_store_same. lia.
    - destruct (exists_last (l := x :: k) ltac:(discriminate)) as (k' & b & Ek).
      revert Hfl Hal. rewrite Ek. intros Hfl Hal.
      exact (grown_absorb_chain st k' b a l2 ptr Hok Hfl Hal Hnext). }
  set (m' := grown_absorb A (bytes st) (lo st) ptr cs a) in *.
  exists (set_bytes st m'). cbn [lo brk limit bytes set_bytes].
  split; [reflexivity|]. split; [reflexivity|]. split; [reflexivity|]. split; [reflexivity|].
  split; [exact Sp|]. split; [exact Hfl'|]. split; [|split; [exact Hsz|]].
  - constructor; cbn [lo brk limit bytes set_bytes]; rewrite ?Sp; unfold min_block.
    + replace (cs + nbs + 1) with (1 + (cs + nbs)) by lia.
      rewrite Z.add_mod, (even_add _ _ Hcs_even L4) by lia. reflexivity.
    + lia.
    + lia.
    + lia.
    + intros x Hx. rewrite (Hsz x Hx).
      destruct (list_blocks_apart st l1 a l2 ptr Hok Hfl Hal Hnext x Hx)
        as (Y1 & Y2 & Y3 & Y4 & _). fold nbs in Y4. lia.
  - intros z Z1 Z2 Z3.
    destruct (outside_free_blocks st l1 a l2 ptr z Hok Hfl Hal Hnext Z3) as (O1 & O2).
    apply (grown_absorb_other st l1 a l2 ptr cs z Hok Hfl); assumption.
Qed.

(** X15 — [mm_realloc] never shrinks a block: when the block of [ptr]
    already has the block size asked for, the call returns [ptr] and
    leaves the heap exactly as it was, header included. *)
Theorem realloc_never_shrinks fuel st l ptr n :
  heap_ok A st -> allocated_at A st l ptr ->
  0 < n < 2 ^ 31 ->
  ALIGN A (n + 8) <= size_at A (bytes st) ptr - 1 ->
  mm_realloc A md fuel ptr n st = Ok ptr st.
Proof.
  intros Hok [Hflag Hsize Hlow Htop Hapart] Hn Hfit.
  destruct Hok as [Hlo Hbrk Hlim Hmod].
  pose proof (sizeof_ptr_cases A) as HW. pose proof (word_mod_big A) as HM.
  change (2 ^ 31) with 2147483648 in Hn. change (2 ^ 32) with 4294967296 in HM.
  unfold min_block in Hsize.
  pose proof (load_word_range A (bytes st) (ptr - 8)) as Hh.
  change (load_word A (bytes st) (ptr - 8)) with (size_at A (bytes st) ptr) in Hh.
  set (h := size_at A (bytes st) ptr) in *.
  unfold mm_realloc.
  replace (ptr =? NULL) with false by (unfold NULL; eqb_false).
  replace (n =? 0) with false by eqb_false.
  rewrite SIZE_T_SIZE_eq. rewrite (wrap_small A (n + 8)) by lia.
  cbv zeta. change BLOCK_PAYLOAD with BLOCK_FORWARD.
  rewrite (mp_fwd_hdr A ptr 0) by lia.
  rewrite bind_load by bounds.
  change (load_word A (bytes st) (ptr - 8)) with h.
  rewrite (wrap_small A (h - 1)) by lia.
  replace (ALIGN A (n + 8) <=? h - 1) with true by (symmetry; apply Z.leb_le; lia).
  reflexivity.
Qed.

(** X23 — When [mm_realloc] cannot grow the block in place (the block
    after it is allocated, or free and too small) and [mm_malloc] finds
    no room, the call returns [NULL] and the heap is as it was: the block
    of [ptr] is still allocated, with its bytes. *)
Theorem realloc_refused_keeps_block fuel st l ptr n :
  heap_ok A st -> free_list A st l -> l <> [] ->
  allocated_at A st l ptr ->
  0 < n < 2 ^ 31 ->
  (length l <= fuel)%nat ->
  size_at A (bytes st) ptr - 1 < ALIGN A (n + 8) ->
  ptr - 8 + (size_at A (bytes st) ptr - 1) + 8 <= brk st ->
  (load_word A (bytes st) (ptr - 8 + (size_at A (bytes st) ptr - 1)) mod 2 = 1
   \/ load_word A (bytes st) (ptr - 8 + (size_at A (bytes st) ptr - 1))
      < ALIGN A (n + 8) - (size_at A (bytes st) ptr - 1)) ->
  (forall x, In x l -> size_at A (bytes st) x < block_size A n) ->
  last l 0 - 8 + size_at A (bytes st) (last l 0) <> brk st ->
  limit st < brk st + block_size A n ->
  mm_realloc A md fuel ptr n st = Ok NULL st.
Proof.
  intros Hok Hfl Hne [Hflag Hsize Hlow Htop Hapart] Hn Hfuel Hgrow Hnext Hnofit Hno Hend Hfull.
  pose proof (malloc_refused A md fuel n st l Hok Hfl Hne ltac:(lia) Hfuel Hno Hend Hfull)
    as Hmalloc.
  destruct Hok as [Hlo Hbrk Hlim Hmod].
  pose proof (sizeof_ptr_cases A) as HW. pose proof (word_mod_big A) as HM.
  change (2 ^ 31) with 2147483648 in Hn. change (2 ^ 32) with 4294967296 in HM.
  unfold min_block in Hsize.
  pose proof (load_word_range A (bytes st) (ptr - 8)) as Hh.
  change (load_word A (bytes st) (ptr - 8)) with (size_at A (bytes st) ptr) in Hh.
  set (h := size_at A (bytes st) ptr) in *.
  destruct (ALIGN_bounds A (n + 8) ltac:(lia) ltac:(lia)) as (Ha1 & Ha2).
  set (asked := ALIGN A (n + 8)) in *.
  pose proof (load_word_range A (bytes st) (ptr - 8 + (h - 1))) as Hnb.
  set (nbs := load_word A (bytes st) (ptr - 8 + (h - 1))) in *.
  unfold mm_realloc.
  replace (ptr =? NULL) with false by (unfold NULL; eqb_false).
  replace (n =? 0) with false by eqb_false.
  rewrite SIZE_T_SIZE_eq. rewrite (wrap_small A (n + 8)) by lia. fold asked.
  cbv zeta. change BLOCK_PAYLOAD with BLOCK_FORWARD.
  rewrite (mp_fwd_hdr A ptr 0) by lia.
  rewrite bind_load by bounds.
  change (load_word A (bytes st) (ptr - 8)) with h.
  rewrite (wrap_small A (h - 1)) by lia.
  replace (asked <=? h - 1) with false by (symmetry; apply Z.leb_gt; lia).
  rewrite (mp_fwd_end A ptr (h - 1)) by lia.
  rewrite bind_load by bounds. fold nbs.
  rewrite bind_heap_hi.
  rewrite (wrap_small A (brk st - 1)) by lia.
  replace (brk st - 1 + 1) with (brk st) by lia.
  rewrite (wrap_small A (brk st)) by lia.
  replace (h - 1 <? asked) with true by (symmetry; apply Z.ltb_lt; lia).
  replace (ptr - 8 + (h - 1) =? brk st) with false by (symmetry; apply Z.eqb_neq; lia).
  rewrite land_1. cbn [negb andb].
  rewrite (wrap_small A (asked - (h - 1))) by lia.
  assert (Hfall : (if (nbs mod 2 =? 0)
                   then if asked - (h - 1) <=? nbs
                        then true else false
                   else false) = false).
  { destruct Hnofit as [Hodd|Hsmall].
    - rewrite Hodd. reflexivity.
    - replace (asked - (h - 1) <=? nbs) with false by (symmetry; apply Z.leb_gt; lia).
      destruct (nbs mod 2 =? 0); reflexivity. }
  destruct (nbs mod 2 =? 0) eqn:Eodd.
  - destruct (asked - (h - 1) <=? nbs) eqn:Eroom; [discriminate Hfall|].
    rewrite bind_ret. rewrite bind_heap_hi.
    rewrite (wrap_small A (brk st - 1)) by lia.
    replace (brk st - 1 + 1) with (brk st) by lia.
    rewrite (wrap_small A (brk st)) by lia.
    replace (ptr - 8 + (h - 1) =? brk st) with false by (symmetry; apply Z.eqb_neq; lia).
    unfold bind at 1. rewrite Hmalloc. reflexivity.
  - rewrite bind_ret. rewrite bind_heap_hi.
    rewrite (wrap_small A (brk st - 1)) by lia.
    replace (brk st - 1 + 1) with (brk st) by lia.
    rewrite (wrap_small A (brk st)) by lia.
    replace (ptr - 8 + (h - 1) =? brk st) with false by (symmetry; apply Z.eqb_neq; lia).
    unfold bind at 1. rewrite Hmalloc. reflexivity.
Qed.


End ReallocMore.

Section ReallocTail.

Variable A : abi.

Local Abbreviation W := (sizeof_ptr A).
Local Abbreviation MOD := (word_mod A).

Lemma bind_load_flat {U} j st a (k : Z -> M U) :
  bind (load A (Flat j) a) k st = k (load_word A (bytes st) a) st.
Proof. reflexivity. Qed.

Lemma bind_store_flat {U} j st a v (k : unit -> M U) :
  bind (store A (Flat j) a v) k st = k tt (set_bytes st (store_word A (bytes st) a v)).
Proof. reflexivity. Qed.

(** X16 — Where reading the word after the heap is no error,
    [mm_realloc] on the last block of the heap asks [mem_sbrk] for the
    missing bytes, does not look at the answer, writes the new size in
    the header and returns [ptr].  When [mem_sbrk] refuses, the heap
    keeps its end and the block of [ptr] reaches past it. *)
Theorem realloc_tail_extension j fuel st l ptr n :
  heap_ok A st -> allocated_at A st l ptr ->
  ptr - 8 + (size_at A (bytes st) ptr - 1) = brk st ->
  0 < n < 2 ^ 31 ->
  size_at A (bytes st) ptr - 1 < ALIGN A (n + 8) ->
  exists st',
    mm_realloc A (Flat j) fuel ptr n st = Ok ptr st' /\
    lo st' = lo st /\ limit st' = limit st /\
    brk st' = (if brk st + (ALIGN A (n + 8) - (size_at A (bytes st) ptr - 1)) <=? limit st
               then ptr - 8 + ALIGN A (n + 8) else brk st) /\
    bytes st' = store_word A (bytes st) (ptr - 8) (ALIGN A (n + 8) + 1) /\
    size_at A (bytes st') ptr = ALIGN A (n + 8) + 1 /\
    (limit st < brk st + (ALIGN A (n + 8) - (size_at A (bytes st) ptr - 1)) ->
     brk st' < ptr - 8 + (size_at A (bytes st') ptr - 1)).
Proof.
  intros Hok [Hflag Hsize Hlow Htop Hapart] Htail Hn Hgrow.
  destruct Hok as [Hlo Hbrk Hlim Hmod].
  pose proof (sizeof_ptr_cases A) as HW. pose proof (word_mod_big A) as HM.
  change (2 ^ 31) with 2147483648 in Hn. change (2 ^ 32) with 4294967296 in HM.
  unfold min_block in Hsize.
  pose proof (load_word_range A (bytes st) (ptr - 8)) as Hh.
  change (load_word A (bytes st) (ptr - 8)) with (size_at A (bytes st) ptr) in Hh.
  set (h := size_at A (bytes st) ptr) in *.
  destruct (ALIGN_bounds A (n + 8) ltac:(lia) ltac:(lia)) as (Ha1 & Ha2).
  set (asked := ALIGN A (n + 8)) in *.
  unfold mm_realloc.
  replace (ptr =? NULL) with false by (unfold NULL; eqb_false).
  replace (n =? 0) with false by eqb_false.
  rewrite SIZE_T_SIZE_eq. rewrite (wrap_small A (n + 8)) by lia. fold asked.
  cbv zeta. change BLOCK_PAYLOAD with BLOCK_FORWARD.
  rewrite (mp_fwd_hdr A ptr 0) by lia.
  rewrite bind_load_flat.
  change (load_word A (bytes st) (ptr - 8)) with h.
  rewrite (wrap_small A (h - 1)) by lia.
  replace (asked <=? h - 1) with false by (symmetry; apply Z.leb_gt; lia).
  rewrite (mp_fwd_end A ptr (h - 1)) by lia. rewrite Htail.
  rewrite bind_load_flat.
  rewrite bind_heap_hi.
  rewrite (wrap_small A (brk st - 1)) by lia.
  replace (brk st - 1 + 1) with (brk st) by lia.
  rewrite (wrap_small A (brk st)) by lia.
  rewrite Z.eqb_refl. rewrite andb_false_r. cbn [negb andb].
  rewrite bind_ret. rewrite bind_heap_hi.
  rewrite (wrap_small A (brk st - 1)) by lia.
  replace (brk st - 1 + 1) with (brk st) by lia.
  rewrite (wrap_small A (brk st)) by lia.
  rewrite Z.eqb_refl.
  rewrite (wrap_small A (asked - (h - 1))) by lia.
  rewrite (wrap_small A (asked + 1)) by lia.
  rewrite bind_sbrk_ignored. rewrite bind_store_flat.
  unfold ret. cbn [lo brk limit bytes set_bytes set_brk].
  eexists. split; [reflexivity|]. cbn [lo brk limit bytes set_bytes set_brk].
  split; [reflexivity|]. split; [reflexivity|].
  assert (Sp : size_at A (store_word A (bytes st) (ptr - 8) (asked + 1)) ptr = asked + 1)
    by (apply size_at_store_same; lia).
  split.
  - destruct (brk st + (asked - (h - 1)) <=? limit st); [lia|reflexivity].
  - split; [reflexivity|]. split; [exact Sp|].
    intros Href. rewrite Sp.
    replace (brk st + (asked - (h - 1)) <=? limit st) with false
      by (symmetry; apply Z.leb_gt; lia).
    lia.
Qed.

End ReallocTail.

(** ** The checkers on a well-formed heap *)

Section Checks.

Variable A : abi.
Variable md : mode.

Local Abbreviation W := (sizeof_ptr A).
Local Abbreviation MOD := (word_mod A).

(** The loop of [free_list_debug] along a well-formed list. *)
Lemma free_list_debug_loop_chain st :
  heap_ok A st ->
  forall l fuel low prev ps p,
    (length l < fuel)%nat ->
    lo st + W <= low ->
    free_chain A (bytes st) low prev p (brk st) l ->
    prev = 0 \/ (8 <= prev /\ prev - 8 + ps = low /\ 8 <= ps) ->
    free_list_debug_loop A md fuel p prev ps st
    = Ok (if match l with
             | [] => false
             | x :: t => negb (prev =? 0) && (prev - 8 + ps =? x - 8)
                         || touch_after A (bytes st) x t
             end then 0 else 1) st.
Proof.
  intros [Hlo Hbrk Hlim Hmod]. pose proof (sizeof_ptr_cases A) as HW.
  induction l as [|x t IH]; intros fuel low prev ps p Hfuel Hlow Hch Hprev.
  - cbn [free_chain] in Hch. subst p.
    destruct fuel as [|k]; [cbn [length] in Hfuel; lia|].
    cbn [free_list_debug_loop]. reflexivity.
  - cbn [free_chain] in Hch. destruct Hch as (-> & K1 & Kev & K2 & K3 & K4 & K5).
    unfold min_block in K2.
    destruct fuel as [|k]; [cbn [length] in Hfuel; lia|].
    cbn [length] in Hfuel. cbn [free_list_debug_loop].
    replace (x =? NULL) with false by (unfold NULL; eqb_false).
    rewrite (mp_fwd_hdr A x 0) by lia.
    rewrite bind_load by bounds.
    change (load_word A (bytes st) (x - 8)) with (size_at A (bytes st) x).
    rewrite (mp_fwd_bwd A x 0) by lia.
    assert (Hnext : free_list_debug_loop A md k (load_word A (bytes st) x) x
                                         (size_at A (bytes st) x) st
                    = Ok (if touch_after A (bytes st) x t then 0 else 1) st).
    { rewrite (IH k (x - 8 + size_at A (bytes st) x) x (size_at A (bytes st) x)
                  (load_word A (bytes st) x)); try lia; try exact K5.
      destruct t as [|y t']; [reflexivity|]. cbn [touch_after].
        replace (x =? 0) with false by eqb_false. reflexivity. }
    replace (size_at A (bytes st) x mod 2 =? 1) with false
      by (symmetry; apply Z.eqb_neq; lia).
    destruct Hprev as [->|(P1 & P2 & P3)].
    + cbn [Z.eqb NULL negb andb orb]. unfold NULL. cbn [Z.eqb negb andb orb].
      rewrite bind_ret.
      replace (x <=? 0) with false by (symmetry; apply Z.leb_gt; lia).
      rewrite bind_load by bounds. exact Hnext.
    + replace (prev =? NULL) with false by (unfold NULL; eqb_false).
      replace (prev =? 0) with false by eqb_false.
      cbn [negb andb orb].
      rewrite bind_assoc. rewrite bind_load by bounds. rewrite bind_ret.
      rewrite K4. replace (prev =? 0) with false by eqb_false.
      rewrite (mp_fwd_bwd A prev 0) by lia. rewrite Z.eqb_refl. cbn [negb].
      replace (x <=? prev) with false by (symmetry; apply Z.leb_gt; lia).
      rewrite (mp_fwd_end A prev ps) by lia.
      destruct (Z.eqb_spec (prev - 8 + ps) (x - 8)) as [E|E].
      * reflexivity.
      * rewrite bind_load by bounds. exact Hnext.
Qed.

(** [free_list_debug] on a well-formed list of two blocks or more. *)
Lemma free_list_debug_loop_start fuel st l :
  heap_ok A st -> free_list A st l ->
  (2 <= length l)%nat -> (length l < fuel)%nat ->
  free_list_debug A md fuel st
  = Ok (if escaped_coalescing A (bytes st) l then 0 else 1) st.
Proof.
  intros Hok Hfl Hlen Hfuel. pose proof Hok as [Hlo Hbrk Hlim Hmod].
  pose proof (sizeof_ptr_cases A) as HW.
  destruct l as [|x [|y t]]; cbn [length] in Hlen; try lia.
  pose proof Hfl as Hch. unfold free_list in Hch.
  cbn [free_chain] in Hch.
  destruct Hch as (Ex & K1 & Kev & K2 & K3 & K4 & Ey & J1 & Jev & J2 & J3 & J4 & J5).
  unfold min_block in *.
  unfold free_list_debug. rewrite bind_heap_lo.
  rewrite bind_load by bounds. rewrite Ex.
  replace (x =? NULL) with false by (unfold NULL; eqb_false).
  rewrite bind_assoc. rewrite bind_load by bounds. rewrite bind_ret.
  rewrite Ey.
  replace (y =? NULL) with false by (unfold NULL; eqb_false).
  cbn [negb]. change NULL with 0.
  rewrite (free_list_debug_loop_chain st Hok (x :: y :: t) fuel (lo st + W) 0 0 x);
    try lia.
  - reflexivity.
  - unfold free_list in Hfl. rewrite Ex in Hfl. exact Hfl.
Qed.

(** X17 — On a well-formed free list of two blocks or more,
    [free_list_debug] returns 0 when two neighbours of the list touch
    (free blocks that escaped coalescing) and 1 otherwise, and leaves
    the heap as it was. *)
Theorem free_list_debug_finds_touching fuel st l :
  heap_ok A st -> free_list A st l ->
  (2 <= length l)%nat -> (length l < fuel)%nat ->
  free_list_debug A md fuel st
  = Ok (if escaped_coalescing A (bytes st) l then 0 else 1) st.
Proof. exact (free_list_debug_loop_start fuel st l). Qed.

(** X18 — [free_list_debug] checks nothing when the free list has fewer
    than two blocks: it leaves through the [return] that gives no value.
    What the caller reads is indeterminate. *)
Theorem free_list_debug_short_list fuel st l :
  heap_ok A st -> free_list A st l -> (length l <= 1)%nat ->
  free_list_debug A md fuel st
  = match md with
    | Strict => Fault Indeterminate
    | Flat j => Ok j st
    end.
Proof.
  intros Hok Hfl Hlen. pose proof Hok as [Hlo Hbrk Hlim Hmod].
  pose proof (sizeof_ptr_cases A) as HW.
  unfold free_list_debug. rewrite bind_heap_lo. rewrite bind_load by bounds.
  unfold free_list in Hfl.
  destruct l as [|x [|y t]]; cbn [length] in Hlen; try lia; cbn [free_chain] in Hfl.
  - rewrite Hfl. cbn [Z.eqb NULL]. rewrite bind_ret.
    unfold read_local. destruct md; reflexivity.
  - destruct Hfl as (Ex & K1 & Kev & K2 & K3 & K4 & K5). unfold min_block in *.
    rewrite Ex.
    replace (x =? NULL) with false by (unfold NULL; eqb_false).
    rewrite bind_assoc. rewrite bind_load by bounds. rewrite bind_ret.
    rewrite K5. cbn [Z.eqb NULL].
    unfold read_local. destruct md; reflexivity.
Qed.

(** The loop of [print_heap_blocks] along a row of blocks whose free
    blocks are the blocks of the list, in order. *)
Lemma print_heap_blocks_loop_row st :
  heap_ok A st ->
  forall bl fuel pos low prev nfb,
    (length bl < fuel)%nat -> lo st <= pos ->
    tiled A (bytes st) pos (brk st) bl ->
    free_chain A (bytes st) low prev nfb (brk st) (free_payloads pos bl) ->
    print_heap_blocks_loop A md fuel pos nfb (brk st) st = Ok 1 st.
Proof.
  intros [Hlo Hbrk Hlim Hmod]. pose proof (sizeof_ptr_cases A) as HW.
  induction bl as [|[s al] t IH]; intros fuel pos low prev nfb Hfuel Hpos Hrow Hch.
  - cbn [tiled] in Hrow. subst pos.
    destruct fuel as [|k]; [cbn [length] in Hfuel; lia|].
    cbn [print_heap_blocks_loop]. rewrite Z.eqb_refl. reflexivity.
  - cbn [tiled] in Hrow. destruct Hrow as (Hh & Hev & Hs & Hend & Hrest).
    destruct fuel as [|k]; [cbn [length] in Hfuel; lia|].
    cbn [length] in Hfuel. cbn [print_heap_blocks_loop].
    replace (pos =? brk st) with false by eqb_false.
    rewrite bind_load by bounds. rewrite Hh.
    rewrite land_1. rewrite lnot1_eq.
    destruct al.
    + replace ((s + 1) mod 2) with 1
        by (replace (s + 1) with (1 + s) by lia; rewrite Z.add_mod, Hev by lia; reflexivity).
      cbn [Z.eqb negb].
      rewrite land_clear1 by lia.
      replace (2 * ((s + 1) / 2)) with s
        by (pose proof (Z.div_mod s 2 ltac:(lia)) as D; rewrite Hev in D;
            replace (s + 1) with (1 + s / 2 * 2) by lia;
            rewrite Z.div_add by lia; change (1 / 2) with 0; lia).
      rewrite (mp_hdr_end A pos s) by lia.
      apply (IH k (pos + s) low prev nfb); try lia; try exact Hrest.
      exact Hch.
    + rewrite Hev. cbn [Z.eqb negb].
      rewrite land_clear1 by lia.
      replace (2 * (s / 2)) with s
        by (pose proof (Z.div_mod s 2 ltac:(lia)) as D; rewrite Hev in D; lia).
      rewrite (mp_hdr_end A pos s) by lia.
      rewrite (mp_hdr_fwd A pos 0) by lia.
      cbn [free_payloads app free_chain] in Hch.
      destruct Hch as (-> & K1 & Kev & K2 & K3 & K4 & K5).
      rewrite Z.eqb_refl. cbn [negb].
      rewrite bind_load by bounds.
      assert (Es : size_at A (bytes st) (pos + 8) = s).
      { unfold size_at. replace (pos + 8 - 8) with pos by lia. exact Hh. }
      rewrite Es in K5. replace (pos + 8 - 8 + s) with (pos + s) in K5 by lia.
      apply (IH k (pos + s) (pos + s) (pos + 8) (load_word A (bytes st) (pos + 8)));
        try lia; try exact Hrest.
      exact K5.
Qed.

(** The loop stops with 0 at the first free block that is not the next
    block of the list. *)
Lemma print_heap_blocks_loop_off_list st :
  heap_ok A st ->
  forall bl fuel pos low prev nfb l y,
    (length bl < fuel)%nat -> lo st <= pos ->
    tiled A (bytes st) pos (brk st) bl ->
    free_chain A (bytes st) low prev nfb (brk st) l ->
    In y (free_payloads pos bl) -> ~ In y l ->
    print_heap_blocks_loop A md fuel pos nfb (brk st) st = Ok 0 st.
Proof.
  intros [Hlo Hbrk Hlim Hmod]. pose proof (sizeof_ptr_cases A) as HW.
  induction bl as [|[s al] t IH]; intros fuel pos low prev nfb l y Hfuel Hpos Hrow Hch Hy Hny.
  - destruct Hy.
  - cbn [tiled] in Hrow. destruct Hrow as (Hh & Hev & Hs & Hend & Hrest).
    destruct fuel as [|k]; [cbn [length] in Hfuel; lia|].
    cbn [length] in Hfuel. cbn [print_heap_blocks_loop].
    replace (pos =? brk st) with false by eqb_false.
    rewrite bind_load by bounds. rewrite Hh.
    rewrite land_1. rewrite lnot1_eq.
    destruct al.
    + replace ((s + 1) mod 2) with 1
        by (replace (s + 1) with (1 + s) by lia; rewrite Z.add_mod, Hev by lia; reflexivity).
      cbn [Z.eqb negb].
      rewrite land_clear1 by lia.
      replace (2 * ((s + 1) / 2)) with s
        by (pose proof (Z.div_mod s 2 ltac:(lia)) as D; rewrite Hev in D;
            replace (s + 1) with (1 + s / 2 * 2) by lia;
            rewrite Z.div_add by lia; change (1 / 2) with 0; lia).
      rewrite (mp_hdr_end A pos s) by lia.
      apply (IH k (pos + s) low prev nfb l y); try lia; try assumption.
    + rewrite Hev. cbn [Z.eqb negb].
      rewrite land_clear1 by lia.
      replace (2 * (s / 2)) with s
        by (pose proof (Z.div_mod s 2 ltac:(lia)) as D; rewrite Hev in D; lia).
      rewrite (mp_hdr_end A pos s) by lia.
      rewrite (mp_hdr_fwd A pos 0) by lia.
      destruct (Z.eqb_spec nfb (pos + 8)) as [E|E]; cbn [negb]; [|reflexivity].
      rewrite bind_load by bounds. subst nfb.
      destruct l as [|x l']; cbn [free_chain] in Hch; [lia|].
      destruct Hch as (Ex & K1 & Kev & K2 & K3 & K4 & K5). subst x.
      cbn [free_payloads app] in Hy.
      destruct Hy as [Hy|Hy]; [exfalso; apply Hny; now left|].
      apply (IH k (pos + s) _ _ (load_word A (bytes st) (pos + 8)) l' y
                (ltac:(lia)) (ltac:(lia)) Hrest K5 Hy).
      intros Hin. apply Hny. now right.
Qed.

(** The start of [print_heap_blocks] on a heap that holds a block. *)
Lemma print_heap_blocks_start fuel st s al t :
  heap_ok A st -> lo st + 8 < MOD ->
  tiled A (bytes st) (ALIGN A (lo st + 1)) (brk st) ((s, al) :: t) ->
  lo st <= ALIGN A (lo st + 1) /\
  print_heap_blocks A md fuel st
  = print_heap_blocks_loop A md fuel (ALIGN A (lo st + 1))
                           (load_word A (bytes st) (lo st)) (brk st) st.
Proof.
  intros [Hlo Hbrk Hlim Hmod] Hroom Hrow. pose proof (sizeof_ptr_cases A) as HW.
  destruct (ALIGN_bounds A (lo st + 1) ltac:(lia) ltac:(lia)) as (Ha1 & Ha2).
  split; [lia|].
  cbn [tiled] in Hrow. destruct Hrow as (Hh & Hev & Hs & Hend & Hrest).
  unfold print_heap_blocks. rewrite bind_heap_lo.
  rewrite (wrap_small A (lo st + 1)) by lia.
  rewrite bind_load by bounds. rewrite Hh.
  replace ((if al then s + 1 else s) =? 0) with false
    by (symmetry; apply Z.eqb_neq; destruct al; lia).
  rewrite bind_heap_lo. rewrite bind_load by bounds.
  rewrite bind_heap_hi.
  rewrite (wrap_small A (brk st - 1)) by lia.
  replace (brk st - 1 + 1) with (brk st) by lia.
  rewrite (wrap_small A (brk st)) by lia.
  reflexivity.
Qed.

(** X19 — [print_heap_blocks] returns 1 on a heap that is a row of
    blocks from its first block to its end, when the free blocks of the
    row are the blocks of the free list, in address order. *)
Theorem print_heap_blocks_accepts fuel st bl :
  heap_ok A st -> lo st + 8 < MOD -> bl <> [] ->
  tiled A (bytes st) (ALIGN A (lo st + 1)) (brk st) bl ->
  free_list A st (free_payloads (ALIGN A (lo st + 1)) bl) ->
  (length bl < fuel)%nat ->
  print_heap_blocks A md fuel st = Ok 1 st.
Proof.
  intros Hok Hroom Hne Hrow Hfl Hfuel.
  destruct bl as [|[s al] t]; [contradiction|].
  destruct (print_heap_blocks_start fuel st s al t Hok Hroom Hrow) as (Hpos & ->).
  exact (print_heap_blocks_loop_row st Hok _ fuel _ _ _ _ Hfuel Hpos Hrow Hfl).
Qed.

(** X20 — [print_heap_blocks] returns 0 on a heap that is a row of
    blocks when one of its free blocks is not on the free list. *)
Theorem print_heap_blocks_finds_off_list fuel st bl l y :
  heap_ok A st -> lo st + 8 < MOD ->
  tiled A (bytes st) (ALIGN A (lo st + 1)) (brk st) bl ->
  free_list A st l ->
  In y (free_payloads (ALIGN A (lo st + 1)) bl) -> ~ In y l ->
  (length bl < fuel)%nat ->
  print_heap_blocks A md fuel st = Ok 0 st.
Proof.
  intros Hok Hroom Hrow Hfl Hy Hny Hfuel.
  destruct bl as [|[s al] t]; [destruct Hy|].
  destruct (print_heap_blocks_start fuel st s al t Hok Hroom Hrow) as (Hpos & ->).
  exact (print_heap_blocks_loop_off_list st Hok _ fuel _ _ _ _ l y Hfuel Hpos Hrow Hfl Hy Hny).
Qed.

(** X21 — [mm_check] returns 1 on a heap that is a row of blocks whose
    free blocks are the blocks of the free list, when there are two free
    blocks or more and no two of them touch; it returns 0 when two
    neighbours of the list touch. *)
Theorem mm_check_accepts fuel st bl :
  heap_ok A st -> lo st + 8 < MOD ->
  tiled A (bytes st) (ALIGN A (lo st + 1)) (brk st) bl ->
  free_list A st (free_payloads (ALIGN A (lo st + 1)) bl) ->
  (2 <= length (free_payloads (ALIGN A (lo st + 1)) bl))%nat ->
  (length bl < fuel)%nat ->
  mm_check A md fuel st
  = Ok (if escaped_coalescing A (bytes st) (free_payloads (ALIGN A (lo st + 1)) bl)
        then 0 else 1) st.
Proof.
  intros Hok Hroom Hrow Hfl Hlen Hfuel.
  assert (Hne : bl <> []) by (intros ->; cbn in Hlen; lia).
  assert (Hlen' : (length (free_payloads (ALIGN A (lo st + 1)) bl) <= length bl)%nat).
  { generalize (ALIGN A (lo st + 1)). clear. induction bl as [|[s al] t IH]; intros pos.
    - apply le_n.
    - cbn [free_payloads]. rewrite length_app. specialize (IH (pos + s)).
      destruct al; cbn [length] in *; lia. }
  destruct bl as [|[s al] t]; [contradiction|].
  destruct (print_heap_blocks_start fuel st s al t Hok Hroom Hrow) as (Hpos & Hstart).
  unfold mm_check. unfold bind at 1. rewrite Hstart.
  rewrite (print_heap_blocks_loop_row st Hok _ fuel _ _ _ _ Hfuel Hpos Hrow Hfl).
  unfold bind at 1.
  rewrite (free_list_debug_loop_start fuel st _ Hok Hfl Hlen) by lia.
  unfold ret. destruct (escaped_coalescing _ _ _); reflexivity.
Qed.

End Checks.

(** ** [mm_free] after [mm_malloc] *)

Section RoundTrip.

Variable A : abi.
Variable md : mode.

Local Abbreviation W := (sizeof_ptr A).
Local Abbreviation MOD := (word_mod A).








(** The header of a block of the list lies outside the link slots of
    every block of the list. *)
Lemma header_apart st l x y :
  heap_ok A st -> free_list A st l -> In x l -> In y l ->
  (x = y \/ x - 8 + size_at A (bytes st) x <= y - 8
   \/ y - 8 + size_at A (bytes st) y <= x - 8) /\
  (x - 8 + W <= y \/ y + 2 * W <= x - 8) /\
  lo st + W <= x - 8 /\ 8 + 2 * W <= size_at A (bytes st) x /\
  x - 8 + size_at A (bytes st) x <= brk st.
Proof.
  intros [Hlo Hbrk Hlim Hmod] Hfl Hx Hy. pose proof (sizeof_ptr_cases A) as HW.
  assert (H0 : 0 <= lo st + W) by lia. unfold free_list in Hfl.
  destruct (free_chain_in A _ _ _ _ _ _ _ Hfl Hx) as (X1 & X2 & X3).
  destruct (free_chain_in A _ _ _ _ _ _ _ Hfl Hy) as (Y1 & Y2 & Y3).
  unfold min_block in *.
  pose proof (free_chain_pairwise A _ _ _ _ _ _ x y H0 Hfl Hx Hy) as Hp.
  split; [exact Hp|]. split; [|lia]. destruct Hp as [->|[?|?]]; lia.
Qed.





End RoundTrip.

(** ** Free blocks that do not touch *)

Section Apart.

Variable A : abi.

Local Abbreviation W := (sizeof_ptr A).
Local Abbreviation MOD := (word_mod A).

Lemma exists_last_or_nil {T} (l : list T) : l = [] \/ exists k b, l = k ++ [b].
Proof.
  destruct l as [|x t]; [now left|right].
  destruct (exists_last (l := x :: t) ltac:(discriminate)) as (k & b & E). now exists k, b.
Qed.

(** No block of [l] ends where a block of [l] starts. *)
Lemma no_touch_pairs m l :
  (forall x y, In x l -> In y l -> x - 8 + size_at A m x <> y - 8) ->
  escaped_coalescing A m l = false.
Proof.
  destruct l as [|x t]; [reflexivity|]. cbn [escaped_coalescing].
  revert x. induction t as [|y t IH]; intros x H; [reflexivity|].
  cbn [touch_after]. apply orb_false_intro.
  - apply Z.eqb_neq. apply H; [now left|right; now left].
  - apply IH. intros u v Hu Hv. apply H; now right.
Qed.

Lemma pairs_no_touch m top :
  forall l low prev p,
    0 <= low ->
    free_chain A m low prev p top l ->
    escaped_coalescing A m l = false ->
    forall x y, In x l -> In y l -> x - 8 + size_at A m x <> y - 8.
Proof.
  pose proof (sizeof_ptr_cases A) as HW.
  induction l as [|x0 t IH]; intros low prev p H0 Hch Hnt x y Hx Hy; [destruct Hx|].
  pose proof (free_chain_apart A m top x0 t [] low prev p H0 Hch) as (_ & P2 & P3 & P4 & P5 & _).
  unfold min_block in *.
  cbn [free_chain] in Hch. destruct Hch as (_ & K1 & _ & K2 & K3 & _ & K5).
  assert (Ht : escaped_coalescing A m t = false /\
               forall y, In y t -> x0 - 8 + size_at A m x0 <> y - 8).
  { destruct t as [|y0 t']; [split; [reflexivity|intros ? []]|].
    cbn [escaped_coalescing touch_after] in Hnt.
    apply orb_false_elim in Hnt. destruct Hnt as [N1 N2]. apply Z.eqb_neq in N1.
    split; [exact N2|]. intros z [<-|Hz]; [exact N1|].
    assert (H1 : 0 <= x0 - 8 + size_at A m x0) by lia.
    pose proof (free_chain_apart A m top y0 t' [] _ _ _ H1 K5) as (_ & Q2 & Q3 & Q4 & _).
    destruct (Q2 z Hz) as (? & ? & ?). unfold min_block in *. lia. }
  destruct Ht as (Hnt' & Hfirst).
  destruct Hx as [<-|Hx], Hy as [<-|Hy].
  - lia.
  - now apply Hfirst.
  - destruct (P2 x Hx) as (? & ? & ?). lia.
  - assert (H1 : 0 <= x0 - 8 + size_at A m x0) by lia.
    apply (IH _ _ _ H1 K5 Hnt' x y Hx Hy).
Qed.

(** X26 — [mm_malloc] keeps the free blocks apart: when no two free
    blocks of the list touch before a successful call, none do after it,
    and every block of the new list was a block of the old one. *)
Theorem malloc_keeps_blocks_apart md fuel n st l q st2 :
  heap_ok A st -> free_list A st l ->
  escaped_coalescing A (bytes st) l = false ->
  0 <= n < 2 ^ 31 ->
  (A = LP64 -> brk st - lo st < 2 ^ 32) ->
  (length l <= fuel)%nat ->
  (l = [] -> match md with
             | Strict => True
             | Flat j => moved_pointer A (lo st) j BLOCK_FORWARD BLOCK_END <> brk st
             end) ->
  mm_malloc A md fuel n st = Ok q st2 -> q <> 0 ->
  exists l',
    free_list A st2 l' /\ escaped_coalescing A (bytes st2) l' = false /\
    forall y, In y l' -> In y l.
Proof.
  intros Hok Hfl Hnt Hn Hsmall Hfuel Hjunk Hrun Hq.
  pose proof Hok as [Hlo Hbrk Hlim Hmod]. pose proof (sizeof_ptr_cases A) as HW.
  destruct (block_size_facts A n Hn) as (F1 & F2 & F3 & F4).
  destruct (mm_malloc_paths A md fuel n st l q st2 Hok Hfl Hn Hsmall Hfuel Hjunk Hrun Hq)
    as (l' & bsz & Hpath).
  destruct (malloc_path_effect A st l _ q st2 l' bsz Hok Hfl F3 F2 Hpath)
    as ([_ _ _ Hfl2 _ _ _ _ _] & _).
  assert (H0 : 0 <= lo st + W) by lia.
  pose proof (pairs_no_touch (bytes st) (brk st) l _ _ _ H0 Hfl Hnt) as Hold.
  unfold min_block in *.
  exists l'. split; [exact Hfl2|].
  destruct Hpath as [bp Hin Hsplit|k1 bp k2 El Hfits Hwhole|l0 t El Hend Hall|Hno Hroom].
  - split; [|tauto]. apply no_touch_pairs. intros x y Hx Hy. cbn [bytes set_bytes].
    destruct (header_apart A st l x bp Hok Hfl Hx Hin) as (X1 & X2 & X3 & X4 & X5).
    destruct (header_apart A st l y bp Hok Hfl Hy Hin) as (Y1 & Y2 & Y3 & Y4 & Y5).
    unfold min_block in Hsplit.
    set (s := size_at A (bytes st) bp) in *. set (ns := block_size A n) in *.
    destruct (Z.eq_dec x bp) as [->|Hne].
    + rewrite size_at_store_other by lia. rewrite size_at_store_same by lia.
      fold s in Y1. lia.
    + rewrite !size_at_store_other by lia. now apply Hold.
  - subst l.
    assert (Hsub : forall y, In y (k1 ++ k2) -> In y (k1 ++ bp :: k2)).
    { intros y Hy. apply in_app_or in Hy. apply in_or_app.
      destruct Hy; [now left|right; now right]. }
    split; [|exact Hsub]. apply no_touch_pairs. intros x y Hx Hy. cbn [bytes set_bytes].
    rewrite (unlinked_sizes A st k1 bp k2 _ x Hok Hfl Hx). apply Hold; now apply Hsub.
  - subst l.
    assert (Hsub : forall y, In y l0 -> In y (l0 ++ [t])).
    { intros y Hy. apply in_or_app. now left. }
    split; [|exact Hsub]. apply no_touch_pairs. intros x y Hx Hy. cbn [bytes].
    rewrite (unlinked_sizes A st l0 t [] _ x Hok Hfl) by (rewrite app_nil_r; exact Hx).
    apply Hold; now apply Hsub.
  - split; [|tauto]. apply no_touch_pairs. intros x y Hx Hy. cbn [bytes].
    destruct (header_apart A st l x x Hok Hfl Hx Hx) as (_ & _ & X3 & X4 & X5).
    rewrite size_at_store_other by lia. now apply Hold.
Qed.

Ltac skip_stores := rewrite !size_at_store_other by lia.

(** The headers after [mm_free ptr], when no free block lies below
    [ptr]. *)
Lemma freed_size_first M head ptr l2 x :
  0 <= size_at A M ptr - 1 ->
  match l2 with
  | [] => True
  | a :: t => 0 <= size_at A M a /\ load_word A M a = hd 0 t
  end ->
  size_at A M ptr - 1 + match l2 with [] => 0 | a :: _ => size_at A M a end < MOD ->
  x - 8 + W <= head \/ head + W <= x - 8 ->
  x = ptr \/ x - 8 + W <= ptr - 8 \/ ptr + 2 * W <= x - 8 ->
  (forall y, In y l2 -> x - 8 + W <= y \/ y + 2 * W <= x - 8) ->
  size_at A (freed A M head ptr [] l2) x
  = if x =? ptr
    then size_at A M ptr - 1
         + match l2 with
           | [] => 0
           | a :: _ => if a - 8 =? ptr - 8 + (size_at A M ptr - 1) then size_at A M a else 0
           end
    else size_at A M x.
Proof.
  intros Hcs Hl2 Htot Hhead Hptr Hlinks. pose proof (sizeof_ptr_cases A) as HW.
  unfold freed. cbv zeta. set (cs := size_at A M ptr - 1) in *.
  destruct l2 as [|a t].
  - rewrite Z.add_0_r.
    destruct (Z.eqb_spec x ptr) as [->|Hne]; skip_stores;
      [apply size_at_store_same; lia|reflexivity].
  - destruct Hl2 as (Hsa & Haf).
    pose proof (Hlinks a (or_introl eq_refl)) as La.
    assert (Lf : load_word A M a = 0 \/
                 x - 8 + W <= load_word A M a \/ load_word A M a + 2 * W <= x - 8).
    { rewrite Haf. destruct t as [|a2 t2]; [now left|right].
      apply (Hlinks a2). right. now left. }
    unfold coalesced.
    destruct (Z.eqb_spec (a - 8) (ptr - 8 + cs)) as [Em|Em]; cbv zeta.
    + destruct (Z.eqb_spec (load_word A M a) 0) as [E0|E0];
        (destruct (Z.eqb_spec x ptr) as [->|Hne]; skip_stores;
         [apply size_at_store_same; lia|reflexivity]).
    + rewrite Z.add_0_r.
      destruct (Z.eqb_spec x ptr) as [->|Hne]; skip_stores;
        [apply size_at_store_same; lia|reflexivity].
Qed.

(** The headers after [mm_free ptr], when [b] is the last free block
    below [ptr]. *)
Lemma freed_size_later M head ptr k b l2 x :
  0 <= size_at A M ptr - 1 ->
  8 + 2 * W <= size_at A M b -> b - 8 + size_at A M b <= ptr - 8 ->
  match l2 with
  | [] => True
  | a :: t => 0 <= size_at A M a /\ load_word A M a = hd 0 t
  end ->
  size_at A M b + (size_at A M ptr - 1)
  + match l2 with [] => 0 | a :: _ => size_at A M a end < MOD ->
  x - 8 + W <= head \/ head + W <= x - 8 ->
  x = b \/ x - 8 + W <= b - 8 \/ b + 2 * W <= x - 8 ->
  x - 8 + W <= ptr - 8 \/ ptr + 2 * W <= x - 8
  \/ (x = ptr /\ ptr - 8 <> b - 8 + size_at A M b) ->
  (forall y, In y l2 -> x - 8 + W <= y \/ y + 2 * W <= x - 8) ->
  size_at A (freed A M head ptr (k ++ [b]) l2) x
  = if ptr - 8 =? b - 8 + size_at A M b
    then if x =? b
         then size_at A M b + (size_at A M ptr - 1)
              + match l2 with
                | [] => 0
                | a :: _ => if a - 8 =? ptr - 8 + (size_at A M ptr - 1)
                            then size_at A M a else 0
                end
         else size_at A M x
    else if x =? ptr
         then size_at A M ptr - 1
              + match l2 with
                | [] => 0
                | a :: _ => if a - 8 =? ptr - 8 + (size_at A M ptr - 1)
                            then size_at A M a else 0
                end
         else size_at A M x.
Proof.
  intros Hcs Hsb Hbp Hl2 Htot Hhead Hb Hptr Hlinks. pose proof (sizeof_ptr_cases A) as HW.
  unfold freed. cbv zeta. rewrite !last_last.
  set (cs := size_at A M ptr - 1) in *. set (sb := size_at A M b) in *.
  destruct (k ++ [b]) eqn:E; [destruct k; discriminate|]. clear E.
  destruct l2 as [|a t].
  - rewrite !Z.add_0_r.
    destruct (Z.eqb_spec (ptr - 8) (b - 8 + sb)) as [Eb|Eb].
    + destruct (Z.eqb_spec x b) as [->|Hne]; skip_stores;
        [apply size_at_store_same; lia|reflexivity].
    + destruct (Z.eqb_spec x ptr) as [->|Hne]; skip_stores;
        [apply size_at_store_same; lia|reflexivity].
  - destruct Hl2 as (Hsa & Haf).
    pose proof (Hlinks a (or_introl eq_refl)) as La.
    assert (Lf : load_word A M a = 0 \/
                 x - 8 + W <= load_word A M a \/ load_word A M a + 2 * W <= x - 8).
    { rewrite Haf. destruct t as [|a2 t2]; [now left|right].
      apply (Hlinks a2). right. now left. }
    unfold coalesced.
    destruct (Z.eqb_spec (ptr - 8) (b - 8 + sb)) as [Eb|Eb].
    + replace (a - 8 =? b - 8 + (sb + cs)) with (a - 8 =? ptr - 8 + cs) by (f_equal; lia).
      destruct (Z.eqb_spec (a - 8) (ptr - 8 + cs)) as [Em|Em]; cbv zeta.
      * destruct (Z.eqb_spec (load_word A M a) 0) as [E0|E0];
          (destruct (Z.eqb_spec x b) as [->|Hne]; skip_stores;
           [rewrite <- Z.add_assoc; apply size_at_store_same; lia|reflexivity]).
      * rewrite Z.add_0_r.
        destruct (Z.eqb_spec x b) as [->|Hne]; skip_stores;
          [apply size_at_store_same; lia|reflexivity].
    + destruct (Z.eqb_spec (a - 8) (ptr - 8 + cs)) as [Em|Em]; cbv zeta.
      * destruct (Z.eqb_spec (load_word A M a) 0) as [E0|E0];
          (destruct (Z.eqb_spec x ptr) as [->|Hne]; skip_stores;
           [apply size_at_store_same; lia|reflexivity]).
      * rewrite Z.add_0_r.
        destruct (Z.eqb_spec x ptr) as [->|Hne]; skip_stores;
          [apply size_at_store_same; lia|reflexivity].
Qed.

(** The arithmetic of coalescing: the block made of [ptr] and of the
    free blocks that touched it touches no block of the list. *)
Lemma merged_apart (size size' : Z -> Z) (inl : Z -> Prop) (ptr pend : Z)
      (hasb : bool) (b : Z) (hasa : bool) (a : Z) (X E : Z) (L' : list Z) :
  (forall u v, inl u -> inl v -> u - 8 + size u <> v - 8) ->
  (forall u, inl u -> 0 < size u /\ (u - 8 + size u <= ptr - 8 \/ pend <= u - 8)) ->
  ptr - 8 < pend ->
  (forall u, inl u -> u - 8 + size u <= ptr - 8 ->
             hasb = true /\ (u = b \/ u - 8 + size u <= b - 8)) ->
  (hasb = true -> inl b /\ b - 8 + size b <= ptr - 8) ->
  (forall u, inl u -> pend <= u - 8 ->
             hasa = true /\ (u = a \/ a - 8 + size a <= u - 8)) ->
  (hasa = true -> inl a /\ pend <= a - 8) ->
  X = (if hasb && (ptr - 8 =? b - 8 + size b) then b else ptr) ->
  E = (if hasa && (a - 8 =? pend) then a - 8 + size a else pend) ->
  (forall x, In x L' ->
             (x = X /\ x - 8 + size' x = E)
             \/ (inl x /\ x <> X /\ size' x = size x
                 /\ (hasa && (a - 8 =? pend) = true -> x <> a))) ->
  forall x y, In x L' -> In y L' -> x - 8 + size' x <> y - 8.
Proof.
  intros Hold Hpos Hlen Hb Hb' Ha Ha' EX EE HL x y Hx Hy.
  assert (HX : X - 8 <= ptr - 8).
  { rewrite EX. destruct hasb; cbn [andb]; [|lia].
    destruct (Hb' eq_refl) as (Ib & Pb). destruct (Hpos b Ib).
    destruct (ptr - 8 =? b - 8 + size b); lia. }
  assert (HE : pend <= E).
  { rewrite EE. destruct hasa; cbn [andb]; [|lia].
    destruct (Ha' eq_refl) as (Ia & Pa). destruct (Hpos a Ia).
    destruct (a - 8 =? pend); lia. }
  destruct (HL x Hx) as [(Ex & Eend)|(Ix & Nx & Sx & Ax)];
    destruct (HL y Hy) as [(Ey & _)|(Iy & Ny & _ & Ay)].
  - lia.
  - (* the merged block against a block after it *)
    rewrite Eend. destruct (Hpos y Iy) as (Sy & [Py|Py]); [lia|].
    destruct (Ha y Iy Py) as (Hhas & Hy'). rewrite Hhas in *. cbn [andb] in *.
    destruct (Ha' eq_refl) as (Ia & Pa). destruct (Hpos a Ia) as (Sa & _).
    pose proof (Hold a y Ia Iy) as Hay.
    destruct (Z.eqb_spec (a - 8) pend) as [Em|Em].
    + specialize (Ay eq_refl). lia.
    + lia.
  - (* a block before the merged block *)
    rewrite Sx. subst y. destruct (Hpos x Ix) as (Sxx & [Px|Px]); [|lia].
    destruct (Hb x Ix Px) as (Hhas & Hx'). rewrite Hhas in *. cbn [andb] in *.
    destruct (Hb' eq_refl) as (Ib & Pb). destruct (Hpos b Ib) as (Sb & _).
    pose proof (Hold x b Ix Ib) as Hxb.
    destruct (Z.eqb_spec (ptr - 8) (b - 8 + size b)) as [Em|Em]; [lia|].
    destruct Hx' as [->|Hx']; lia.
  - rewrite Sx. now apply Hold.
Qed.

(** X27 — [mm_free] keeps the free blocks apart: when no two free
    blocks of the list touch before the call, none do after it.  The
    block freed is merged with the free block that ends where it starts
    and with the one that starts where it ends. *)
Theorem free_keeps_blocks_apart md fuel st l ptr :
  heap_ok A st -> free_list A st l -> allocated_at A st l ptr ->
  escaped_coalescing A (bytes st) l = false ->
  (length l < fuel)%nat ->
  exists st' l',
    mm_free A md fuel ptr st = Ok tt st' /\
    free_list A st' l' /\ escaped_coalescing A (bytes st') l' = false.
Proof.
  intros Hok Hfl Hal Hnt Hfuel.
  pose proof Hok as [Hlo Hbrk Hlim Hmod]. pose proof (sizeof_ptr_cases A) as HW.
  destruct (allocated_partition A st l ptr Hok Hfl Hal) as (l1 & l2 & -> & P1 & P2).
  assert (H0 : 0 <= lo st + W) by lia.
  pose proof (pairs_no_touch (bytes st) (brk st) _ _ _ _ H0 Hfl Hnt) as Hold.
  pose proof Hal as [Hflag Hsize Hlow Htop Hapart]. unfold min_block in Hsize.
  exists (set_bytes st (freed A (bytes st) (lo st) ptr l1 l2)),
         (freed_list A (bytes st) ptr l1 l2).
  split; [apply mm_free_run; try assumption; rewrite length_app in Hfuel; lia|].
  split; [apply freed_chain; assumption|].
  cbn [bytes set_bytes].
  set (m := bytes st) in *. set (cs := size_at A m ptr - 1) in *.
  assert (G : forall x, In x (l1 ++ l2) ->
            lo st + W <= x - 8 /\ 8 + 2 * W <= size_at A m x /\
            x - 8 + size_at A m x <= brk st /\
            (x - 8 + size_at A m x <= ptr - 8 \/ ptr - 8 + cs <= x - 8) /\
            forall y, In y (l1 ++ l2) -> x - 8 + W <= y \/ y + 2 * W <= x - 8).
  { intros x Hx.
    destruct (header_apart A st _ x x Hok Hfl Hx Hx) as (_ & _ & X3 & X4 & X5).
    split; [exact X3|]. split; [exact X4|]. split; [exact X5|].
    split; [exact (Hapart x Hx)|].
    intros y Hy. now destruct (header_apart A st _ x y Hok Hfl Hx Hy) as (_ & ? & _). }
  assert (Hin1 : forall x, In x l1 -> In x (l1 ++ l2)) by (intros; apply in_or_app; now left).
  assert (Hin2 : forall x, In x l2 -> In x (l1 ++ l2)) by (intros; apply in_or_app; now right).
  assert (B1 : forall x, In x l1 -> x - 8 + size_at A m x <= ptr - 8).
  { intros x Hx. specialize (P1 x Hx). destruct (G x (Hin1 x Hx)) as (? & ? & ? & ? & _). lia. }
  assert (B2 : forall x, In x l2 -> ptr - 8 + cs <= x - 8).
  { intros x Hx. specialize (P2 x Hx). destruct (G x (Hin2 x Hx)) as (? & ? & ? & ? & _). lia. }
  assert (Hpos : forall u, In u (l1 ++ l2) ->
                   0 < size_at A m u /\
                   (u - 8 + size_at A m u <= ptr - 8 \/ ptr - 8 + cs <= u - 8)).
  { intros u Hu. destruct (G u Hu) as (? & ? & ? & ? & _). lia. }
  assert (Hside : forall u, In u (l1 ++ l2) ->
                    (u - 8 + size_at A m u <= ptr - 8 -> In u l1) /\
                    (ptr - 8 + cs <= u - 8 -> In u l2)).
  { intros u Hu. destruct (G u Hu) as (? & ? & ? & ? & _).
    apply in_app_or in Hu. destruct Hu as [Hu|Hu].
    - split; [trivial|]. specialize (B1 u Hu). lia.
    - split; [|trivial]. specialize (B2 u Hu). lia. }
  assert (Hl2 : match l2 with
                | [] => True
                | a :: t => 0 <= size_at A m a /\ load_word A m a = hd 0 t
                end).
  { destruct l2 as [|a t]; [exact I|].
    destruct (free_chain_links A st l1 a t Hok Hfl) as (_ & L2 & _ & _ & L5 & _).
    fold m in L2, L5. split; [lia|exact L5]. }
  assert (Ha : forall a t, l2 = a :: t ->
                 forall u, In u l2 -> u = a \/ a - 8 + size_at A m a <= u - 8).
  { intros a t -> u [<-|Hu]; [now left|right].
    destruct (free_chain_links A st l1 a t Hok Hfl) as (_ & _ & _ & _ & _ & _ & L7 & _).
    destruct (L7 u Hu) as (Hu1 & _). fold m in Hu1. lia. }
  assert (Hcs : 0 <= cs) by lia.
  assert (Hp8 : ptr - 8 < ptr - 8 + cs) by lia.
  set (hasa := match l2 with [] => false | _ => true end).
  set (a := hd 0 l2).
  assert (Ha6 : forall u, In u (l1 ++ l2) -> ptr - 8 + cs <= u - 8 ->
                  hasa = true /\ (u = a \/ a - 8 + size_at A m a <= u - 8)).
  { intros u Hu Hge. destruct (Hside u Hu) as (_ & Hs). specialize (Hs Hge).
    unfold hasa, a. destruct l2 as [|a' t]; [destruct Hs|]. split; [reflexivity|].
    cbn [hd]. exact (Ha a' t eq_refl u Hs). }
  assert (Ha7 : hasa = true -> In a (l1 ++ l2) /\ ptr - 8 + cs <= a - 8).
  { unfold hasa, a. destruct l2 as [|a' t]; [discriminate|]. intros _. cbn [hd].
    split; [apply Hin2; now left|apply B2; now left]. }
  assert (Hextra : match l2 with
                   | [] => 0
                   | a0 :: _ => if a0 - 8 =? ptr - 8 + cs then size_at A m a0 else 0
                   end
                   = (if hasa && (a - 8 =? ptr - 8 + cs) then size_at A m a else 0)).
  { unfold hasa, a. destruct l2 as [|a' t]; reflexivity. }
  assert (Htail : forall x, In x (if match l2 with
                                     | [] => false
                                     | a0 :: _ => a0 - 8 =? ptr - 8 + cs
                                     end then tl l2 else l2) ->
                    In x l2 /\ (hasa && (a - 8 =? ptr - 8 + cs) = true -> x <> a)).
  { unfold hasa, a. destruct l2 as [|a' t]; [intros x []|]. cbn [hd tl andb].
    intros x Hx. destruct (Z.eqb_spec (a' - 8) (ptr - 8 + cs)) as [Em|Em].
    - split; [now right|]. intros _.
      destruct (Ha a' t eq_refl x (or_intror Hx)) as [->|Hlt].
      + destruct (free_chain_links A st l1 a' t Hok Hfl) as (_ & _ & _ & _ & _ & _ & L7 & _).
        destruct (L7 a' Hx) as (Hu1 & _). fold m in Hu1.
        destruct (G a' (Hin2 a' (or_introl eq_refl))) as (_ & ? & _). lia.
      + destruct (G a' (Hin2 a' (or_introl eq_refl))) as (_ & ? & _). lia.
    - split; [exact Hx|]. discriminate. }
  assert (Htot2 : cs + match l2 with [] => 0 | a0 :: _ => size_at A m a0 end <= brk st - (ptr - 8)).
  { destruct l2 as [|a' t]; [lia|].
    destruct (G a' (Hin2 a' (or_introl eq_refl))) as (_ & ? & ? & _).
    specialize (B2 a' (or_introl eq_refl)). lia. }
  assert (Hlinks_l : forall x, In x (l1 ++ l2) ->
                       forall y, In y l2 -> x - 8 + W <= y \/ y + 2 * W <= x - 8).
  { intros x Hx y Hy. destruct (G x Hx) as (_ & _ & _ & _ & Gl). apply Gl, Hin2, Hy. }
  assert (Hlinks_p : forall y, In y l2 -> ptr - 8 + W <= y \/ y + 2 * W <= ptr - 8).
  { intros y Hy. specialize (P2 y Hy). lia. }
  apply no_touch_pairs.
  destruct (exists_last_or_nil l1) as [->|(k & b & ->)].
  - (* no free block below [ptr] *)
    cbn [app] in *.
    apply (merged_apart (size_at A m) (size_at A (freed A m (lo st) ptr [] l2))
                        (fun x => In x l2) ptr (ptr - 8 + cs) false 0 hasa a
                        ptr
                        (if hasa && (a - 8 =? ptr - 8 + cs)
                         then a - 8 + size_at A m a else ptr - 8 + cs)
                        (freed_list A m ptr [] l2)).
    + exact Hold.
    + exact Hpos.
    + exact Hp8.
    + intros u Hu Hle. destruct (Hside u Hu) as (Hs & _). destruct (Hs Hle).
    + discriminate.
    + exact Ha6.
    + exact Ha7.
    + reflexivity.
    + reflexivity.
    + unfold freed_list. cbv zeta. fold cs. cbn [app].
      intros x [<-|Hx].
      * left. split; [reflexivity|].
        rewrite (freed_size_first m (lo st) ptr l2 ptr); fold cs; try assumption; try lia.
        rewrite Z.eqb_refl, Hextra.
        destruct (hasa && (a - 8 =? ptr - 8 + cs)) eqn:Em; [|lia].
        apply andb_prop in Em. destruct Em as (_ & Em). apply Z.eqb_eq in Em. lia.
      * right. destruct (Htail x Hx) as (Hx2 & Hxa).
        specialize (P2 x Hx2).
        destruct (G x Hx2) as (X1 & X2 & X3 & X4 & X5).
        split; [exact Hx2|]. split; [lia|]. split; [|exact Hxa].
        rewrite (freed_size_first m (lo st) ptr l2 x); fold cs; try assumption; try lia.
        replace (x =? ptr) with false by (symmetry; apply Z.eqb_neq; lia). reflexivity.
  - (* [b] is the last free block below [ptr] *)
    assert (Hbin : In b (k ++ [b])) by (apply in_or_app; right; now left).
    pose proof (B1 b Hbin) as Bb.
    destruct (G b (Hin1 b Hbin)) as (Gb1 & Gb2 & Gb3 & Gb4 & Gb5).
    assert (Hk : forall u, In u (k ++ [b]) -> u = b \/ u - 8 + size_at A m u <= b - 8).
    { intros u Hu. apply in_app_or in Hu. destruct Hu as [Hu|[<-|[]]]; [right|now left].
      pose proof Hfl as Hfl'. rewrite <- app_assoc in Hfl'. cbn [app] in Hfl'.
      destruct (free_chain_links A st k b l2 Hok Hfl') as (_ & _ & _ & _ & _ & _ & _ & L8 & _).
      destruct (L8 u Hu) as (_ & _ & Hu3). exact Hu3. }
    assert (Hpair : forall x, In x ((k ++ [b]) ++ l2) ->
                      x = b \/ x - 8 + W <= b - 8 \/ b + 2 * W <= x - 8).
    { intros x Hx.
      destruct (header_apart A st _ x b Hok Hfl Hx (Hin1 b Hbin)) as (Hp & _ & _ & X4 & _).
      fold m in Hp, X4. destruct Hp as [->|[?|?]]; [now left|right; left; lia|right; right; lia]. }
    assert (Htot : size_at A m b + cs + match l2 with [] => 0 | a0 :: _ => size_at A m a0 end
                   < MOD) by lia.
    apply (merged_apart (size_at A m) (size_at A (freed A m (lo st) ptr (k ++ [b]) l2))
                        (fun x => In x ((k ++ [b]) ++ l2)) ptr (ptr - 8 + cs) true b hasa a
                        (if ptr - 8 =? b - 8 + size_at A m b then b else ptr)
                        (if hasa && (a - 8 =? ptr - 8 + cs)
                         then a - 8 + size_at A m a else ptr - 8 + cs)
                        (freed_list A m ptr (k ++ [b]) l2)).
    + exact Hold.
    + exact Hpos.
    + exact Hp8.
    + intros u Hu Hle. destruct (Hside u Hu) as (Hs & _). split; [reflexivity|].
      apply Hk, Hs, Hle.
    + intros _. split; [apply Hin1, Hbin|exact Bb].
    + exact Ha6.
    + exact Ha7.
    + reflexivity.
    + reflexivity.
    + assert (Hsz : forall x,
                (In x ((k ++ [b]) ++ l2)
                 \/ (x = ptr /\ ptr - 8 <> b - 8 + size_at A m b)) ->
                size_at A (freed A m (lo st) ptr (k ++ [b]) l2) x
                = if ptr - 8 =? b - 8 + size_at A m b
                  then if x =? b
                       then size_at A m b + cs
                            + (if hasa && (a - 8 =? ptr - 8 + cs) then size_at A m a else 0)
                       else size_at A m x
                  else if x =? ptr
                       then cs + (if hasa && (a - 8 =? ptr - 8 + cs)
                                  then size_at A m a else 0)
                       else size_at A m x).
      { intros x Hx. rewrite <- Hextra.
        apply (freed_size_later m (lo st) ptr k b l2 x); fold cs; try assumption; try lia.
        - destruct Hx as [Hx|(-> & _)]; [|lia].
          destruct (G x Hx) as (X1 & _). lia.
        - destruct Hx as [Hx|(-> & _)]; [now apply Hpair|lia].
        - destruct Hx as [Hx|(-> & Hn)]; [|right; right; now split].
          destruct (G x Hx) as (X1 & X2 & X3 & X4 & X5). lia.
        - destruct Hx as [Hx|(-> & _)]; [now apply Hlinks_l|exact Hlinks_p]. }
      unfold freed_list. cbv zeta. fold cs. rewrite last_last.
      replace (match k ++ [b] with
               | [] => false
               | _ :: _ => ptr - 8 =? b - 8 + size_at A m b
               end) with (ptr - 8 =? b - 8 + size_at A m b)
        by (destruct k; reflexivity).
      intros x Hx. apply in_app_or in Hx. destruct Hx as [Hx|Hx].
      * (* a block below [ptr] *)
        pose proof (P1 x Hx) as Px. pose proof (B1 x Hx) as Bx.
        destruct (G x (Hin1 x Hx)) as (X1 & X2 & X3 & X4 & X5).
        rewrite (Hsz x (or_introl (Hin1 x Hx))).
        destruct (Z.eqb_spec (ptr - 8) (b - 8 + size_at A m b)) as [Em|Em].
        -- destruct (Z.eqb_spec x b) as [->|Hne].
           ++ left. split; [reflexivity|].
              destruct (hasa && (a - 8 =? ptr - 8 + cs)) eqn:Ea; [|lia].
              apply andb_prop in Ea. destruct Ea as (_ & Ea). apply Z.eqb_eq in Ea. lia.
           ++ right. split; [apply Hin1, Hx|]. split; [exact Hne|]. split; [reflexivity|].
              intros Ea. apply andb_prop in Ea. destruct Ea as (Ea & _).
              destruct (Ha7 Ea) as (_ & ?). lia.
        -- replace (x =? ptr) with false by (symmetry; apply Z.eqb_neq; lia).
           right. split; [apply Hin1, Hx|]. split; [lia|]. split; [reflexivity|].
           intros Ea. apply andb_prop in Ea. destruct Ea as (Ea & _).
           destruct (Ha7 Ea) as (_ & ?). lia.
      * apply in_app_or in Hx. destruct Hx as [Hx|Hx].
        -- (* [ptr] itself *)
           destruct (Z.eqb_spec (ptr - 8) (b - 8 + size_at A m b)) as [Em|Em]; [destruct Hx|].
           destruct Hx as [<-|[]].
           rewrite (Hsz ptr (or_intror (conj eq_refl Em))).
           replace (ptr - 8 =? b - 8 + size_at A m b) with false
             by (symmetry; now apply Z.eqb_neq).
           rewrite Z.eqb_refl.
           left. split; [reflexivity|].
           destruct (hasa && (a - 8 =? ptr - 8 + cs)) eqn:Ea; [|lia].
           apply andb_prop in Ea. destruct Ea as (_ & Ea). apply Z.eqb_eq in Ea. lia.
        -- (* a block above [ptr] *)
           destruct (Htail x Hx) as (Hx2 & Hxa).
           pose proof (P2 x Hx2) as Px.
           rewrite (Hsz x (or_introl (Hin2 x Hx2))).
           replace (x =? b) with false by (symmetry; apply Z.eqb_neq; lia).
           replace (x =? ptr) with false by (symmetry; apply Z.eqb_neq; lia).
           right. split; [apply Hin2, Hx2|]. split; [|split; [|exact Hxa]].
           ++ destruct (ptr - 8 =? b - 8 + size_at A m b); lia.
           ++ destruct (ptr - 8 =? b - 8 + size_at A m b); reflexivity.
Qed.

End Apart.

(** ** More theorems at concrete heaps *)

Ltac allocated_by_computation sides :=
  constructor;
  [by_computation | by_computation | by_computation | by_computation | sides].

Lemma moved_pointer_compose_witness :
  moved_pointer LP64 (moved_pointer LP64 65552 32 BLOCK_FORWARD BLOCK_HEADER) 32
                BLOCK_HEADER BLOCK_END
  = moved_pointer LP64 65552 32 BLOCK_FORWARD BLOCK_END /\
  moved_pointer LP64 (moved_pointer LP64 65552 32 BLOCK_FORWARD BLOCK_HEADER) 32
                BLOCK_HEADER BLOCK_FORWARD
  = 65552.
Proof.
  apply (moved_pointer_compose LP64 65552 32 BLOCK_FORWARD BLOCK_HEADER BLOCK_END).
  - by_computation.
  - right. right. left. reflexivity.
  - left. reflexivity.
  - right. left. reflexivity.
Defined.

Lemma ALIGN_rounds_up_witness :
  ALIGN LP64 13 mod 8 = 0 /\
  (13 + 7 < word_mod LP64 ->
   13 <= ALIGN LP64 13 < 13 + 8 /\ (13 mod 8 = 0 -> ALIGN LP64 13 = 13)) /\
  (word_mod LP64 <= 13 + 7 -> ALIGN LP64 13 = 0).
Proof.
  apply (ALIGN_rounds_up LP64 13). by_computation.
Defined.

Lemma block_size_of_request_witness :
  block_size LP64 100
  = (if 100 <? 2 * sizeof_ptr LP64 then 2 * sizeof_ptr LP64 + 8
     else 8 * ((100 + 15) / 8)) /\
  block_size LP64 100 mod 8 = 0 /\
  min_block LP64 <= block_size LP64 100 /\
  100 + 8 <= block_size LP64 100 /\
  (2 * sizeof_ptr LP64 <= 100 -> block_size LP64 100 < 100 + 16).
Proof.
  apply (block_size_of_request LP64 100). by_computation.
Defined.

Lemma block_size_int_cast_witness : block_size LP64 (2 ^ 32 + 3) = 24.
Proof.
  apply (block_size_int_cast (2 ^ 32 + 3)); by_computation.
Defined.




Lemma malloc_refused_returns_null_witness :
  mm_malloc LP64 Strict 3 200 heap_three_free_full = Ok NULL heap_three_free_full.
Proof.
  apply (malloc_refused_returns_null LP64 Strict 3 200 heap_three_free_full
           [65552; 65688; 65760]).
  - constructor; by_computation.
  - by_computation.
  - discriminate.
  - by_computation.
  - simpl. lia.
  - intros x [<-|[<-|[<-|[]]]]; by_computation.
  - by_computation.
  - by_computation.
Defined.

Lemma malloc_first_call_witness :
  exists st',
    mm_malloc LP64 Strict 1 24 (fresh_heap 65536 1048576)
    = Ok (ALIGN LP64 (lo (fresh_heap 65536 1048576) + sizeof_ptr LP64) + 8) st' /\
    (ALIGN LP64 (lo (fresh_heap 65536 1048576) + sizeof_ptr LP64) + 8) mod 8 = 0 /\
    lo st' = lo (fresh_heap 65536 1048576) /\
    brk st' = ALIGN LP64 (lo (fresh_heap 65536 1048576) + sizeof_ptr LP64)
              + block_size LP64 24 /\
    heap_ok LP64 st' /\ free_list LP64 st' [] /\
    allocated_at LP64 st' []
                 (ALIGN LP64 (lo (fresh_heap 65536 1048576) + sizeof_ptr LP64) + 8) /\
    size_at LP64 (bytes st')
            (ALIGN LP64 (lo (fresh_heap 65536 1048576) + sizeof_ptr LP64) + 8)
    = block_size LP64 24 + 1.
Proof.
  apply (malloc_first_call LP64 Strict 1 24 (fresh_heap 65536 1048576)); by_computation.
Defined.


Lemma free_keeps_free_list_witness :
  exists st' l1 l2,
    [65552; 65616] = l1 ++ l2 /\
    (forall x, In x l1 -> x < 65584) /\ (forall x, In x l2 -> 65584 < x) /\
    mm_free LP64 Strict 3 65584 heap_two_free = Ok tt st' /\
    lo st' = lo heap_two_free /\ brk st' = brk heap_two_free /\
    limit st' = limit heap_two_free /\
    heap_ok LP64 st' /\
    free_list LP64 st' (freed_list LP64 (bytes heap_two_free) 65584 l1 l2).
Proof.
  apply (free_keeps_free_list LP64 Strict 3 heap_two_free [65552; 65616] 65584).
  - constructor; by_computation.
  - by_computation.
  - allocated_by_computation ltac:(intros x [<-|[<-|[]]]; [left|right]; by_computation).
  - simpl. lia.
Defined.

Lemma free_keeps_allocated_blocks_witness :
  exists st' l',
    mm_free LP64 Strict 4 65664 heap_three_free = Ok tt st' /\
    heap_ok LP64 st' /\ free_list LP64 st' l' /\ allocated_at LP64 st' l' 65736 /\
    forall z, 65736 - 8 <= z < 65736 - 8 + (size_at LP64 (bytes heap_three_free) 65736 - 1) ->
              bytes st' z = bytes heap_three_free z.
Proof.
  apply (free_keeps_allocated_blocks LP64 Strict 4 heap_three_free
           [65552; 65688; 65760] 65664 65736).
  - constructor; by_computation.
  - by_computation.
  - allocated_by_computation
      ltac:(intros x [<-|[<-|[<-|[]]]]; [left|right|right]; by_computation).
  - allocated_by_computation
      ltac:(intros x [<-|[<-|[<-|[]]]]; [left|left|right]; by_computation).
  - right. by_computation.
  - simpl. lia.
Defined.


Lemma realloc_grows_by_absorb_witness :
  exists st',
    mm_realloc LP64 Strict 1 65664 50 heap_three_free = Ok 65664 st' /\
    lo st' = lo heap_three_free /\ brk st' = brk heap_three_free /\
    limit st' = limit heap_three_free /\
    size_at LP64 (bytes st') 65664
    = size_at LP64 (bytes heap_three_free) 65664 - 1
      + size_at LP64 (bytes heap_three_free) 65688 + 1 /\
    free_list LP64 st' ([65552] ++ [65760]) /\
    allocated_at LP64 st' ([65552] ++ [65760]) 65664 /\
    (forall y, In y ([65552] ++ [65760]) ->
               size_at LP64 (bytes st') y = size_at LP64 (bytes heap_three_free) y) /\
    forall z, ~ (lo heap_three_free <= z < lo heap_three_free + sizeof_ptr LP64) ->
              ~ (65664 - 8 <= z < 65664 - 8 + sizeof_ptr LP64) ->
              ~ in_free_block LP64 (bytes heap_three_free) ([65552] ++ 65688 :: [65760]) z ->
              bytes st' z = bytes heap_three_free z.
Proof.
  apply (realloc_grows_by_absorb LP64 Strict 1 heap_three_free [65552] 65688 [65760] 65664 50).
  - constructor; by_computation.
  - by_computation.
  - allocated_by_computation
      ltac:(intros x [<-|[<-|[<-|[]]]]; [left|right|right]; by_computation).
  - by_computation.
  - by_computation.
  - by_computation.
  - by_computation.
  - by_computation.
Defined.

Lemma realloc_never_shrinks_witness :
  mm_realloc LP64 Strict 1 65736 8 heap_three_free = Ok 65736 heap_three_free.
Proof.
  apply (realloc_never_shrinks LP64 Strict 1 heap_three_free [65552; 65688; 65760] 65736 8).
  - constructor; by_computation.
  - allocated_by_computation
      ltac:(intros x [<-|[<-|[<-|[]]]]; [left|left|right]; by_computation).
  - by_computation.
  - by_computation.
Defined.

Lemma realloc_tail_extension_witness :
  exists st',
    mm_realloc LP64 (Flat 0) 1 65552 100 heap_one_block = Ok 65552 st' /\
    lo st' = lo heap_one_block /\ limit st' = limit heap_one_block /\
    brk st' = (if brk heap_one_block
                  + (ALIGN LP64 (100 + 8) - (size_at LP64 (bytes heap_one_block) 65552 - 1))
                  <=? limit heap_one_block
               then 65552 - 8 + ALIGN LP64 (100 + 8) else brk heap_one_block) /\
    bytes st' = store_word LP64 (bytes heap_one_block) (65552 - 8) (ALIGN LP64 (100 + 8) + 1) /\
    size_at LP64 (bytes st') 65552 = ALIGN LP64 (100 + 8) + 1 /\
    (limit heap_one_block
     < brk heap_one_block
       + (ALIGN LP64 (100 + 8) - (size_at LP64 (bytes heap_one_block) 65552 - 1)) ->
     brk st' < 65552 - 8 + (size_at LP64 (bytes st') 65552 - 1)).
Proof.
  apply (realloc_tail_extension LP64 0 1 heap_one_block [] 65552 100).
  - constructor; by_computation.
  - allocated_by_computation ltac:(intros x []).
  - by_computation.
  - by_computation.
  - by_computation.
Defined.

Lemma free_list_debug_finds_touching_witness :
  free_list_debug LP64 Strict 4 heap_three_free
  = Ok (if escaped_coalescing LP64 (bytes heap_three_free) [65552; 65688; 65760]
        then 0 else 1) heap_three_free.
Proof.
  apply (free_list_debug_finds_touching LP64 Strict 4 heap_three_free [65552; 65688; 65760]).
  - constructor; by_computation.
  - by_computation.
  - simpl. lia.
  - simpl. lia.
Defined.

Lemma free_list_debug_short_list_witness :
  free_list_debug LP64 (Flat 7) 4 heap_one_block = Ok 7 heap_one_block.
Proof.
  apply (free_list_debug_short_list LP64 (Flat 7) 4 heap_one_block []).
  - constructor; by_computation.
  - by_computation.
  - simpl. lia.
Defined.

Lemma print_heap_blocks_accepts_witness :
  print_heap_blocks LP64 Strict 7 heap_three_free = Ok 1 heap_three_free.
Proof.
  apply (print_heap_blocks_accepts LP64 Strict 7 heap_three_free
           [(112, false); (24, true); (48, false); (24, true); (72, false); (24, true)]).
  - constructor; by_computation.
  - by_computation.
  - discriminate.
  - by_computation.
  - by_computation.
  - simpl. lia.
Defined.

Lemma print_heap_blocks_finds_off_list_witness :
  print_heap_blocks LP64 Strict 5 heap_off_list = Ok 0 heap_off_list.
Proof.
  apply (print_heap_blocks_finds_off_list LP64 Strict 5 heap_off_list
           [(48, true); (24, true); (24, false); (24, true)] [] 65624).
  - constructor; by_computation.
  - by_computation.
  - by_computation.
  - by_computation.
  - left. by_computation.
  - intros [].
  - simpl. lia.
Defined.

Lemma mm_check_accepts_witness :
  mm_check LP64 Strict 7 heap_three_free
  = Ok (if escaped_coalescing LP64 (bytes heap_three_free)
             (free_payloads (ALIGN LP64 (lo heap_three_free + 1))
                [(112, false); (24, true); (48, false); (24, true); (72, false); (24, true)])
        then 0 else 1) heap_three_free.
Proof.
  apply (mm_check_accepts LP64 Strict 7 heap_three_free
           [(112, false); (24, true); (48, false); (24, true); (72, false); (24, true)]).
  - constructor; by_computation.
  - by_computation.
  - by_computation.
  - by_computation.
  - vm_compute. lia.
  - simpl. lia.
Defined.


Lemma realloc_refused_keeps_block_witness :
  mm_realloc LP64 Strict 3 65664 120 heap_three_free_full = Ok NULL heap_three_free_full.
Proof.
  apply (realloc_refused_keeps_block LP64 Strict 3 heap_three_free_full
           [65552; 65688; 65760] 65664 120).
  - constructor; by_computation.
  - by_computation.
  - discriminate.
  - allocated_by_computation
      ltac:(intros x [<-|[<-|[<-|[]]]]; [left|right|right]; by_computation).
  - by_computation.
  - simpl. lia.
  - by_computation.
  - by_computation.
  - right. by_computation.
  - intros x [<-|[<-|[<-|[]]]]; by_computation.
  - by_computation.
  - by_computation.
Defined.



Lemma malloc_keeps_blocks_apart_witness :
  exists l',
    free_list LP64 (heap_after (mm_malloc LP64 Strict 3 16 heap_three_free)) l' /\
    escaped_coalescing LP64 (bytes (heap_after (mm_malloc LP64 Strict 3 16 heap_three_free))) l'
    = false /\
    forall y, In y l' -> In y [65552; 65688; 65760].
Proof.
  apply (malloc_keeps_blocks_apart LP64 Strict 3 16 heap_three_free [65552; 65688; 65760] 65712
           (heap_after (mm_malloc LP64 Strict 3 16 heap_three_free))).
  - constructor; by_computation.
  - by_computation.
  - by_computation.
  - by_computation.
  - intros _. by_computation.
  - simpl. lia.
  - discriminate.
  - apply outcome_of_value. by_computation.
  - discriminate.
Defined.

Lemma free_keeps_blocks_apart_witness :
  exists st' l',
    mm_free LP64 Strict 4 65664 heap_three_free = Ok tt st' /\
    free_list LP64 st' l' /\ escaped_coalescing LP64 (bytes st') l' = false.
Proof.
  apply (free_keeps_blocks_apart LP64 Strict 4 heap_three_free [65552; 65688; 65760] 65664).
  - constructor; by_computation.
  - by_computation.
  - allocated_by_computation
      ltac:(intros x [<-|[<-|[<-|[]]]]; [left|right|right]; by_computation).
  - by_computation.
  - simpl. lia.
Defined.
